(** * Bhabhi / Thulla: the rule engine of [bhabhi_game.py]

    A shallow embedding of the trick-taking engine of class [Game]
    (setup screen, deal, legality, CPU policy, play acceptance, two-phase
    trick resolution, pause toggle) and the properties of it that the
    specification states, with further properties read off the code.

    What is modelled and how:
    - Python lists are Rocq lists; [l[i]] and [l.pop(i)] follow Python's
      indexing, negative indices included ([py_index], [py_pop]); an
      exception is a [Raise] result.
    - Seats are positions in [players]; every call site takes them from
      [enumerate], [range], [next_active_index] or [active_index], so they
      are natural numbers. Card indices are arbitrary Python integers.
    - Objects mutated in place ([Player], [Game]) are records, a mutation
      of [self.players[i]] is an update of the list at position [i].
    - [random.shuffle] is a parameter of the development.
    - Wall-clock reads ([last_action_time], [warning_time],
      [trick_display_time]), fonts, sounds, screen geometry and the
      [MovingCard] object carry no rule of the game and are left out; the
      [animating] flag and [resolve_after_animation] are kept. *)

From Stdlib Require Import ZArith Lia DecimalString.
From stdpp Require Import base decidable option list strings relations sorting.

Set Default Proof Using "Type".

(** ** Cards *)

(** [RANKS = ['2', ..., '10', 'J', 'Q', 'K', 'A']] *)
Inductive Rank :=
  | R2 | R3 | R4 | R5 | R6 | R7 | R8 | R9 | R10 | RJ | RQ | RK | RA.

(** [SUITS = ['♠', '♥', '♦', '♣']] *)
Inductive Suit := Spades | Hearts | Diamonds | Clubs.

#[global] Instance Rank_eq_dec : EqDecision Rank.
Proof. solve_decision. Defined.
#[global] Instance Suit_eq_dec : EqDecision Suit.
Proof. solve_decision. Defined.

Definition RANKS : list Rank :=
  [R2; R3; R4; R5; R6; R7; R8; R9; R10; RJ; RQ; RK; RA].
Definition SUITS : list Suit := [Spades; Hearts; Diamonds; Clubs].

(** [RANK_VALUE = {r: i+2 for i, r in enumerate(RANKS)}] *)
Definition RANK_VALUE (r : Rank) : Z :=
  match r with
  | R2 => 2 | R3 => 3 | R4 => 4 | R5 => 5 | R6 => 6 | R7 => 7 | R8 => 8
  | R9 => 9 | R10 => 10 | RJ => 11 | RQ => 12 | RK => 13 | RA => 14
  end%Z.

(** [SUITS.index(s)] *)
Definition suit_index (s : Suit) : Z :=
  match s with Spades => 0 | Hearts => 1 | Diamonds => 2 | Clubs => 3 end%Z.

Record Card := mkCard { rank : Rank; suit : Suit }.

#[global] Instance Card_eq_dec : EqDecision Card.
Proof. solve_decision. Defined.

(** [self.value = RANK_VALUE[rank]] *)
Definition value (c : Card) : Z := RANK_VALUE (rank c).

(** [card.rank == 'A' and card.suit == '♠'] *)
Definition is_ace_of_spades (c : Card) : bool :=
  bool_decide (rank c = RA) && bool_decide (suit c = Spades).

(** [full_deck]: [[Card(rank, suit) for suit in SUITS for rank in RANKS]] *)
Definition full_deck : list Card :=
  s ← SUITS; r ← RANKS; [mkCard r s].

(** ** Python list indexing *)

(** The exceptions the engine can raise. *)
Inductive exn := IndexError | ZeroDivisionError | ValueError.

Inductive result (A : Type) :=
  | Ok (a : A)
  | Raise (e : exn).
Arguments Ok {A} a.
Arguments Raise {A} e.

Definition rbind {A B} (m : result A) (k : A → result B) : result B :=
  match m with Ok a => k a | Raise e => Raise e end.

Notation "x ←! m ; k" := (rbind m (λ x, k))
  (at level 20, m at level 100, k at level 200, only parsing, right associativity).

(** The position a Python index denotes in a list of length [n], if any. *)
Definition py_pos (n : nat) (i : Z) : option nat :=
  if (0 <=? i)%Z then
    (if (i <? Z.of_nat n)%Z then Some (Z.to_nat i) else None)
  else
    (if (- Z.of_nat n <=? i)%Z then Some (Z.to_nat (Z.of_nat n + i)) else None).

(** [l[i]] *)
Definition py_index {A} (l : list A) (i : Z) : result A :=
  match py_pos (length l) i with
  | Some k => match l !! k with Some x => Ok x | None => Raise IndexError end
  | None => Raise IndexError
  end.

(** [l.pop(i)]: the element and the list without it. *)
Definition py_pop {A} (l : list A) (i : Z) : result (A * list A) :=
  match py_pos (length l) i with
  | Some k => match l !! k with Some x => Ok (x, delete k l) | None => Raise IndexError end
  | None => Raise IndexError
  end.

(** [enumerate(l)] *)
Definition enumerate {A} (l : list A) : list (nat * A) := imap (λ i x, (i, x)) l.

(** [min(l, key=f)] and [max(l, key=f)] return the first extremal element. *)
Fixpoint py_min_from {A} (key : A → Z) (best : A) (l : list A) : A :=
  match l with
  | [] => best
  | x :: l' => py_min_from key (if (key x <? key best)%Z then x else best) l'
  end.

Fixpoint py_max_from {A} (key : A → Z) (best : A) (l : list A) : A :=
  match l with
  | [] => best
  | x :: l' => py_max_from key (if (key best <? key x)%Z then x else best) l'
  end.

Definition py_min {A} (key : A → Z) (l : list A) : option A :=
  match l with [] => None | x :: l' => Some (py_min_from key x l') end.

Definition py_max {A} (key : A → Z) (l : list A) : option A :=
  match l with [] => None | x :: l' => Some (py_max_from key x l') end.

(** ** Players *)

Record Player := mkPlayer {
  name : string;
  is_human : bool;
  hand : list Card;
  is_active : bool;
  finished_rank : option nat;
  just_picked_up : bool;
  avoid_suit : option Suit
}.

Definition set_hand (p : Player) (h : list Card) : Player :=
  mkPlayer (name p) (is_human p) h (is_active p) (finished_rank p)
           (just_picked_up p) (avoid_suit p).

Definition set_pickup_flags (p : Player) (j : bool) (a : option Suit) : Player :=
  mkPlayer (name p) (is_human p) (hand p) (is_active p) (finished_rank p) j a.

(** [p.finished_rank = r; p.is_active = False] *)
Definition set_finished (p : Player) (r : nat) : Player :=
  mkPlayer (name p) (is_human p) (hand p) false (Some r)
           (just_picked_up p) (avoid_suit p).

(** [Player.card_count] *)
Definition card_count (p : Player) : nat := length (hand p).

(** [Player.has_suit]: [any(c.suit == suit for c in self.hand)] *)
Definition has_suit (p : Player) (s : Suit) : bool :=
  existsb (λ c, bool_decide (suit c = s)) (hand p).

(** The sort key [(SUITS.index(c.suit), c.value)], compared as a tuple. *)
Definition key_leb (c d : Card) : bool :=
  (suit_index (suit c) <? suit_index (suit d))%Z
  || ((suit_index (suit c) =? suit_index (suit d))%Z && (value c <=? value d)%Z).

(** [list.sort] is stable: an element goes before the first one whose key
    is not smaller. *)
Fixpoint insert_card (c : Card) (l : list Card) : list Card :=
  match l with
  | [] => [c]
  | d :: l' => if key_leb c d then c :: l else d :: insert_card c l'
  end.

(** [Player.sort_hand], on the hand itself. *)
Definition sort_cards (l : list Card) : list Card := foldr insert_card [] l.

Definition sort_hand (p : Player) : Player := set_hand p (sort_cards (hand p)).

(** [Player.pick_up]: [self.hand.extend(cards); self.sort_hand()] *)
Definition pick_up (p : Player) (cards : list Card) : Player :=
  sort_hand (set_hand p (hand p ++ cards)).

(** ** Game state *)

Inductive GameState := Setup | Dealing | Play | Finished | Paused | ShowingTrick.

#[global] Instance GameState_eq_dec : EqDecision GameState.
Proof. solve_decision. Defined.

Record Game := mkGame {
  state : GameState;
  players : list Player;
  player_count : nat;
  deck : list Card;
  discard_pile : list Card;
  trick_cards : list (nat * Card);
  leader_index : nat;
  active_index : option nat;
  required_suit : option Suit;
  ranks_assigned : nat;
  finish_order : list (string * nat);
  showing_trick : bool;
  last_played_cards : list (nat * Card);
  pending_tochoo : bool;
  last_trick_suit : option Suit;
  warning_text : string;
  paused : bool;
  first_move : bool;
  animating : bool;
  resolve_after_animation : option bool;
  pause_button_text : string
}.

(** Field assignments [self.f = v]. *)

Definition set_state (v : GameState) (g : Game) : Game :=
  mkGame v (players g) (player_count g) (deck g) (discard_pile g)
    (trick_cards g) (leader_index g) (active_index g) (required_suit g)
    (ranks_assigned g) (finish_order g) (showing_trick g)
    (last_played_cards g) (pending_tochoo g) (last_trick_suit g)
    (warning_text g) (paused g) (first_move g) (animating g)
    (resolve_after_animation g) (pause_button_text g).

Definition set_players (v : list Player) (g : Game) : Game :=
  mkGame (state g) v (player_count g) (deck g) (discard_pile g)
    (trick_cards g) (leader_index g) (active_index g) (required_suit g)
    (ranks_assigned g) (finish_order g) (showing_trick g)
    (last_played_cards g) (pending_tochoo g) (last_trick_suit g)
    (warning_text g) (paused g) (first_move g) (animating g)
    (resolve_after_animation g) (pause_button_text g).

Definition set_deck (v : list Card) (g : Game) : Game :=
  mkGame (state g) (players g) (player_count g) v (discard_pile g)
    (trick_cards g) (leader_index g) (active_index g) (required_suit g)
    (ranks_assigned g) (finish_order g) (showing_trick g)
    (last_played_cards g) (pending_tochoo g) (last_trick_suit g)
    (warning_text g) (paused g) (first_move g) (animating g)
    (resolve_after_animation g) (pause_button_text g).

Definition set_discard_pile (v : list Card) (g : Game) : Game :=
  mkGame (state g) (players g) (player_count g) (deck g) v (trick_cards g)
    (leader_index g) (active_index g) (required_suit g) (ranks_assigned g)
    (finish_order g) (showing_trick g) (last_played_cards g)
    (pending_tochoo g) (last_trick_suit g) (warning_text g) (paused g)
    (first_move g) (animating g) (resolve_after_animation g)
    (pause_button_text g).

Definition set_trick_cards (v : list (nat * Card)) (g : Game) : Game :=
  mkGame (state g) (players g) (player_count g) (deck g) (discard_pile g) v
    (leader_index g) (active_index g) (required_suit g) (ranks_assigned g)
    (finish_order g) (showing_trick g) (last_played_cards g)
    (pending_tochoo g) (last_trick_suit g) (warning_text g) (paused g)
    (first_move g) (animating g) (resolve_after_animation g)
    (pause_button_text g).

Definition set_leader_index (v : nat) (g : Game) : Game :=
  mkGame (state g) (players g) (player_count g) (deck g) (discard_pile g)
    (trick_cards g) v (active_index g) (required_suit g) (ranks_assigned g)
    (finish_order g) (showing_trick g) (last_played_cards g)
    (pending_tochoo g) (last_trick_suit g) (warning_text g) (paused g)
    (first_move g) (animating g) (resolve_after_animation g)
    (pause_button_text g).

Definition set_active_index (v : option nat) (g : Game) : Game :=
  mkGame (state g) (players g) (player_count g) (deck g) (discard_pile g)
    (trick_cards g) (leader_index g) v (required_suit g) (ranks_assigned g)
    (finish_order g) (showing_trick g) (last_played_cards g)
    (pending_tochoo g) (last_trick_suit g) (warning_text g) (paused g)
    (first_move g) (animating g) (resolve_after_animation g)
    (pause_button_text g).

Definition set_required_suit (v : option Suit) (g : Game) : Game :=
  mkGame (state g) (players g) (player_count g) (deck g) (discard_pile g)
    (trick_cards g) (leader_index g) (active_index g) v (ranks_assigned g)
    (finish_order g) (showing_trick g) (last_played_cards g)
    (pending_tochoo g) (last_trick_suit g) (warning_text g) (paused g)
    (first_move g) (animating g) (resolve_after_animation g)
    (pause_button_text g).

Definition set_ranks_assigned (v : nat) (g : Game) : Game :=
  mkGame (state g) (players g) (player_count g) (deck g) (discard_pile g)
    (trick_cards g) (leader_index g) (active_index g) (required_suit g) v
    (finish_order g) (showing_trick g) (last_played_cards g)
    (pending_tochoo g) (last_trick_suit g) (warning_text g) (paused g)
    (first_move g) (animating g) (resolve_after_animation g)
    (pause_button_text g).

Definition set_finish_order (v : list (string * nat)) (g : Game) : Game :=
  mkGame (state g) (players g) (player_count g) (deck g) (discard_pile g)
    (trick_cards g) (leader_index g) (active_index g) (required_suit g)
    (ranks_assigned g) v (showing_trick g) (last_played_cards g)
    (pending_tochoo g) (last_trick_suit g) (warning_text g) (paused g)
    (first_move g) (animating g) (resolve_after_animation g)
    (pause_button_text g).

Definition set_showing_trick (v : bool) (g : Game) : Game :=
  mkGame (state g) (players g) (player_count g) (deck g) (discard_pile g)
    (trick_cards g) (leader_index g) (active_index g) (required_suit g)
    (ranks_assigned g) (finish_order g) v (last_played_cards g)
    (pending_tochoo g) (last_trick_suit g) (warning_text g) (paused g)
    (first_move g) (animating g) (resolve_after_animation g)
    (pause_button_text g).

Definition set_last_played_cards (v : list (nat * Card)) (g : Game) : Game :=
  mkGame (state g) (players g) (player_count g) (deck g) (discard_pile g)
    (trick_cards g) (leader_index g) (active_index g) (required_suit g)
    (ranks_assigned g) (finish_order g) (showing_trick g) v (pending_tochoo g)
    (last_trick_suit g) (warning_text g) (paused g) (first_move g)
    (animating g) (resolve_after_animation g) (pause_button_text g).

Definition set_pending_tochoo (v : bool) (g : Game) : Game :=
  mkGame (state g) (players g) (player_count g) (deck g) (discard_pile g)
    (trick_cards g) (leader_index g) (active_index g) (required_suit g)
    (ranks_assigned g) (finish_order g) (showing_trick g)
    (last_played_cards g) v (last_trick_suit g) (warning_text g) (paused g)
    (first_move g) (animating g) (resolve_after_animation g)
    (pause_button_text g).

Definition set_last_trick_suit (v : option Suit) (g : Game) : Game :=
  mkGame (state g) (players g) (player_count g) (deck g) (discard_pile g)
    (trick_cards g) (leader_index g) (active_index g) (required_suit g)
    (ranks_assigned g) (finish_order g) (showing_trick g)
    (last_played_cards g) (pending_tochoo g) v (warning_text g) (paused g)
    (first_move g) (animating g) (resolve_after_animation g)
    (pause_button_text g).

Definition set_warning_text (v : string) (g : Game) : Game :=
  mkGame (state g) (players g) (player_count g) (deck g) (discard_pile g)
    (trick_cards g) (leader_index g) (active_index g) (required_suit g)
    (ranks_assigned g) (finish_order g) (showing_trick g)
    (last_played_cards g) (pending_tochoo g) (last_trick_suit g) v (paused g)
    (first_move g) (animating g) (resolve_after_animation g)
    (pause_button_text g).

Definition set_paused (v : bool) (g : Game) : Game :=
  mkGame (state g) (players g) (player_count g) (deck g) (discard_pile g)
    (trick_cards g) (leader_index g) (active_index g) (required_suit g)
    (ranks_assigned g) (finish_order g) (showing_trick g)
    (last_played_cards g) (pending_tochoo g) (last_trick_suit g)
    (warning_text g) v (first_move g) (animating g)
    (resolve_after_animation g) (pause_button_text g).

Definition set_first_move (v : bool) (g : Game) : Game :=
  mkGame (state g) (players g) (player_count g) (deck g) (discard_pile g)
    (trick_cards g) (leader_index g) (active_index g) (required_suit g)
    (ranks_assigned g) (finish_order g) (showing_trick g)
    (last_played_cards g) (pending_tochoo g) (last_trick_suit g)
    (warning_text g) (paused g) v (animating g) (resolve_after_animation g)
    (pause_button_text g).

Definition set_animating (v : bool) (g : Game) : Game :=
  mkGame (state g) (players g) (player_count g) (deck g) (discard_pile g)
    (trick_cards g) (leader_index g) (active_index g) (required_suit g)
    (ranks_assigned g) (finish_order g) (showing_trick g)
    (last_played_cards g) (pending_tochoo g) (last_trick_suit g)
    (warning_text g) (paused g) (first_move g) v (resolve_after_animation g)
    (pause_button_text g).

Definition set_resolve_after_animation (v : option bool) (g : Game) : Game :=
  mkGame (state g) (players g) (player_count g) (deck g) (discard_pile g)
    (trick_cards g) (leader_index g) (active_index g) (required_suit g)
    (ranks_assigned g) (finish_order g) (showing_trick g)
    (last_played_cards g) (pending_tochoo g) (last_trick_suit g)
    (warning_text g) (paused g) (first_move g) (animating g) v
    (pause_button_text g).

Definition set_pause_button_text (v : string) (g : Game) : Game :=
  mkGame (state g) (players g) (player_count g) (deck g) (discard_pile g)
    (trick_cards g) (leader_index g) (active_index g) (required_suit g)
    (ranks_assigned g) (finish_order g) (showing_trick g)
    (last_played_cards g) (pending_tochoo g) (last_trick_suit g)
    (warning_text g) (paused g) (first_move g) (animating g)
    (resolve_after_animation g) v.

(** [self.players[i]] *)
Definition seat (g : Game) (i : nat) : result Player :=
  match players g !! i with Some p => Ok p | None => Raise IndexError end.

(** An in-place mutation of the object [self.players[i]]. *)
Definition update_player (i : nat) (f : Player → Player) (g : Game) : Game :=
  set_players (alter f i (players g)) g.

(** ** Pause *)

(** [Game.toggle_pause] *)
Definition toggle_pause (g : Game) : Game :=
  if bool_decide (state g = Play) || bool_decide (state g = ShowingTrick) then
    let g1 := set_paused (negb (paused g)) g in
    let g2 := set_pause_button_text (if paused g1 then "Resume" else "Pause") g1 in
    if paused g2 then set_state Paused g2
    else set_state (if negb (showing_trick g2) then Play else ShowingTrick) g2
  else g.

(** ** Play helpers *)

(** [Game.count_active_players] *)
Definition count_active_players (g : Game) : nat :=
  length (filter (λ p, is_active p = true) (players g)).

(** The [while] loop of [next_active_index]; [fuel] is [n - loop_protect].
    The index stays below [n], so the lookup cannot fail. *)
Fixpoint next_active_loop (ps : list Player) (fuel i : nat) : nat :=
  match fuel with
  | 0 => i
  | S fuel' =>
      match ps !! i with
      | Some p =>
          if is_active p then i
          else next_active_loop ps fuel' ((i + 1) mod length ps)
      | None => i
      end
  end.

(** [Game.next_active_index] *)
Definition next_active_index (g : Game) (current : nat) : option nat :=
  let n := length (players g) in
  if bool_decide (n = 0) then None
  else Some (next_active_loop (players g) n ((current + 1) mod n)).

(** The loop shared by [check_game_end] and [actually_resolve_trick]:
    every player that satisfies [cond] takes the next rank, becomes
    inactive and is appended to the finish order. *)
Fixpoint assign_ranks (cond : Player → bool) (ps : list Player)
    (ra : nat) (fo : list (string * nat)) : list Player * nat * list (string * nat) :=
  match ps with
  | [] => ([], ra, fo)
  | p :: ps' =>
      if cond p then
        match assign_ranks cond ps' (ra + 1) (fo ++ [(name p, ra + 1)]) with
        | (qs, ra', fo') => (set_finished p (ra + 1) :: qs, ra', fo')
        end
      else
        match assign_ranks cond ps' ra fo with
        | (qs, ra', fo') => (p :: qs, ra', fo')
        end
  end.

Definition run_assign_ranks (cond : Player → bool) (g : Game) : Game :=
  match assign_ranks cond (players g) (ranks_assigned g) (finish_order g) with
  | (ps, ra, fo) => set_finish_order fo (set_ranks_assigned ra (set_players ps g))
  end.

(** [p.is_active and p.finished_rank is None] *)
Definition active_unranked (p : Player) : bool :=
  is_active p && bool_decide (finished_rank p = None).

(** [p.is_active and len(p.hand) == 0] *)
Definition active_empty (p : Player) : bool :=
  is_active p && bool_decide (length (hand p) = 0).

(** [Game.check_game_end] *)
Definition check_game_end (g : Game) : Game :=
  if bool_decide (count_active_players g ≤ 1) then
    set_state Finished (run_assign_ranks active_unranked g)
  else g.

(** [Game.resolve_trick]: the trigger of the two-phase resolution. *)
Definition resolve_trick (tochoo_occurred : bool) (g : Game) : Game :=
  match trick_cards g with
  | [] => g
  | _ :: _ =>
      let g1 := set_last_trick_suit (required_suit g) g in
      let g2 := set_showing_trick true g1 in
      let g3 := set_last_played_cards (trick_cards g2) g2 in
      let g4 := set_pending_tochoo tochoo_occurred g3 in
      set_state ShowingTrick g4
  end.

(** [[(pi, card) for (pi, card) in self.trick_cards
      if card.suit == self.required_suit]] *)
Definition suited (g : Game) : list (nat * Card) :=
  filter (λ t, Some (suit t.2) = required_suit g) (trick_cards g).

(** [max(suited, key=lambda t: t[1].value)[0]], or the leader when
    [suited] is empty. *)
Definition trick_winner (g : Game) : nat :=
  match py_max (λ t : nat * Card, value t.2) (suited g) with
  | Some t => t.1
  | None => leader_index g
  end.

(** [p.just_picked_up = False; p.avoid_suit = None] when the flag is set. *)
Definition clear_pickup (p : Player) : Player :=
  if just_picked_up p then set_pickup_flags p false None else p.

Section Engine.

(** [random.shuffle], as the permutation it applies, and [random.randrange]. *)
Variable shuffle : list Card → list Card.
Variable randrange : nat → nat.

(** [Game.actually_resolve_trick]: the commit of the resolution. *)
Definition actually_resolve_trick (tochoo_occurred : option bool) (g : Game)
    : result Game :=
  let tochoo := default (pending_tochoo g) tochoo_occurred in
  g1 ←! (if tochoo then
           let pickup_player := trick_winner g in
           let pickup_cards := shuffle (trick_cards g).*2 in
           p ←! seat g pickup_player;
           let g' := update_player pickup_player (λ p, pick_up p pickup_cards) g in
           let g' := update_player pickup_player
                       (λ p, set_pickup_flags p true (last_trick_suit g')) g' in
           Ok (set_active_index (Some pickup_player)
                 (set_leader_index pickup_player g'))
         else
           let winner := trick_winner g in
           let g' := set_discard_pile (discard_pile g ++ (trick_cards g).*2) g in
           Ok (set_active_index (Some winner) (set_leader_index winner g')));
  let g2 := set_required_suit None (set_trick_cards [] g1) in
  let g3 := run_assign_ranks active_empty g2 in
  let g4 := check_game_end g3 in
  let g5 := set_last_trick_suit None
              (set_pending_tochoo false
                 (set_last_played_cards [] (set_showing_trick false g4))) in
  Ok (if bool_decide (state g5 ≠ Finished) then set_state Play g5 else g5).


(** ** Start / Deal *)

(** [counts[i]]: [len(deck) // player_count], plus one for the first
    [len(deck) - sum(counts)] seats. *)
Definition deal_count (deck_len pc i : nat) : nat :=
  deck_len / pc + (if bool_decide (i < deck_len - (deck_len / pc) * pc) then 1 else 0).

(** The dealing loop of [start_game], from seat [i] and deck position
    [pos]; [counts] has [pc] entries and [deck[pos]] must exist. *)
Fixpoint deal (d : list Card) (pc i pos : nat) (ps : list Player)
    : result (list Player) :=
  match ps with
  | [] => Ok []
  | p :: ps' =>
      if bool_decide (pc ≤ i) then Raise IndexError
      else
        let c := deal_count (length d) pc i in
        if bool_decide (length d < pos + c) then Raise IndexError
        else
          let p' := mkPlayer (name p) (is_human p)
                      (sort_cards (take c (drop pos d))) true None false None in
          qs ←! deal d pc (S i) (pos + c) ps';
          Ok (p' :: qs)
  end.

(** The search for the holder of the Ace of Spades. *)
Definition find_starter (ps : list Player) : option nat :=
  fst <$> list_find (λ p, existsb is_ace_of_spades (hand p) = true) ps.

(** [Game.start_game] *)
Definition start_game (g : Game) : result Game :=
  let d := shuffle full_deck in
  if bool_decide (player_count g = 0) then Raise ZeroDivisionError
  else
    ps ←! deal d (player_count g) 0 0 (players g);
    starter ←! match find_starter ps with
               | Some i => Ok i
               | None => if bool_decide (length ps = 0) then Raise ValueError
                         else Ok (randrange (length ps))
               end;
    Ok (mkGame Play ps (player_count g) d [] [] starter (Some starter) None 0 []
          false (last_played_cards g) false None "" false true false None "Pause").

End Engine.

(** ** Playability *)

(** [Game.is_card_playable] *)
Definition is_card_playable (g : Game) (player_idx : nat) (card_index : Z)
    : result bool :=
  p ←! seat g player_idx;
  if negb (is_active p) then Ok false
  else if bool_decide (required_suit g = None) && first_move g
          && bool_decide (Some player_idx = active_index g) then
    card ←! py_index (hand p) card_index;
    Ok (is_ace_of_spades card)
  else
    match required_suit g with
    | None => Ok true
    | Some s =>
        let has_req := has_suit p s in
        card ←! py_index (hand p) card_index;
        if has_req then Ok (bool_decide (suit card = s)) else Ok true
    end.

(** The loop of [playable_indices_for_player] over the indices [idxs]. *)
Fixpoint playable_among (g : Game) (player_idx : nat) (idxs : list nat)
    : result (list nat) :=
  match idxs with
  | [] => Ok []
  | i :: idxs' =>
      b ←! is_card_playable g player_idx (Z.of_nat i);
      rest ←! playable_among g player_idx idxs';
      Ok (if b then i :: rest else rest)
  end.

(** [Game.playable_indices_for_player] *)
Definition playable_indices_for_player (g : Game) (player_idx : nat)
    : result (list nat) :=
  p ←! seat g player_idx;
  playable_among g player_idx (seq 0 (length (hand p))).

(** ** CPU policy *)

(** The key [lambda i: p.hand[i].value], on an index paired with its card. *)
Definition card_value_at (t : nat * Card) : Z := value t.2.

(** [[i for i, c in enumerate(p.hand) if c.suit != avoid_suit]], each index
    with its card. *)
Definition non_avoid (a : Suit) (h : list Card) : list (nat * Card) :=
  filter (λ t, suit t.2 ≠ a) (enumerate h).

(** [[i for i, c in enumerate(p.hand) if c.suit == self.required_suit]] *)
Definition same_suit_indices (s : Suit) (h : list Card) : list (nat * Card) :=
  filter (λ t, suit t.2 = s) (enumerate h).

(** [p.avoid_suit if p.just_picked_up else None] *)
Definition active_avoid_suit (p : Player) : option Suit :=
  if just_picked_up p then avoid_suit p else None.

(** [Game.cpu_choose_card_index]; [Ok None] is Python's [None]. *)
Definition cpu_choose_card_index (g : Game) (player_idx : nat)
    : result (option nat) :=
  p ←! seat g player_idx;
  match hand p with
  | [] => Ok None
  | _ :: _ =>
      let avoid := active_avoid_suit p in
      match required_suit g with
      | None =>
          let ace :=
            if first_move g && bool_decide (Some player_idx = active_index g)
            then list_find (λ c, is_ace_of_spades c = true) (hand p)
            else None in
          match ace with
          | Some (i, _) => Ok (Some i)
          | None =>
              match avoid ≫= (λ a, py_min card_value_at (non_avoid a (hand p))) with
              | Some t => Ok (Some t.1)
              | None => Ok (fst <$> py_min card_value_at (enumerate (hand p)))
              end
          end
      | Some s =>
          match py_min card_value_at (same_suit_indices s (hand p)) with
          | Some t => Ok (Some t.1)
          | None =>
              match avoid ≫= (λ a, py_max card_value_at (non_avoid a (hand p))) with
              | Some t => Ok (Some t.1)
              | None => Ok (fst <$> py_max card_value_at (enumerate (hand p)))
              end
          end
      end
  end.

(** ** Accepting a play *)

(** The rank assignment of the leading path of [attempt_play_card]. *)
Definition finish_player (player_idx : nat) (p_name : string) (g : Game) : Game :=
  let g1 := set_ranks_assigned (ranks_assigned g + 1) g in
  let g2 := update_player player_idx (λ p, set_finished p (ranks_assigned g1)) g1 in
  let g3 := set_finish_order (finish_order g2 ++ [(p_name, ranks_assigned g1)]) g2 in
  check_game_end g3.

(** The leading path of [attempt_play_card] from the removal of the card
    on; [popped] is the card and the rest of the hand. *)
Definition play_lead (g : Game) (player_idx : nat) (p : Player)
    (popped : Card * list Card) : Game :=
  let played_card := popped.1 in
  let g1 := update_player player_idx (λ p, set_hand p popped.2) g in
  let g2 := set_trick_cards (trick_cards g1 ++ [(player_idx, played_card)]) g1 in
  let g3 := set_animating true g2 in
  let g4 := if first_move g3 then set_first_move false g3 else g3 in
  let g5 := set_required_suit (Some (suit played_card)) g4 in
  let g6 := set_active_index (next_active_index g5 player_idx) g5 in
  let g7 := if bool_decide (length popped.2 = 0)
            then finish_player player_idx (name p) g6 else g6 in
  update_player player_idx clear_pickup g7.

(** The following path of [attempt_play_card] from the removal of the
    card on; [s] is the required suit. *)
Definition play_follow (g : Game) (player_idx : nat) (s : Suit)
    (had_required : bool) (popped : Card * list Card) : Game :=
  let played_card := popped.1 in
  let g1 := update_player player_idx (λ p, set_hand p popped.2) g in
  let g2 := set_trick_cards (trick_cards g1 ++ [(player_idx, played_card)]) g1 in
  let g3 := set_animating true g2 in
  if bool_decide (suit played_card ≠ s) && negb had_required then
    let g4 := update_player player_idx clear_pickup g3 in
    set_resolve_after_animation (Some true) g4
  else
    let g4 := set_active_index (next_active_index g3 player_idx) g3 in
    if bool_decide (active_index g4 = Some (leader_index g4))
       && bool_decide (count_active_players g4 ≤ length (trick_cards g4)) then
      set_resolve_after_animation (Some false) g4
    else
      update_player player_idx clear_pickup g4.

(** [Game.attempt_play_card] *)
Definition attempt_play_card (g : Game) (player_idx : nat) (card_index : Z)
    : result Game :=
  if animating g then Ok g
  else
    p ←! seat g player_idx;
    if bool_decide (Some player_idx ≠ active_index g) then Ok g
    else if negb (is_active p) then Ok g
    else
      let had_required :=
        match required_suit g with Some s => has_suit p s | None => false end in
      card ←! py_index (hand p) card_index;
      match required_suit g with
      | None =>
          if first_move g && bool_decide (Some player_idx = active_index g)
             && negb (is_ace_of_spades card) then
            Ok (set_warning_text "Game must start with Ace of Spades!" g)
          else
            popped ←! py_pop (hand p) card_index;
            Ok (play_lead g player_idx p popped)
      | Some s =>
          if had_required && bool_decide (suit card ≠ s) then
            Ok (set_warning_text "You must follow suit!" g)
          else
            popped ←! py_pop (hand p) card_index;
            Ok (play_follow g player_idx s had_required popped)
      end.

(** ** The frame loop *)

(** The end of the card animation in [draw_play]: the hold is released
    and a queued resolution is triggered. *)
Definition finish_animation (g : Game) : Game :=
  if animating g then
    let g1 := set_animating false g in
    match resolve_after_animation g1 with
    | Some tochoo_bool =>
        resolve_trick tochoo_bool (set_resolve_after_animation None g1)
    | None => g1
    end
  else g.

(** [Game.cpu_auto_play_if_needed], once the thinking delay has elapsed. *)
Definition cpu_auto_play_if_needed (g : Game) : result Game :=
  match active_index g with
  | None => Ok g
  | Some active_idx =>
      if animating g then Ok g
      else
        p ←! seat g active_idx;
        if negb (is_active p) || is_human p then Ok g
        else
          choice ←! cpu_choose_card_index g active_idx;
          match choice with
          | None => Ok g
          | Some idx =>
              ok ←! is_card_playable g active_idx (Z.of_nat idx);
              if ok then attempt_play_card g active_idx (Z.of_nat idx)
              else
                playable ←! playable_indices_for_player g active_idx;
                match playable with
                | [] => Ok g
                | idx' :: _ => attempt_play_card g active_idx (Z.of_nat idx')
                end
          end
  end.

(** [Game.update_play] *)
Definition update_play (g : Game) : result Game :=
  if bool_decide (state g ≠ Play) || paused g then Ok g
  else
    match active_index g with
    | None => Ok g
    | Some a =>
        if animating g then Ok g
        else
          p ←! seat g a;
          if negb (is_human p) then cpu_auto_play_if_needed g else Ok g
    end.

Section Loop.

Variable shuffle : list Card → list Card.

(** One iteration of the loop of [Game.run] without input events, at a
    time when every timer has elapsed (the card animation has finished,
    the CPU's thinking delay and the three seconds of trick display are
    over). *)
Definition frame (g : Game) : result Game :=
  match state g with
  | Play =>
      let g1 := finish_animation g in
      if negb (paused g1) then update_play g1 else Ok g1
  | Paused => Ok (finish_animation g)
  | ShowingTrick =>
      let g1 := finish_animation g in
      if negb (paused g1)
      then actually_resolve_trick shuffle (Some (pending_tochoo g1)) g1
      else Ok g1
  | _ => Ok g
  end.

Fixpoint frames (n : nat) (g : Game) : result Game :=
  match n with
  | 0 => Ok g
  | S n' => g' ←! frame g; frames n' g'
  end.

End Loop.

(** ** Reachable states *)

Section Reachability.

Variable shuffle : list Card → list Card.
Variable randrange : nat → nat.

(** The operations that change a game once it is dealt: a play submitted
    by a click or by the CPU driver, the end of a card animation, the
    commit of a resolution, the pause toggle, and the warning text that
    [handle_play_click] and [draw_play] set and clear. Any argument is
    allowed at any time: the loop of [Game.run] calls them under further
    guards. *)
Inductive step : Game → Game → Prop :=
  | step_play g player_idx card_index g' :
      attempt_play_card g player_idx card_index = Ok g' → step g g'
  | step_animation g : step g (finish_animation g)
  | step_commit g tochoo_occurred g' :
      actually_resolve_trick shuffle tochoo_occurred g = Ok g' → step g g'
  | step_pause g : step g (toggle_pause g)
  | step_warning g w : step g (set_warning_text w g).

(** The states of a game after a deal. *)
Inductive reachable : Game → Prop :=
  | reach_deal g0 g : start_game shuffle randrange g0 = Ok g → reachable g
  | reach_step g g' : reachable g → step g g' → reachable g'.

End Reachability.

(** The part of the state that the rules of the game read and write:
    everything but the feedback text. *)
Definition table_state (g : Game) :=
  (players g, trick_cards g, required_suit g, first_move g, leader_index g,
   active_index g, discard_pile g, ranks_assigned g, finish_order g,
   (state g, paused g, showing_trick g, pending_tochoo g, last_trick_suit g,
    animating g, resolve_after_animation g),
   (player_count g, deck g, last_played_cards g, pause_button_text g)).

(** A play was accepted: the card went from the seat's hand to the trick. *)
Definition accepted (g : Game) (player_idx : nat) (g' : Game) : Prop :=
  ∃ c, trick_cards g' = trick_cards g ++ [(player_idx, c)].

(** The pickup memory of the seats: a seat that carries the flag is the
    leader about to open a trick, and a seat without the flag remembers no
    suit. *)
Definition pickup_memory_inv (g : Game) : Prop :=
  ∀ i p, players g !! i = Some p →
    (just_picked_up p = true →
       leader_index g = i ∧ active_index g = Some i
       ∧ trick_cards g = [] ∧ required_suit g = None)
    ∧ (just_picked_up p = false → avoid_suit p = None).

(** ** Example tables *)

Definition cards (l : list (Rank * Suit)) : list Card :=
  map (λ t, mkCard t.1 t.2) l.

(** A deck order after [random.shuffle] (four seats): the leader goes out on
    a lead that everybody follows. *)
Definition deal_stuck_trick : list Card :=
  cards
    [(R2, Spades); (RJ, Hearts); (R10, Spades); (RA, Spades); (R7,
     Hearts); (R2, Clubs); (R2, Diamonds); (RK, Diamonds); (R8, Hearts);
     (R6, Clubs); (R9, Clubs); (R4, Spades); (R9, Diamonds); (R5,
     Diamonds); (R4, Clubs); (R9, Spades); (R10, Diamonds); (R5, Spades);
     (R10, Hearts); (RJ, Spades); (RQ, Clubs); (R3, Diamonds); (R6,
     Diamonds); (RK, Hearts); (RJ, Diamonds); (R7, Diamonds); (RQ,
     Hearts); (RA, Clubs); (RK, Spades); (RK, Clubs); (R4, Hearts); (R6,
     Hearts); (R3, Clubs); (R5, Clubs); (R7, Spades); (R2, Hearts); (RQ,
     Diamonds); (R3, Hearts); (R7, Clubs); (R6, Spades); (R9, Hearts);
     (R3, Spades); (RA, Diamonds); (RQ, Spades); (RJ, Clubs); (R5,
     Hearts); (R8, Clubs); (R10, Clubs); (R8, Spades); (R8, Diamonds);
     (RA, Hearts); (R4, Diamonds)].

(** A deck order (four seats): the leader goes out on a lead and the next
    seat cannot follow. *)
Definition deal_dead_pickup : list Card :=
  cards
    [(R2, Spades); (R9, Diamonds); (R6, Hearts); (R8, Spades); (R7,
     Hearts); (R6, Clubs); (R2, Clubs); (R3, Diamonds); (RK, Spades);
     (R10, Hearts); (RJ, Diamonds); (R3, Hearts); (R4, Spades); (R9,
     Hearts); (R10, Spades); (R7, Clubs); (R4, Hearts); (RK, Clubs); (R5,
     Diamonds); (R5, Spades); (R6, Spades); (R3, Spades); (R10, Clubs);
     (RQ, Clubs); (R8, Diamonds); (RA, Clubs); (R2, Hearts); (RA, Hearts);
     (R7, Diamonds); (RK, Hearts); (RJ, Hearts); (R4, Diamonds); (RQ,
     Spades); (RA, Diamonds); (R9, Clubs); (R6, Diamonds); (RJ, Clubs);
     (R3, Clubs); (RK, Diamonds); (R5, Clubs); (R4, Clubs); (R9, Spades);
     (R10, Diamonds); (R7, Spades); (RQ, Diamonds); (R8, Hearts); (R2,
     Diamonds); (RJ, Spades); (RQ, Hearts); (R8, Clubs); (RA, Spades);
     (R5, Hearts)].

(** A deck order (three seats): the game ends on a lead. *)
Definition deal_short_game : list Card :=
  cards
    [(R2, Spades); (RA, Clubs); (R10, Spades); (R4, Diamonds); (RQ,
     Spades); (R3, Clubs); (R10, Hearts); (RA, Diamonds); (R3, Hearts);
     (R4, Hearts); (R8, Diamonds); (R5, Hearts); (R9, Spades); (R6,
     Diamonds); (R7, Diamonds); (RJ, Hearts); (RA, Hearts); (RJ, Clubs);
     (R3, Spades); (R6, Hearts); (R4, Spades); (R8, Hearts); (R5, Spades);
     (R10, Diamonds); (RQ, Diamonds); (RJ, Spades); (RQ, Clubs); (R6,
     Spades); (R8, Spades); (RA, Spades); (R8, Clubs); (R7, Clubs); (RK,
     Spades); (R10, Clubs); (RJ, Diamonds); (R5, Clubs); (R9, Clubs); (RK,
     Clubs); (R9, Diamonds); (R2, Diamonds); (RK, Diamonds); (R5,
     Diamonds); (R2, Hearts); (R6, Clubs); (R7, Hearts); (R7, Spades);
     (R4, Clubs); (RQ, Hearts); (RK, Hearts); (R9, Hearts); (R3,
     Diamonds); (R2, Clubs)].

(** A shuffle that puts the full deck in the order [d]. *)
Definition shuffle_to (d : list Card) (l : list Card) : list Card :=
  if decide (l = full_deck) then d else l.

(** The table after the setup screen: [n] seats, all played by the CPU. *)
Definition cpu_table (n : nat) : Game :=
  mkGame Setup
    (map (λ nm, mkPlayer nm false [] true None false None)
         (take n ["P1"; "P2"; "P3"; "P4"; "P5"; "P6"]))
    n [] [] [] 0 (Some 0) None 0 [] false [] false None "" false false false
    None "Pause".

(** A game of [n] CPU seats on the deck order [d], after [k] iterations
    of the loop. *)
Definition cpu_game (d : list Card) (n k : nat) : result Game :=
  g ←! start_game (shuffle_to d) (λ _, 0) (cpu_table n);
  frames (shuffle_to d) k g.

(** A small table in the middle of a trick: [P1] led the three of
    spades, [P2] is to move and holds no spade, [P3] is out. *)
Definition demo_p1 : Player :=
  mkPlayer "P1" true (cards [(R5, Spades); (RA, Spades); (R9, Hearts)])
    true None false None.

Definition demo_p2 : Player :=
  mkPlayer "P2" false (cards [(R7, Hearts); (RK, Diamonds)]) true None false None.

Definition demo_p3 : Player := mkPlayer "P3" false [] false (Some 1) false None.

Definition demo_table : Game :=
  mkGame Play [demo_p1; demo_p2; demo_p3] 3 [] [] [(0, mkCard R3 Spades)] 0
    (Some 1) (Some Spades) 1 [("P3", 1)] false [] false None "" false false
    false None "Pause".

(** The game a computation ends in (the table before the setup if it
    raised). *)
Definition game_of (r : result Game) : Game :=
  match r with Ok g => g | Raise _ => cpu_table 0 end.

(** The table right after a deal to three seats. *)
Definition opening_table : Game := game_of (cpu_game deal_short_game 3 0).

(** [q] is the player [p] after the rank assignments of an operation:
    untouched, or deactivated with a rank while it was active. *)
Definition ranked_from (p q : Player) : Prop :=
  q = p ∨ (is_active p = true ∧ ∃ r, q = set_finished p r).

(** [demo_table] after [P2], who cannot follow, has played the king of
    diamonds. *)
Definition demo_tochoo : Game := game_of (attempt_play_card demo_table 1 1).

(** The three-seat game on [deal_short_game] when it has ended. *)
Definition short_game_end : Game := game_of (cpu_game deal_short_game 3 113).

(** The seats after the first half of a commit: the recipient of a
    tochoo has picked up the played cards, nothing else has changed. *)
Definition after_pickup (shuffle : list Card → list Card) (t : option bool)
    (g : Game) : list Player :=
  if default (pending_tochoo g) t then
    alter (λ p, set_pickup_flags (pick_up p (shuffle (trick_cards g).*2)) true
                  (last_trick_suit g))
      (trick_winner g) (players g)
  else players g.

(** [q] is [p], or [p] with an empty hand deactivated with a rank. *)
Definition ranked_empty (p q : Player) : Prop :=
  q = p ∨ (is_active p = true ∧ hand p = [] ∧ ∃ r, q = set_finished p r).

(** [opening_table] after its leader, seat 1, has led the Ace of Spades. *)
Definition opening_lead : Game := game_of (attempt_play_card opening_table 1 7).

(** The four-seat game on [deal_stuck_trick]: seat 3 has led its last
    card, the ace of diamonds, and seat 0 is to follow with its last card. *)
Definition stuck_before_follow : Game :=
  finish_animation (game_of (cpu_game deal_stuck_trick 4 92)).

(** ... and after seat 0 has followed. *)
Definition stuck_after_follow : Game :=
  game_of (attempt_play_card stuck_before_follow 0 0).

(** The four-seat game on [deal_dead_pickup]: seat 3 is about to lead its
    last card, the jack of spades (seats 0, 1 and 3 are active). *)
Definition pickup_before_lead : Game :=
  game_of (cpu_game deal_dead_pickup 4 84).

(** ... and the same game once the tochoo that followed is committed. *)
Definition pickup_after_commit : Game :=
  game_of (cpu_game deal_dead_pickup 4 88).

(** The four-seat game on [deal_stuck_trick] after seats 0 and 1, the
    two seats still active, have both followed the lead of seat 3. *)
Definition stuck_trick : Game := game_of (cpu_game deal_stuck_trick 4 95).

(** [demo_table] with a spade for [P2], and the table after [P2] has
    followed with it: the trick is complete. *)
Definition demo_follow_table : Game :=
  set_players
    [demo_p1;
     mkPlayer "P2" false (cards [(R4, Spades); (R7, Hearts)]) true None false None;
     demo_p3]
    demo_table.

Definition demo_followed : Game :=
  game_of (attempt_play_card demo_follow_table 1 0).

(** The two halves of [actually_resolve_trick]: the pickup or the
    discard (lines 489-510), and what follows it (lines 512-530). *)
Definition commit_pickup (shuffle : list Card → list Card)
    (tochoo_occurred : option bool) (g : Game) : result Game :=
  if default (pending_tochoo g) tochoo_occurred then
    let pickup_player := trick_winner g in
    let pickup_cards := shuffle (trick_cards g).*2 in
    p ←! seat g pickup_player;
    let g' := update_player pickup_player (λ p, pick_up p pickup_cards) g in
    let g' := update_player pickup_player
                (λ p, set_pickup_flags p true (last_trick_suit g')) g' in
    Ok (set_active_index (Some pickup_player)
          (set_leader_index pickup_player g'))
  else
    let winner := trick_winner g in
    let g' := set_discard_pile (discard_pile g ++ (trick_cards g).*2) g in
    Ok (set_active_index (Some winner) (set_leader_index winner g')).

Definition commit_finish (g1 : Game) : Game :=
  let g2 := set_required_suit None (set_trick_cards [] g1) in
  let g3 := run_assign_ranks active_empty g2 in
  let g4 := check_game_end g3 in
  let g5 := set_last_trick_suit None
              (set_pending_tochoo false
                 (set_last_played_cards [] (set_showing_trick false g4))) in
  if bool_decide (state g5 ≠ Finished) then set_state Play g5 else g5.

(** The order of the sort key of [sort_hand]. *)
Definition key_le (c d : Card) : Prop := key_leb c d = true.

(** Every card on the table: the hands, the trick and the discard pile. *)
Definition all_cards (g : Game) : list Card :=
  mjoin (hand <$> players g) ++ (trick_cards g).*2 ++ discard_pile g.

(** The seats that the state names are seats of the table. *)
Definition seats_valid (g : Game) : Prop :=
  leader_index g < length (players g)
  ∧ (∀ a, active_index g = Some a → a < length (players g))
  ∧ ∀ t, t ∈ trick_cards g → t.1 < length (players g).

(** A table as the setup screen leaves it: as many seats as
    [player_count], and at least one. *)
Definition setup_table (g0 : Game) : Prop :=
  player_count g0 ≠ 0 ∧ length (players g0) = player_count g0.

Section Dealt.

Variable shuffle : list Card → list Card.
Variable randrange : nat → nat.

(** The states of a game dealt on a table of the setup screen. *)
Definition dealt_game (g : Game) : Prop :=
  ∃ g0 g1, setup_table g0 ∧ start_game shuffle randrange g0 = Ok g1
           ∧ rtc (step shuffle) g1 g.

End Dealt.

(** The bookkeeping of the ranks: the finish list carries the ranks 1, 2,
    ... up to [ranks_assigned] in this order; a seat is inactive exactly
    when it has a rank, and then its name and rank are an entry of the
    finish list; every entry of the finish list is the rank of a seat; no
    two seats share a rank. *)
Definition ranks_ok (ps : list Player) (ra : nat) (fo : list (string * nat))
    : Prop :=
  fo.*2 = seq 1 ra
  ∧ (∀ i p, ps !! i = Some p →
       match finished_rank p with
       | None => is_active p = true
       | Some r => is_active p = false ∧ (name p, r) ∈ fo
       end)
  ∧ (∀ e, e ∈ fo →
       ∃ i p, ps !! i = Some p ∧ name p = e.1 ∧ finished_rank p = Some e.2)
  ∧ ∀ i j p q r, ps !! i = Some p → ps !! j = Some q →
       finished_rank p = Some r → finished_rank q = Some r → i = j.

Definition ranks_consistent (g : Game) : Prop :=
  ranks_ok (players g) (ranks_assigned g) (finish_order g).

(** The three-seat game on [deal_short_game] right after its first
    tochoo is committed: seat 1 has picked up the trick, carries the
    pickup flag with spades to avoid, and is to lead. *)
Definition first_pickup : Game := game_of (cpu_game deal_short_game 3 9).

(** ... and after seat 1 has led the six of hearts. *)
Definition first_pickup_lead : Game :=
  game_of (attempt_play_card first_pickup 1 7).

(** [demo_table] with the pickup flag on [P2], who cannot follow, and the
    table after [P2] has played the king of diamonds. *)
Definition demo_flagged_table : Game :=
  update_player 1 (λ p, set_pickup_flags p true (Some Hearts)) demo_table.

Definition demo_flagged_tochoo : Game :=
  game_of (attempt_play_card demo_flagged_table 1 1).

(** A table at the start of a trick: [P1] leads, carrying the pickup
    flag with spades to avoid. *)
Definition demo_lead_p1 : Player := set_pickup_flags demo_p1 true (Some Spades).

Definition demo_lead_table : Game :=
  mkGame Play [demo_lead_p1; demo_p2; demo_p3] 3 [] [] [] 0 (Some 0) None 1
    [("P3", 1)] false [] false None "" false false false None "Pause".

(** ** The setup screen *)

(** [Player(name, is_human)] *)
Definition new_player (nm : string) (h : bool) : Player :=
  mkPlayer nm h [] true None false None.

(** [f"P{i+1}"] *)
Definition seat_name (i : nat) : string :=
  "P" +:+ NilZero.string_of_uint (Nat.to_uint (i + 1)).

(** [Game.set_player_count]; the buttons of the setup screen pass 3 to 6. *)
Definition set_player_count (n : nat) (g : Game) : Game :=
  let new_players :=
    (λ i, default (new_player (seat_name i) true) (players g !! i)) <$> seq 0 n in
  mkGame (state g) new_players n (deck g) (discard_pile g)
    (trick_cards g) (leader_index g) (active_index g) (required_suit g)
    (ranks_assigned g) (finish_order g) (showing_trick g)
    (last_played_cards g) (pending_tochoo g) (last_trick_suit g)
    (warning_text g) (paused g) (first_move g) (animating g)
    (resolve_after_animation g) (pause_button_text g).



(** [Game.restart_to_setup]; [setup_ui_objects] recreates the pause
    button with the text "Pause". *)
Definition restart_to_setup (g : Game) : Game :=
  mkGame Setup [] 4 [] [] [] (leader_index g) (active_index g) None 0 []
    false (last_played_cards g) false None "" false false false None "Pause".

(** The seats that [draw_setup] creates when there are none. *)
Definition populate_seats (g : Game) : Game :=
  match players g with
  | [] => set_players
            ((λ i, new_player (seat_name i) true) <$> seq 0 (player_count g)) g
  | _ :: _ => g
  end.

(** * Properties *)

(** Closed facts about the example tables are settled by evaluation. *)
Ltac by_evaluation :=
  repeat match goal with |- _ ∧ _ => split end; vm_compute; reflexivity.

(** ** Python indexing *)

Lemma py_pos_nat (n i : nat) : i < n → py_pos n (Z.of_nat i) = Some i.
Proof.
  intros Hi. unfold py_pos.
  destruct (Z.leb_spec 0 (Z.of_nat i)); [|lia].
  destruct (Z.ltb_spec (Z.of_nat i) (Z.of_nat n)); [|lia].
  by rewrite Nat2Z.id.
Qed.

Lemma py_pos_out_of_range (n : nat) (i : Z) :
  (i < - Z.of_nat n ∨ Z.of_nat n ≤ i)%Z → py_pos n i = None.
Proof.
  intros Hi. unfold py_pos.
  destruct (Z.leb_spec 0 i).
  - destruct (Z.ltb_spec i (Z.of_nat n)); [lia|done].
  - destruct (Z.leb_spec (- Z.of_nat n) i); [lia|done].
Qed.

Lemma py_pos_negative (n : nat) (i : Z) :
  (- Z.of_nat n ≤ i < 0)%Z → py_pos n i = py_pos n (Z.of_nat n + i).
Proof.
  intros Hi. unfold py_pos.
  destruct (Z.leb_spec 0 i); [lia|].
  destruct (Z.leb_spec (- Z.of_nat n) i); [|lia].
  destruct (Z.leb_spec 0 (Z.of_nat n + i)); [|lia].
  destruct (Z.ltb_spec (Z.of_nat n + i) (Z.of_nat n)); [done|lia].
Qed.

Lemma py_pos_lt (n : nat) (i : Z) (k : nat) : py_pos n i = Some k → k < n.
Proof.
  unfold py_pos. intros H.
  destruct (Z.leb_spec 0 i).
  - destruct (Z.ltb_spec i (Z.of_nat n)); [|done].
    injection H as <-. lia.
  - destruct (Z.leb_spec (- Z.of_nat n) i); [|done].
    injection H as <-. lia.
Qed.

Lemma py_index_nat {A} (l : list A) (i : nat) (x : A) :
  l !! i = Some x → py_index l (Z.of_nat i) = Ok x.
Proof.
  intros H. unfold py_index.
  rewrite py_pos_nat by (by eapply lookup_lt_Some). by rewrite H.
Qed.

Lemma py_index_out_of_range {A} (l : list A) (i : Z) :
  (i < - Z.of_nat (length l) ∨ Z.of_nat (length l) ≤ i)%Z →
  py_index l i = Raise IndexError.
Proof. intros H. unfold py_index. by rewrite py_pos_out_of_range. Qed.

Lemma py_index_negative {A} (l : list A) (i : Z) :
  (- Z.of_nat (length l) ≤ i < 0)%Z →
  py_index l i = py_index l (Z.of_nat (length l) + i).
Proof. intros H. unfold py_index. by rewrite py_pos_negative. Qed.

Lemma py_pop_negative {A} (l : list A) (i : Z) :
  (- Z.of_nat (length l) ≤ i < 0)%Z →
  py_pop l i = py_pop l (Z.of_nat (length l) + i).
Proof. intros H. unfold py_pop. by rewrite py_pos_negative. Qed.

(** [l.pop(i)] returns [l[i]]. *)
Lemma py_pop_index {A} (l : list A) (i : Z) (x : A) (l' : list A) :
  py_pop l i = Ok (x, l') → py_index l i = Ok x.
Proof.
  unfold py_pop, py_index. destruct (py_pos _ _) as [k|]; [|done].
  destruct (l !! k); naive_solver.
Qed.

Lemma py_index_pop {A} (l : list A) (i : Z) (x : A) :
  py_index l i = Ok x →
  ∃ k, l !! k = Some x ∧ py_pop l i = Ok (x, delete k l).
Proof.
  unfold py_pop, py_index. destruct (py_pos _ _) as [k|]; [|done].
  destruct (l !! k) eqn:E; naive_solver.
Qed.

(** ** The legality evaluator *)

Lemma has_suit_true (p : Player) (s : Suit) :
  has_suit p s = true ↔ ∃ d, d ∈ hand p ∧ suit d = s.
Proof.
  unfold has_suit. rewrite existsb_exists. split.
  - intros (d & Hd & E). exists d. split; [by apply list_elem_of_In|].
    by apply bool_decide_eq_true in E.
  - intros (d & Hd & E). exists d. split; [by apply list_elem_of_In|].
    by apply bool_decide_eq_true.
Qed.

Lemma has_suit_false (p : Player) (s : Suit) :
  has_suit p s = false ↔ ∀ d, d ∈ hand p → suit d ≠ s.
Proof.
  rewrite <-not_true_iff_false, has_suit_true. split.
  - intros Hn d Hd E. apply Hn. by exists d.
  - intros Hn (d & Hd & E). by apply (Hn d).
Qed.

Lemma is_ace_of_spades_spec (c : Card) :
  is_ace_of_spades c = bool_decide (c = mkCard RA Spades).
Proof. destruct c as [[] []]; reflexivity. Qed.

Lemma seat_lookup (g : Game) (i : nat) (p : Player) :
  players g !! i = Some p → seat g i = Ok p.
Proof. intros H. unfold seat. by rewrite H. Qed.

(** C1. The contract of [is_card_playable]: an inactive seat has no
    playable index; for an active seat and an index in the hand, with a
    required suit that the seat holds exactly the cards of that suit are
    playable, with a required suit that the seat does not hold every card
    is playable, on the first move with this seat to lead exactly the Ace
    of Spades is playable, and with no required suit otherwise every card
    is playable. *)
Theorem is_card_playable_contract (g : Game) (player_idx : nat) (p : Player) :
  players g !! player_idx = Some p →
  (is_active p = false → ∀ ci, is_card_playable g player_idx ci = Ok false)
  ∧ (is_active p = true → ∀ (i : nat) (c : Card), hand p !! i = Some c →
      (∀ s, required_suit g = Some s → (∃ d, d ∈ hand p ∧ suit d = s) →
         is_card_playable g player_idx (Z.of_nat i) = Ok (bool_decide (suit c = s)))
      ∧ (∀ s, required_suit g = Some s → (∀ d, d ∈ hand p → suit d ≠ s) →
         is_card_playable g player_idx (Z.of_nat i) = Ok true)
      ∧ (required_suit g = None → first_move g = true →
         active_index g = Some player_idx →
         is_card_playable g player_idx (Z.of_nat i)
         = Ok (bool_decide (c = mkCard RA Spades)))
      ∧ (required_suit g = None →
         ¬ (first_move g = true ∧ active_index g = Some player_idx) →
         is_card_playable g player_idx (Z.of_nat i) = Ok true)).
Proof.
  intros Hp. unfold is_card_playable. rewrite (seat_lookup _ _ _ Hp). simpl.
  split.
  - intros -> ci. done.
  - intros -> i c Hc. simpl. rewrite (py_index_nat _ _ _ Hc). simpl.
    repeat split.
    + intros s Hs Hd. rewrite Hs. simpl.
      apply has_suit_true in Hd. by rewrite Hd.
    + intros s Hs Hd. rewrite Hs. simpl.
      apply has_suit_false in Hd. by rewrite Hd.
    + intros -> -> ->. simpl. rewrite bool_decide_eq_true_2 by done.
      by rewrite is_ace_of_spades_spec.
    + intros -> Hn. simpl.
      destruct (first_move g); [|done]. simpl.
      rewrite bool_decide_eq_false_2; [done|]. naive_solver.
Qed.

Lemma is_card_playable_contract_witness :
  players demo_table !! 0 = Some demo_p1
  ∧ is_card_playable demo_table 0 0 = Ok true
  ∧ is_card_playable demo_table 0 2 = Ok false
  ∧ is_card_playable demo_table 1 1 = Ok true
  ∧ is_card_playable demo_table 2 0 = Ok false.
Proof.
  split; [reflexivity|].
  pose proof (is_card_playable_contract demo_table 0 demo_p1 eq_refl) as [_ H1].
  pose proof (is_card_playable_contract demo_table 1 demo_p2 eq_refl) as [_ H2].
  pose proof (is_card_playable_contract demo_table 2 demo_p3 eq_refl) as [H3 _].
  split; [|split; [|split]].
  - refine (proj1 (H1 eq_refl 0 (mkCard R5 Spades) eq_refl) Spades eq_refl _).
    exists (mkCard R5 Spades). split; [|reflexivity]. apply list_elem_of_here.
  - refine (proj1 (H1 eq_refl 2 (mkCard R9 Hearts) eq_refl) Spades eq_refl _).
    exists (mkCard R5 Spades). split; [|reflexivity]. apply list_elem_of_here.
  - refine (proj1 (proj2 (H2 eq_refl 1 (mkCard RK Diamonds) eq_refl)) Spades eq_refl _).
    intros d Hd. apply list_elem_of_In in Hd. simpl in Hd.
    destruct Hd as [<-|[<-|[]]]; discriminate.
  - apply (H3 eq_refl).
Defined.

(** ** Card indices out of range *)

(** C10, as stated, fails: [-1] is outside [0..len(hand)-1], the guards
    pass, and the play is accepted, the last card of the hand is played. *)
Lemma negative_index_is_played :
  animating demo_table = false
  ∧ active_index demo_table = Some 1
  ∧ players demo_table !! 1 = Some demo_p2
  ∧ is_active demo_p2 = true
  ∧ ¬ (0 ≤ -1 < Z.of_nat (length (hand demo_p2)))%Z
  ∧ is_card_playable demo_table 1 (-1) = Ok true
  ∧ ∃ g', attempt_play_card demo_table 1 (-1) = Ok g'
          ∧ trick_cards g' = trick_cards demo_table ++ [(1, mkCard RK Diamonds)]
          ∧ (hand <$> players g' !! 1) = Some [mkCard R7 Hearts].
Proof.
  repeat split; try reflexivity; [lia|].
  eexists. repeat split; vm_compute; reflexivity.
Qed.

(** C10, amended. For an active seat: an index below [-len(hand)] or from
    [len(hand)] on makes [attempt_play_card] raise [IndexError] once the
    hold, turn and activity guards are passed, and makes
    [is_card_playable] raise it whenever it reads the hand (a required
    suit is set, or it is the first move with this seat to lead); on a
    plain lead [is_card_playable] answers true for every index; an index
    from [-len(hand)] to [-1] denotes the card at [len(hand) + index]. *)
Theorem card_index_bounds (g : Game) (player_idx : nat) (p : Player) (ci : Z) :
  players g !! player_idx = Some p →
  is_active p = true →
  ((ci < - Z.of_nat (length (hand p)) ∨ Z.of_nat (length (hand p)) ≤ ci)%Z →
     (animating g = false → active_index g = Some player_idx →
        attempt_play_card g player_idx ci = Raise IndexError)
     ∧ (required_suit g ≠ None
        ∨ (first_move g = true ∧ active_index g = Some player_idx) →
        is_card_playable g player_idx ci = Raise IndexError))
  ∧ (required_suit g = None →
     ¬ (first_move g = true ∧ active_index g = Some player_idx) →
     is_card_playable g player_idx ci = Ok true)
  ∧ ((- Z.of_nat (length (hand p)) ≤ ci < 0)%Z →
     is_card_playable g player_idx ci
     = is_card_playable g player_idx (Z.of_nat (length (hand p)) + ci)
     ∧ attempt_play_card g player_idx ci
       = attempt_play_card g player_idx (Z.of_nat (length (hand p)) + ci)).
Proof.
  intros Hp Ha. unfold is_card_playable, attempt_play_card.
  rewrite (seat_lookup _ _ _ Hp). simpl. rewrite Ha. simpl. repeat split.
  - intros -> ->. rewrite bool_decide_eq_false_2 by naive_solver.
    by rewrite py_index_out_of_range.
  - rewrite py_index_out_of_range by done. simpl.
    intros [Hr|[-> ->]].
    + by destruct (required_suit g).
    + rewrite (bool_decide_eq_true_2 (Some _ = Some _)) by done.
      by destruct (required_suit g).
  - intros -> Hn. simpl. destruct (first_move g); [|done]. simpl.
    rewrite bool_decide_eq_false_2; [done|naive_solver].
  - by rewrite py_index_negative.
  - rewrite py_index_negative, py_pop_negative by done. done.
Qed.

Lemma card_index_bounds_witness :
  players demo_table !! 1 = Some demo_p2
  ∧ is_active demo_p2 = true
  ∧ attempt_play_card demo_table 1 2 = Raise IndexError
  ∧ is_card_playable demo_table 1 (-3) = Raise IndexError
  ∧ attempt_play_card demo_table 1 (-2) = attempt_play_card demo_table 1 0.
Proof.
  split; [reflexivity|]. split; [reflexivity|].
  pose proof (card_index_bounds demo_table 1 demo_p2 2 eq_refl eq_refl) as [H2 _].
  pose proof (card_index_bounds demo_table 1 demo_p2 (-3) eq_refl eq_refl) as [H3 _].
  pose proof (card_index_bounds demo_table 1 demo_p2 (-2) eq_refl eq_refl) as (_ & _ & Hn).
  split; [|split].
  - apply H2; [simpl; lia|reflexivity|reflexivity].
  - apply H3; [simpl; lia|]. left. discriminate.
  - apply Hn. simpl. lia.
Defined.

(** ** Rejected plays *)

(** C6. A play submitted during the animation hold, by a seat that is not
    the seat to move, by an inactive seat, or with a card index that
    [is_card_playable] refuses, returns normally and changes nothing but
    the warning text: hands, trick, required suit, first-move flag,
    leader, seat to move, discard pile, ranks and activity flags stay. *)
Theorem rejection_is_noop (g : Game) (player_idx : nat) (ci : Z) :
  animating g = true
  ∨ (∃ p, players g !! player_idx = Some p
          ∧ (active_index g ≠ Some player_idx
             ∨ is_active p = false
             ∨ is_card_playable g player_idx ci = Ok false)) →
  ∃ g', attempt_play_card g player_idx ci = Ok g'
        ∧ table_state g' = table_state g.
Proof.
  unfold attempt_play_card. intros [Hanim|(p & Hp & Hrej)].
  { rewrite Hanim. by exists g. }
  destruct (animating g); [by exists g|].
  rewrite (seat_lookup _ _ _ Hp). simpl.
  case_bool_decide as Hturn; [by exists g|].
  symmetry in Hturn. rename Hturn into Hact.
  destruct (is_active p) eqn:Ha; [|by exists g]. simpl.
  destruct Hrej as [?|[?|Hrej]]; [done..|].
  unfold is_card_playable in Hrej.
  rewrite (seat_lookup _ _ _ Hp) in Hrej. simpl in Hrej.
  rewrite Ha in Hrej. rewrite Hact in Hrej |- *. simpl in Hrej.
  rewrite (bool_decide_eq_true_2 (Some _ = Some _)) in Hrej |- * by done.
  destruct (required_suit g) as [s|] eqn:Hreq; simpl in *.
  - destruct (py_index (hand p) ci) as [c|] eqn:Hc; [|done]. simpl in *.
    destruct (has_suit p s); [|done]. simpl.
    injection Hrej as Hrej. apply bool_decide_eq_false in Hrej.
    rewrite bool_decide_eq_true_2 by done.
    by eexists.
  - destruct (first_move g) eqn:Hfm; [|done]. simpl in *.
    destruct (py_index (hand p) ci) as [c|] eqn:Hc; [|done]. simpl in *.
    injection Hrej as ->. simpl.
    by eexists.
Qed.

Lemma rejection_is_noop_witness :
  (animating demo_table = true
   ∨ (∃ p, players demo_table !! 0 = Some p
           ∧ (active_index demo_table ≠ Some 0
              ∨ is_active p = false
              ∨ is_card_playable demo_table 0 2 = Ok false)))
  ∧ ∃ g', attempt_play_card demo_table 0 2 = Ok g'
          ∧ table_state g' = table_state demo_table.
Proof.
  assert (animating demo_table = true
   ∨ (∃ p, players demo_table !! 0 = Some p
           ∧ (active_index demo_table ≠ Some 0
              ∨ is_active p = false
              ∨ is_card_playable demo_table 0 2 = Ok false))) as H.
  { right. exists demo_p1. split; [reflexivity|]. left. discriminate. }
  split; [exact H|]. exact (rejection_is_noop demo_table 0 2 H).
Defined.

(** ** Pause *)

Lemma toggle_pause_other_states (g : Game) :
  state g ≠ Play → state g ≠ ShowingTrick → toggle_pause g = g.
Proof.
  intros H1 H2. unfold toggle_pause.
  by rewrite !bool_decide_eq_false_2.
Qed.

Lemma toggle_pause_enters (g : Game) :
  state g = Play ∨ state g = ShowingTrick → paused g = false →
  state (toggle_pause g) = Paused ∧ paused (toggle_pause g) = true
  ∧ showing_trick (toggle_pause g) = showing_trick g
  ∧ pending_tochoo (toggle_pause g) = pending_tochoo g.
Proof.
  intros Hs Hp. unfold toggle_pause.
  assert (bool_decide (state g = Play) || bool_decide (state g = ShowingTrick)
          = true) as ->.
  { destruct Hs as [-> | ->]; reflexivity. }
  simpl. by rewrite Hp.
Qed.

(** C9 on the code: from [play] or [showing_trick] the first
    [toggle_pause] enters [paused]; the second one finds the state
    [paused], which its guard does not admit, and changes nothing: the
    game stays paused and the state before the pause is not restored. *)
Theorem toggle_pause_does_not_resume (g : Game) :
  state g = Play ∨ state g = ShowingTrick → paused g = false →
  state (toggle_pause g) = Paused
  ∧ toggle_pause (toggle_pause g) = toggle_pause g
  ∧ state (toggle_pause (toggle_pause g)) ≠ state g.
Proof.
  intros Hs Hp. destruct (toggle_pause_enters g Hs Hp) as (Hst & _).
  assert (toggle_pause (toggle_pause g) = toggle_pause g) as Heq.
  { apply toggle_pause_other_states; rewrite Hst; discriminate. }
  split; [done|]. split; [done|].
  rewrite Heq, Hst. destruct Hs as [-> | ->]; discriminate.
Qed.

Lemma toggle_pause_does_not_resume_witness :
  (state opening_table = Play ∨ state opening_table = ShowingTrick)
  ∧ paused opening_table = false
  ∧ state (toggle_pause (toggle_pause opening_table)) = Paused.
Proof.
  assert (state opening_table = Play ∨ state opening_table = ShowingTrick) as Hs.
  { left. vm_compute. reflexivity. }
  assert (paused opening_table = false) as Hp.
  { vm_compute. reflexivity. }
  split; [exact Hs|]. split; [exact Hp|].
  destruct (toggle_pause_does_not_resume opening_table Hs Hp) as (H1 & H2 & _).
  rewrite H2. exact H1.
Defined.

(** ** Sorting and extremal elements *)

Lemma insert_card_perm (c : Card) (l : list Card) : insert_card c l ≡ₚ c :: l.
Proof.
  induction l as [|d l IH]; simpl; [done|].
  destruct (key_leb c d); [done|].
  rewrite IH. apply Permutation_swap.
Qed.

Lemma sort_cards_perm (l : list Card) : sort_cards l ≡ₚ l.
Proof.
  induction l as [|c l IH]; simpl; [done|].
  rewrite insert_card_perm. by rewrite IH.
Qed.

Lemma py_max_from_spec {A} (key : A → Z) (best : A) (l : list A) :
  py_max_from key best l ∈ best :: l
  ∧ ∀ y, y ∈ best :: l → (key y ≤ key (py_max_from key best l))%Z.
Proof.
  revert best. induction l as [|x l IH]; intros best; simpl.
  - split; [apply list_elem_of_here|].
    intros y Hy. apply list_elem_of_singleton in Hy as ->. lia.
  - destruct (IH (if (key best <? key x)%Z then x else best)) as [Hin Hmax].
    split.
    + apply elem_of_cons in Hin as [->|Hin].
      * destruct (key best <? key x)%Z; rewrite !elem_of_cons; auto.
      * rewrite !elem_of_cons; auto.
    + intros y Hy.
      assert (key best ≤ key (py_max_from key (if (key best <? key x)%Z then x else best) l)
              ∧ key x ≤ key (py_max_from key (if (key best <? key x)%Z then x else best) l))%Z
        as [Hb Hx].
      { pose proof (Hmax _ (list_elem_of_here _ _)) as H0.
        destruct (Z.ltb_spec (key best) (key x)); lia. }
      apply elem_of_cons in Hy as [->|Hy]; [done|].
      apply elem_of_cons in Hy as [->|Hy]; [done|].
      apply Hmax. by apply list_elem_of_further.
Qed.

Lemma py_min_from_spec {A} (key : A → Z) (best : A) (l : list A) :
  py_min_from key best l ∈ best :: l
  ∧ ∀ y, y ∈ best :: l → (key (py_min_from key best l) ≤ key y)%Z.
Proof.
  revert best. induction l as [|x l IH]; intros best; simpl.
  - split; [apply list_elem_of_here|].
    intros y Hy. apply list_elem_of_singleton in Hy as ->. lia.
  - destruct (IH (if (key x <? key best)%Z then x else best)) as [Hin Hmin].
    split.
    + apply elem_of_cons in Hin as [->|Hin].
      * destruct (key x <? key best)%Z; rewrite !elem_of_cons; auto.
      * rewrite !elem_of_cons; auto.
    + intros y Hy.
      assert (key (py_min_from key (if (key x <? key best)%Z then x else best) l) ≤ key best
              ∧ key (py_min_from key (if (key x <? key best)%Z then x else best) l) ≤ key x)%Z
        as [Hb Hx].
      { pose proof (Hmin _ (list_elem_of_here _ _)) as H0.
        destruct (Z.ltb_spec (key x) (key best)); lia. }
      apply elem_of_cons in Hy as [->|Hy]; [done|].
      apply elem_of_cons in Hy as [->|Hy]; [done|].
      apply Hmin. by apply list_elem_of_further.
Qed.

Lemma py_max_spec {A} (key : A → Z) (l : list A) (x : A) :
  py_max key l = Some x → x ∈ l ∧ ∀ y, y ∈ l → (key y ≤ key x)%Z.
Proof.
  destruct l as [|b l]; simpl; [done|]. intros [= <-]. apply py_max_from_spec.
Qed.

Lemma py_min_spec {A} (key : A → Z) (l : list A) (x : A) :
  py_min key l = Some x → x ∈ l ∧ ∀ y, y ∈ l → (key x ≤ key y)%Z.
Proof.
  destruct l as [|b l]; simpl; [done|]. intros [= <-]. apply py_min_from_spec.
Qed.

Lemma py_max_None {A} (key : A → Z) (l : list A) : py_max key l = None ↔ l = [].
Proof. by destruct l. Qed.

Lemma py_min_None {A} (key : A → Z) (l : list A) : py_min key l = None ↔ l = [].
Proof. by destruct l. Qed.

(** ** Rank assignment *)

Lemma ranked_from_refl (p : Player) : ranked_from p p.
Proof. by left. Qed.

Lemma ranked_from_trans (p q r : Player) :
  ranked_from p q → ranked_from q r → ranked_from p r.
Proof.
  intros [->|(Hp & n & ->)]; [done|].
  intros [->|(Hq & _)]; [|done].
  right. eauto.
Qed.

Lemma ranked_from_hand (p q : Player) : ranked_from p q → hand q = hand p.
Proof. by intros [->|(_ & n & ->)]. Qed.

Lemma ranked_from_name (p q : Player) : ranked_from p q → name q = name p.
Proof. by intros [->|(_ & n & ->)]. Qed.

Lemma ranked_from_flags (p q : Player) :
  ranked_from p q →
  just_picked_up q = just_picked_up p ∧ avoid_suit q = avoid_suit p.
Proof. by intros [->|(_ & n & ->)]. Qed.

Lemma ranked_from_inactive (p q : Player) :
  ranked_from p q → is_active p = false → q = p.
Proof. intros [->|(Hp & _)]; [done|congruence]. Qed.

Lemma ranked_from_active (p q : Player) :
  ranked_from p q → is_active q = true → q = p.
Proof. by intros [->|(_ & n & ->)]. Qed.

Lemma assign_ranks_ranked (cond : Player → bool) (ps : list Player)
    (ra : nat) (fo : list (string * nat)) :
  (∀ p, cond p = true → is_active p = true) →
  Forall2 ranked_from ps (assign_ranks cond ps ra fo).1.1.
Proof.
  intros Hc. revert ra fo. induction ps as [|p ps IH]; intros ra fo; simpl.
  - constructor.
  - destruct (cond p) eqn:E.
    + specialize (IH (ra + 1) (fo ++ [(name p, ra + 1)])).
      destruct (assign_ranks cond ps _ _) as [[qs ra'] fo']. simpl in *.
      constructor; [|done]. right. eauto.
    + specialize (IH ra fo).
      destruct (assign_ranks cond ps _ _) as [[qs ra'] fo']. simpl in *.
      constructor; [by left|done].
Qed.

(** The shape of the game after one of the two rank loops. *)
Lemma run_assign_ranks_shape (cond : Player → bool) (g : Game) :
  (∀ p, cond p = true → is_active p = true) →
  ∃ ps ra fo,
    run_assign_ranks cond g
    = set_finish_order fo (set_ranks_assigned ra (set_players ps g))
    ∧ Forall2 ranked_from (players g) ps.
Proof.
  intros Hc. unfold run_assign_ranks.
  pose proof (assign_ranks_ranked cond (players g) (ranks_assigned g)
                (finish_order g) Hc) as H.
  destruct (assign_ranks _ _ _ _) as [[ps ra] fo]. by exists ps, ra, fo.
Qed.

Lemma active_unranked_active (p : Player) :
  active_unranked p = true → is_active p = true.
Proof. unfold active_unranked. by intros [? _]%andb_true_iff. Qed.

Lemma active_empty_active (p : Player) :
  active_empty p = true → is_active p = true.
Proof. unfold active_empty. by intros [? _]%andb_true_iff. Qed.

Lemma check_game_end_shape (g : Game) :
  check_game_end g = g
  ∨ (count_active_players g ≤ 1
     ∧ ∃ ps ra fo,
         check_game_end g
         = set_state Finished
             (set_finish_order fo (set_ranks_assigned ra (set_players ps g)))
         ∧ Forall2 ranked_from (players g) ps).
Proof.
  unfold check_game_end. case_bool_decide as Hn; [|by left].
  right. split; [done|].
  destruct (run_assign_ranks_shape active_unranked g active_unranked_active)
    as (ps & ra & fo & -> & Hps).
  by exists ps, ra, fo.
Qed.

(** ** Committing a resolution *)

Lemma suited_elem (g : Game) (t : nat * Card) :
  t ∈ suited g ↔ t ∈ trick_cards g ∧ Some (suit t.2) = required_suit g.
Proof. unfold suited. rewrite list_elem_of_filter. tauto. Qed.

(** The seat [trick_winner] names: the first seat whose card has the
    highest value among the played cards of the required suit, or the
    leader when no played card has that suit. *)
Lemma trick_winner_spec (g : Game) :
  (suited g = [] ∧ trick_winner g = leader_index g)
  ∨ (∃ c, (trick_winner g, c) ∈ trick_cards g
          ∧ Some (suit c) = required_suit g
          ∧ ∀ t, t ∈ trick_cards g → Some (suit t.2) = required_suit g →
                 (value t.2 ≤ value c)%Z).
Proof.
  unfold trick_winner.
  destruct (py_max _ (suited g)) as [[r c]|] eqn:E.
  - right. apply py_max_spec in E as [Hin Hmax]. exists c.
    apply suited_elem in Hin as [Hin Hs]. repeat split; [done..|].
    intros t Ht Hts. apply (Hmax t). by apply suited_elem.
  - left. by apply py_max_None in E.
Qed.

Lemma trick_winner_seat (g : Game) :
  (∀ t, t ∈ trick_cards g → t.1 < length (players g)) →
  leader_index g < length (players g) →
  trick_winner g < length (players g).
Proof.
  intros Ht Hl. destruct (trick_winner_spec g) as [[_ ->]|(c & Hin & _)]; [done|].
  apply (Ht _ Hin).
Qed.

Section Commit.

Variable shuffle : list Card → list Card.

(** What a commit leaves of the game, up to the rank assignments that
    end it. *)
Lemma commit_shape (t : option bool) (g : Game) (p : Player) :
  players g !! trick_winner g = Some p →
  let r := trick_winner g in
  let tochoo := default (pending_tochoo g) t in
  let mid :=
    if tochoo
    then <[r := set_pickup_flags (pick_up p (shuffle (trick_cards g).*2)) true
                  (last_trick_suit g)]> (players g)
    else players g in
  ∃ g', actually_resolve_trick shuffle t g = Ok g'
        ∧ leader_index g' = r ∧ active_index g' = Some r
        ∧ trick_cards g' = [] ∧ required_suit g' = None
        ∧ discard_pile g'
          = (if tochoo then discard_pile g
             else discard_pile g ++ (trick_cards g).*2)
        ∧ first_move g' = first_move g
        ∧ Forall2 ranked_from mid (players g')
        ∧ (state g' = Finished ∨ state g' = Play).
Proof.
  intros Hp r tochoo mid. unfold actually_resolve_trick.
  change (default (pending_tochoo g) t) with tochoo.
  set (g1 := if tochoo then _ else _).
  assert (∃ h, g1 = Ok h ∧ players h = mid ∧ leader_index h = r
               ∧ active_index h = Some r
               ∧ discard_pile h = (if tochoo then discard_pile g
                                   else discard_pile g ++ (trick_cards g).*2)
               ∧ first_move h = first_move g) as (h & -> & Hps & Hl & Ha & Hd & Hf).
  { subst g1 mid. destruct tochoo.
    - rewrite (seat_lookup _ _ _ Hp). simpl. eexists. split; [done|].
      simpl. repeat split; try done.
      apply list_eq. intros i.
      destruct (decide (i = r)) as [->|Hne].
      + rewrite !list_lookup_alter_eq.
        rewrite list_lookup_insert_eq by (by eapply lookup_lt_Some).
        subst r. by rewrite Hp.
      + rewrite !list_lookup_alter_ne by done.
        by rewrite list_lookup_insert_ne.
    - eexists. split; [done|]. by simpl. }
  simpl.
  set (g2 := set_required_suit None (set_trick_cards [] h)).
  destruct (run_assign_ranks_shape active_empty g2 active_empty_active)
    as (ps & ra & fo & -> & Hrk).
  set (g3 := set_finish_order fo (set_ranks_assigned ra (set_players ps g2))).
  destruct (check_game_end_shape g3) as [->|(_ & qs & ra' & fo' & -> & Hrk')].
  - eexists. split; [done|].
    case_bool_decide; simpl; rewrite ?Hl, ?Ha, ?Hd, ?Hf, <-?Hps;
      repeat split; auto.
  - eexists. split; [done|]. simpl.
    rewrite Hl, Ha, Hd, Hf, <-Hps. repeat split; auto.
    eapply Forall2_trans; [|exact Hrk|exact Hrk'].
    apply ranked_from_trans.
Qed.

End Commit.

Section TochooCommit.

Variable shuffle : list Card → list Card.
Hypothesis shuffle_perm : ∀ l, shuffle l ≡ₚ l.

(** C2. A resolution triggered with a tochoo and then committed: the
    recipient is a seat that played a card of the required suit of the
    highest value among the played cards of that suit, or the leader when
    no played card has that suit; its hand becomes its old hand plus all
    the played cards, so it grows by the size of the trick; it is the new
    leader and the new seat to move; its [just_picked_up] flag is set and
    its [avoid_suit] is the suit of the trick. *)
Theorem tochoo_commit_outcome (g : Game) (t : option bool) :
  trick_cards g ≠ [] →
  (∀ pc, pc ∈ trick_cards g → pc.1 < length (players g)) →
  leader_index g < length (players g) →
  t = None ∨ t = Some true →
  ∃ g' r p p',
    actually_resolve_trick shuffle t (resolve_trick true g) = Ok g'
    ∧ ((∃ c, (r, c) ∈ trick_cards g
             ∧ Some (suit c) = required_suit g
             ∧ ∀ pc, pc ∈ trick_cards g → Some (suit pc.2) = required_suit g →
                     (value pc.2 ≤ value c)%Z)
       ∨ ((∀ pc, pc ∈ trick_cards g → Some (suit pc.2) ≠ required_suit g)
          ∧ r = leader_index g))
    ∧ players g !! r = Some p
    ∧ players g' !! r = Some p'
    ∧ hand p' ≡ₚ hand p ++ (trick_cards g).*2
    ∧ length (hand p') = length (hand p) + length (trick_cards g)
    ∧ leader_index g' = r
    ∧ active_index g' = Some r
    ∧ just_picked_up p' = true
    ∧ avoid_suit p' = required_suit g.
Proof using shuffle_perm.
  intros Hne Hseats Hleader Ht.
  set (g1 := resolve_trick true g).
  assert (players g1 = players g ∧ trick_cards g1 = trick_cards g
          ∧ required_suit g1 = required_suit g ∧ leader_index g1 = leader_index g
          ∧ pending_tochoo g1 = true ∧ last_trick_suit g1 = required_suit g)
    as (Hps & Htc & Hrs & Hli & Hpt & Hlts).
  { subst g1. unfold resolve_trick.
    destruct (trick_cards g) as [|x xs] eqn:E; [done|]. simpl. by rewrite E. }
  assert (trick_winner g1 = trick_winner g) as Hw.
  { unfold trick_winner, suited. by rewrite Htc, Hrs, Hli. }
  destruct (lookup_lt_is_Some_2 (players g) (trick_winner g)) as [p Hp].
  { by apply trick_winner_seat. }
  destruct (commit_shape shuffle t g1 p) as (g' & Hok & Hl & Ha & _ & _ & _ & _ & Hrk & _).
  { by rewrite Hw, Hps. }
  assert (default (pending_tochoo g1) t = true) as Htochoo.
  { destruct Ht as [-> | ->]; simpl; done. }
  rewrite Htochoo, Hw, Hps, Htc, Hlts in Hrk.
  set (q := set_pickup_flags (pick_up p (shuffle (trick_cards g).*2)) true
              (required_suit g)) in Hrk.
  destruct (Forall2_lookup_l _ _ _ (trick_winner g) q Hrk) as (p' & Hp' & Hqp').
  { apply list_lookup_insert_eq. by eapply lookup_lt_Some. }
  assert (hand p' ≡ₚ hand p ++ (trick_cards g).*2) as Hperm.
  { rewrite (ranked_from_hand _ _ Hqp'). subst q. simpl.
    rewrite sort_cards_perm. by rewrite shuffle_perm. }
  exists g', (trick_winner g), p, p'. split; [done|].
  split.
  { destruct (trick_winner_spec g) as [[Hs Hwl]|Hmax]; [right|by left].
    split; [|done]. intros pc Hpc Hsuit.
    assert (pc ∈ suited g) as Hin by (by apply suited_elem).
    rewrite Hs in Hin. by apply elem_of_nil in Hin. }
  repeat split; try done.
  - rewrite Hperm, length_app, length_fmap. done.
  - by rewrite Hl, Hw.
  - by rewrite Ha, Hw.
  - by rewrite (proj1 (ranked_from_flags _ _ Hqp')).
  - by rewrite (proj2 (ranked_from_flags _ _ Hqp')).
Qed.

End TochooCommit.

Lemma tochoo_commit_outcome_witness :
  (∀ l : list Card, reverse l ≡ₚ l)
  ∧ trick_cards demo_tochoo ≠ []
  ∧ (∀ pc, pc ∈ trick_cards demo_tochoo → pc.1 < length (players demo_tochoo))
  ∧ leader_index demo_tochoo < length (players demo_tochoo)
  ∧ ∃ g' p',
      actually_resolve_trick reverse None (resolve_trick true demo_tochoo) = Ok g'
      ∧ players g' !! 0 = Some p'
      ∧ length (hand p') = 5
      ∧ leader_index g' = 0 ∧ active_index g' = Some 0
      ∧ just_picked_up p' = true ∧ avoid_suit p' = Some Spades.
Proof.
  assert (∀ pc, pc ∈ trick_cards demo_tochoo → pc.1 < length (players demo_tochoo))
    as Hseats.
  { intros pc Hpc. apply list_elem_of_In in Hpc. vm_compute in Hpc.
    destruct Hpc as [<-|[<-|[]]]; vm_compute; lia. }
  assert (leader_index demo_tochoo < length (players demo_tochoo)) as Hl.
  { vm_compute. lia. }
  assert (trick_cards demo_tochoo ≠ []) as Hne.
  { vm_compute. discriminate. }
  split; [apply reverse_Permutation|]. split; [exact Hne|].
  split; [exact Hseats|]. split; [exact Hl|].
  destruct (tochoo_commit_outcome reverse reverse_Permutation demo_tochoo None
              Hne Hseats Hl (or_introl eq_refl))
    as (g' & r & p & p' & Hok & Hr & Hp & Hp' & _ & Hlen & Hli & Hai & Hj & Ha).
  assert (r = 0) as ->.
  { rewrite <-Hli. vm_compute in Hok. injection Hok as <-. reflexivity. }
  vm_compute in Hp. injection Hp as <-.
  exists g', p'. repeat split; assumption.
Defined.

(** ** The CPU policy when following *)

Lemma enumerate_elem {A} (l : list A) (t : nat * A) :
  t ∈ enumerate l ↔ l !! t.1 = Some t.2.
Proof.
  unfold enumerate. rewrite elem_of_lookup_imap. split.
  - by intros (i & x & -> & H).
  - intros H. exists t.1, t.2. by destruct t.
Qed.

Lemma enumerate_nil {A} (l : list A) : enumerate l = [] → l = [].
Proof. by destruct l. Qed.

Lemma same_suit_indices_elem (s : Suit) (h : list Card) (t : nat * Card) :
  t ∈ same_suit_indices s h ↔ h !! t.1 = Some t.2 ∧ suit t.2 = s.
Proof.
  unfold same_suit_indices. rewrite list_elem_of_filter, enumerate_elem. tauto.
Qed.

Lemma non_avoid_elem (a : Suit) (h : list Card) (t : nat * Card) :
  t ∈ non_avoid a h ↔ h !! t.1 = Some t.2 ∧ suit t.2 ≠ a.
Proof.
  unfold non_avoid. rewrite list_elem_of_filter, enumerate_elem. tauto.
Qed.

Lemma same_suit_indices_nil (s : Suit) (h : list Card) :
  same_suit_indices s h = [] → ∀ d, d ∈ h → suit d ≠ s.
Proof.
  intros E d [i Hi]%list_elem_of_lookup Hs.
  assert ((i, d) ∈ same_suit_indices s h) as Hin
    by (by apply same_suit_indices_elem).
  rewrite E in Hin. by apply elem_of_nil in Hin.
Qed.

Lemma non_avoid_nil (a : Suit) (h : list Card) :
  non_avoid a h = [] → ∀ d, d ∈ h → suit d = a.
Proof.
  intros E d [i Hi]%list_elem_of_lookup.
  destruct (decide (suit d = a)) as [|Hs]; [done|].
  assert ((i, d) ∈ non_avoid a h) as Hin by (by apply non_avoid_elem).
  rewrite E in Hin. by apply elem_of_nil in Hin.
Qed.

(** C8. With a required suit set and a non-empty hand,
    [cpu_choose_card_index] returns an index of the hand: of a card of the
    required suit of the lowest value among them when the seat holds the
    suit; otherwise of a card of the highest value among those that are
    not of the active avoid suit when there are such cards, else of a card
    of the highest value of the hand; and [is_card_playable] accepts the
    index for a seat in play, the only seats the policy is asked for
    ([cpu_auto_play_if_needed] returns before the call when the seat is
    not active). *)
Theorem cpu_follow_policy (g : Game) (player_idx : nat) (p : Player) (s : Suit) :
  players g !! player_idx = Some p →
  required_suit g = Some s →
  hand p ≠ [] →
  ∃ i c,
    cpu_choose_card_index g player_idx = Ok (Some i)
    ∧ hand p !! i = Some c
    ∧ ((∃ d, d ∈ hand p ∧ suit d = s) →
       suit c = s ∧ ∀ d, d ∈ hand p → suit d = s → (value c ≤ value d)%Z)
    ∧ ((∀ d, d ∈ hand p → suit d ≠ s) →
       ∀ a, active_avoid_suit p = Some a → (∃ d, d ∈ hand p ∧ suit d ≠ a) →
       suit c ≠ a ∧ ∀ d, d ∈ hand p → suit d ≠ a → (value d ≤ value c)%Z)
    ∧ ((∀ d, d ∈ hand p → suit d ≠ s) →
       (active_avoid_suit p = None
        ∨ ∃ a, active_avoid_suit p = Some a ∧ ∀ d, d ∈ hand p → suit d = a) →
       ∀ d, d ∈ hand p → (value d ≤ value c)%Z)
    ∧ (is_active p = true →
       is_card_playable g player_idx (Z.of_nat i) = Ok true).
Proof.
  intros Hp Hreq Hne.
  assert (∀ i c, hand p !! i = Some c →
            (suit c = s ∨ ∀ d, d ∈ hand p → suit d ≠ s) →
            is_active p = true →
            is_card_playable g player_idx (Z.of_nat i) = Ok true) as Hplay.
  { intros i c Hc Hsuit Ha. unfold is_card_playable.
    rewrite (seat_lookup _ _ _ Hp). simpl. rewrite Ha, Hreq. simpl.
    rewrite (py_index_nat _ _ _ Hc). simpl.
    destruct (has_suit p s) eqn:Hhs; [|done].
    destruct Hsuit as [->|Hnone]; [by rewrite bool_decide_eq_true_2|].
    apply has_suit_true in Hhs as (d & Hd & Hds). by destruct (Hnone d). }
  unfold cpu_choose_card_index. rewrite (seat_lookup _ _ _ Hp). simpl.
  destruct (hand p) as [|c0 h0] eqn:Ehand; [done|].
  rewrite <-Ehand in Hplay |- *. rewrite Hreq.
  destruct (py_min card_value_at (same_suit_indices s (hand p))) as [[i c]|] eqn:Emin.
  { apply py_min_spec in Emin as [Hin Hmin].
    apply same_suit_indices_elem in Hin as [Hc Hs]. simpl in *.
    assert (c ∈ hand p) as Hcin by (apply list_elem_of_lookup; eauto).
    exists i, c. split; [done|]. split; [done|]. split; [|split; [|split]].
    - intros _. split; [done|]. intros d [j Hj]%list_elem_of_lookup Hds.
      apply (Hmin (j, d)). by apply same_suit_indices_elem.
    - intros Hnone. by destruct (Hnone c).
    - intros Hnone. by destruct (Hnone c).
    - intros Ha. by apply (Hplay i c Hc); [left|]. }
  apply py_min_None in Emin.
  pose proof (same_suit_indices_nil _ _ Emin) as Hnone.
  assert (∃ t, py_max card_value_at (enumerate (hand p)) = Some t) as [tall Eall].
  { destruct (py_max card_value_at (enumerate (hand p))) eqn:E; [eauto|].
    apply py_max_None, enumerate_nil in E. by rewrite Ehand in E. }
  assert (∀ t, py_max card_value_at (enumerate (hand p)) = Some t →
               hand p !! t.1 = Some t.2
               ∧ ∀ d, d ∈ hand p → (value d ≤ value t.2)%Z) as Hall.
  { intros t [Hin Hmax]%py_max_spec. apply enumerate_elem in Hin.
    split; [done|]. intros d [j Hj]%list_elem_of_lookup.
    apply (Hmax (j, d)). by apply enumerate_elem. }
  assert ((∃ d, d ∈ hand p ∧ suit d = s) → False) as Hholds.
  { intros (d & Hd & Hds). by destruct (Hnone d). }
  destruct (active_avoid_suit p) as [a|] eqn:Eavoid; simpl.
  - destruct (py_max card_value_at (non_avoid a (hand p))) as [[i c]|] eqn:Emax.
    + apply py_max_spec in Emax as [Hin Hmax].
      apply non_avoid_elem in Hin as [Hc Hs]. simpl in *.
      assert (c ∈ hand p) as Hcin by (apply list_elem_of_lookup; eauto).
      exists i, c. split; [done|]. split; [done|]. split; [|split; [|split]].
      * intros H. by destruct Hholds.
      * intros _ a' [= <-] _. split; [done|].
        intros d [j Hj]%list_elem_of_lookup Hds.
        apply (Hmax (j, d)). by apply non_avoid_elem.
      * intros _ [?|(a' & [= <-] & Hsame)]; [done|].
        destruct Hs. by apply Hsame.
      * intros Ha. by apply (Hplay _ _ Hc); [right|].
    + apply py_max_None in Emax.
      pose proof (non_avoid_nil _ _ Emax) as Hsame.
      rewrite Eall. simpl. destruct (Hall _ Eall) as [Hc Hmax].
      exists tall.1, tall.2. split; [done|]. split; [done|].
      split; [|split; [|split]].
      * intros H. by destruct Hholds.
      * intros _ a' [= <-] (d & Hd & Hds). destruct Hds. by apply Hsame.
      * intros _ _. apply Hmax.
      * intros Ha. by apply (Hplay _ _ Hc); [right|].
  - rewrite Eall. simpl. destruct (Hall _ Eall) as [Hc Hmax].
    exists tall.1, tall.2. split; [done|]. split; [done|].
    split; [|split; [|split]].
    + intros H. by destruct Hholds.
    + by intros _ a'.
    + intros _ _. apply Hmax.
    + intros Ha. by apply (Hplay _ _ Hc); [right|].
Qed.

(** The driver asks the policy only for a seat in play: when the seat to
    move is not active it returns before the call. *)
Lemma cpu_auto_play_skips_inactive (g : Game) (a : nat) (p : Player) :
  active_index g = Some a → players g !! a = Some p → is_active p = false →
  cpu_auto_play_if_needed g = Ok g.
Proof.
  intros Ha Hp Hi. unfold cpu_auto_play_if_needed. rewrite Ha.
  destruct (animating g); [done|]. rewrite (seat_lookup _ _ _ Hp). simpl.
  by rewrite Hi.
Qed.

(** ** The loop only takes steps *)

Lemma cpu_auto_play_if_needed_step (g g' : Game) :
  cpu_auto_play_if_needed g = Ok g' →
  g' = g ∨ ∃ pi ci, attempt_play_card g pi ci = Ok g'.
Proof.
  unfold cpu_auto_play_if_needed.
  destruct (active_index g) as [a|]; [|by intros [= <-]; left].
  destruct (animating g); [by intros [= <-]; left|].
  destruct (seat g a) as [p|]; simpl; [|done].
  destruct (negb (is_active p) || is_human p); [by intros [= <-]; left|].
  destruct (cpu_choose_card_index g a) as [[idx|]|]; simpl;
    [|by intros [= <-]; left|done].
  destruct (is_card_playable g a (Z.of_nat idx)) as [[]|]; simpl; [eauto| |done].
  destruct (playable_indices_for_player g a) as [[|idx' ?]|]; simpl;
    [by intros [= <-]; left|eauto|done].
Qed.

Lemma update_play_step (g g' : Game) :
  update_play g = Ok g' →
  g' = g ∨ ∃ pi ci, attempt_play_card g pi ci = Ok g'.
Proof.
  unfold update_play.
  destruct (bool_decide (state g ≠ Play) || paused g); [by intros [= <-]; left|].
  destruct (active_index g) as [a|]; [|by intros [= <-]; left].
  destruct (animating g); [by intros [= <-]; left|].
  destruct (seat g a) as [p|]; simpl; [|done].
  destruct (negb (is_human p)); [|by intros [= <-]; left].
  apply cpu_auto_play_if_needed_step.
Qed.

Section LoopReachability.

Variable shuffle : list Card → list Card.
Variable randrange : nat → nat.

Lemma frame_reachable (g g' : Game) :
  reachable shuffle randrange g → frame shuffle g = Ok g' →
  reachable shuffle randrange g'.
Proof.
  intros Hg. unfold frame.
  assert (reachable shuffle randrange (finish_animation g)) as Hfa.
  { eapply reach_step; [exact Hg|apply step_animation]. }
  destruct (state g).
  - by intros [= <-].
  - by intros [= <-].
  - destruct (negb (paused (finish_animation g))); [|by intros [= <-]].
    intros [->|(pi & ci & Hplay)]%update_play_step; [done|].
    eapply reach_step; [exact Hfa|]. by eapply step_play.
  - by intros [= <-].
  - by intros [= <-].
  - destruct (negb (paused (finish_animation g))); [|by intros [= <-]].
    intros Hc. eapply reach_step; [exact Hfa|]. by eapply step_commit.
Qed.

Lemma frames_reachable (k : nat) (g g' : Game) :
  reachable shuffle randrange g → frames shuffle k g = Ok g' →
  reachable shuffle randrange g'.
Proof.
  revert g. induction k as [|k IH]; intros g Hg; simpl.
  - by intros [= <-].
  - destruct (frame shuffle g) as [g1|] eqn:E; simpl; [|done].
    apply IH. by eapply frame_reachable.
Qed.

End LoopReachability.

(** Every state of a CPU game is a state of a dealt game. *)
Lemma cpu_game_reachable (d : list Card) (n k : nat) (g : Game) :
  cpu_game d n k = Ok g → reachable (shuffle_to d) (λ _, 0) g.
Proof.
  unfold cpu_game.
  destruct (start_game _ _ _) as [g0|] eqn:E; simpl; [|done].
  apply frames_reachable. by eapply reach_deal.
Qed.

Lemma shuffle_to_perm (d : list Card) :
  d ≡ₚ full_deck → ∀ l, shuffle_to d l ≡ₚ l.
Proof. intros Hd l. unfold shuffle_to. by destruct (decide _) as [->|]. Qed.

Lemma short_game_end_eq : cpu_game deal_short_game 3 113 = Ok short_game_end.
Proof. vm_compute. reflexivity. Qed.

Lemma cpu_follow_policy_witness :
  players demo_table !! 0 = Some demo_p1
  ∧ required_suit demo_table = Some Spades
  ∧ hand demo_p1 ≠ []
  ∧ ∃ i, cpu_choose_card_index demo_table 0 = Ok (Some i)
         ∧ hand demo_p1 !! i = Some (mkCard R5 Spades)
         ∧ is_card_playable demo_table 0 (Z.of_nat i) = Ok true.
Proof.
  split; [reflexivity|]. split; [reflexivity|]. split; [discriminate|].
  destruct (cpu_follow_policy demo_table 0 demo_p1 Spades eq_refl eq_refl)
    as (i & c & Hi & Hc & _ & _ & _ & Hplay); [discriminate|].
  exists i. split; [exact Hi|]. split; [|exact (Hplay eq_refl)].
  vm_compute in Hi. injection Hi as <-. reflexivity.
Defined.

(** ** Accepting a play *)

(** The outcomes of [attempt_play_card]: a rejection, a lead or a follow. *)
Lemma attempt_play_card_cases (g : Game) (player_idx : nat) (ci : Z) (g' : Game) :
  attempt_play_card g player_idx ci = Ok g' →
  (table_state g' = table_state g)
  ∨ (∃ p popped,
       players g !! player_idx = Some p ∧ is_active p = true
       ∧ active_index g = Some player_idx ∧ animating g = false
       ∧ py_pop (hand p) ci = Ok popped
       ∧ ((required_suit g = None
           ∧ (first_move g = true → popped.1 = mkCard RA Spades)
           ∧ g' = play_lead g player_idx p popped)
          ∨ (∃ s, required_suit g = Some s
                  ∧ (has_suit p s = true → suit popped.1 = s)
                  ∧ g' = play_follow g player_idx s (has_suit p s) popped))).
Proof.
  unfold attempt_play_card.
  destruct (animating g) eqn:Hanim; [by intros [= <-]; left|].
  destruct (players g !! player_idx) as [p|] eqn:Hp;
    [rewrite (seat_lookup _ _ _ Hp)|unfold seat; by rewrite Hp].
  simpl. case_bool_decide as Hturn; [by intros [= <-]; left|].
  symmetry in Hturn.
  destruct (is_active p) eqn:Ha; [|by intros [= <-]; left]. simpl.
  destruct (py_index (hand p) ci) as [c|] eqn:Hc; [|done]. simpl.
  destruct (py_index_pop _ _ _ Hc) as (k & Hk & Hpop).
  destruct (required_suit g) as [s|] eqn:Hreq.
  - destruct (has_suit p s && bool_decide (suit c ≠ s)) eqn:Hrej;
      [by intros [= <-]; left|].
    rewrite Hpop. simpl. intros [= <-]. right.
    exists p, (c, delete k (hand p)). repeat split; try done.
    right. exists s. repeat split; try done. simpl. intros Hhs.
    rewrite Hhs in Hrej. simpl in Hrej.
    apply bool_decide_eq_false in Hrej.
    by destruct (decide (suit c = s)).
  - destruct (first_move g && bool_decide (Some player_idx = active_index g)
              && negb (is_ace_of_spades c)) eqn:Hrej;
      [by intros [= <-]; left|].
    rewrite Hpop. simpl. intros [= <-]. right.
    exists p, (c, delete k (hand p)). repeat split; try done.
    left. repeat split; try done. simpl. intros Hfm.
    rewrite Hfm, Hturn, bool_decide_eq_true_2 in Hrej by done.
    simpl in Hrej. apply negb_false_iff in Hrej.
    rewrite is_ace_of_spades_spec in Hrej. by apply bool_decide_eq_true in Hrej.
Qed.

Lemma ranked_from_clear_pickup (p q : Player) :
  ranked_from p q → ranked_from (clear_pickup p) (clear_pickup q).
Proof.
  intros [->|(Hp & n & ->)]; [by left|]. right.
  unfold clear_pickup. simpl. destruct (just_picked_up p); simpl; eauto.
Qed.

Lemma Forall2_ranked_from_alter (f : Player → Player) (i : nat)
    (ps qs : list Player) :
  (∀ p q, ranked_from p q → ranked_from (f p) (f q)) →
  Forall2 ranked_from ps qs →
  Forall2 ranked_from (alter f i ps) (alter f i qs).
Proof.
  intros Hf H. revert i. induction H as [|p q ps qs Hpq H IH]; intros i.
  - constructor.
  - destruct i as [|i]; cbn; constructor; auto.
Qed.

Lemma Forall2_ranked_from_refl (ps : list Player) : Forall2 ranked_from ps ps.
Proof. induction ps; constructor; [apply ranked_from_refl|done]. Qed.

Lemma alter_as_insert {A} (f : A → A) (i : nat) (l : list A) (x : A) :
  l !! i = Some x → alter f i l = <[i := f x]> l.
Proof.
  revert i. induction l as [|y l IH]; intros [|i] H; simplify_eq/=; [done|].
  f_equal. by apply IH.
Qed.

Lemma alter_out_of_range {A} (f : A → A) (i : nat) (l : list A) :
  l !! i = None → alter f i l = l.
Proof.
  intros H. apply list_eq. intros j. rewrite list_lookup_alter.
  case_decide as E; [|done]. subst j. by rewrite H.
Qed.

(** The rank assignment of a seat that led its last card, then the game
    end check: the seat has the next rank, the others are ranked from
    what they were. *)
Lemma finish_player_shape (g : Game) (i : nat) (p : Player) (nm : string) :
  players g !! i = Some p → is_active p = true →
  ∃ ps ra fo,
    Forall2 ranked_from (players g) ps
    ∧ ps !! i = Some (set_finished p (ranks_assigned g + 1))
    ∧ (finish_player i nm g
       = set_finish_order fo (set_ranks_assigned ra (set_players ps g))
       ∨ finish_player i nm g
         = set_state Finished
             (set_finish_order fo (set_ranks_assigned ra (set_players ps g)))).
Proof.
  intros Hp Ha. unfold finish_player.
  set (g3 := set_finish_order _ _).
  assert (players g3 = <[i := set_finished p (ranks_assigned g + 1)]> (players g))
    as Hps3.
  { subst g3. simpl.
    by apply (alter_as_insert (λ q, set_finished q (ranks_assigned g + 1))). }
  assert (Forall2 ranked_from (players g) (players g3)) as Hrk.
  { rewrite Hps3. rewrite <-(list_insert_id (players g) i p) at 1 by done.
    apply Forall2_insert; [apply Forall2_ranked_from_refl|]. right. eauto. }
  assert (players g3 !! i = Some (set_finished p (ranks_assigned g + 1))) as Hi.
  { rewrite Hps3. apply list_lookup_insert_eq. by eapply lookup_lt_Some. }
  destruct (check_game_end_shape g3) as [->|(_ & qs & ra' & fo' & -> & Hrk')].
  - exists (players g3), (ranks_assigned g3), (finish_order g3).
    split; [done|]. split; [done|]. left. by subst g3.
  - exists qs, ra', fo'. split; [|split].
    + eapply Forall2_trans; [|exact Hrk|exact Hrk']. apply ranked_from_trans.
    + destruct (Forall2_lookup_l _ _ _ _ _ Hrk' Hi) as (q & Hq & Hpq).
      rewrite Hq. f_equal. by apply (ranked_from_inactive _ _ Hpq).
    + right. by subst g3.
Qed.

Lemma assign_ranks_order (cond : Player → bool) (ps : list Player)
    (ra : nat) (fo : list (string * nat)) :
  ∃ new,
    (assign_ranks cond ps ra fo).2 = fo ++ new
    ∧ ra ≤ (assign_ranks cond ps ra fo).1.2
    ∧ ∀ e, e ∈ new → ra < e.2.
Proof.
  revert ra fo. induction ps as [|p ps IH]; intros ra fo; simpl.
  - exists []. rewrite app_nil_r. split; [done|]. split; [done|].
    intros e He. by apply elem_of_nil in He.
  - destruct (cond p).
    + destruct (IH (ra + 1) (fo ++ [(name p, ra + 1)])) as (new & Hfo & Hra & Hnew).
      destruct (assign_ranks cond ps _ _) as [[qs ra'] fo']. simpl in *.
      exists ((name p, ra + 1) :: new). split; [by rewrite Hfo, <-app_assoc|].
      split; [lia|]. intros e [->|He]%elem_of_cons; simpl; [lia|].
      specialize (Hnew e He). lia.
    + destruct (IH ra fo) as (new & Hfo & Hra & Hnew).
      destruct (assign_ranks cond ps _ _) as [[qs ra'] fo']. simpl in *.
      by exists new.
Qed.

Lemma check_game_end_order (g : Game) :
  ∃ new,
    finish_order (check_game_end g) = finish_order g ++ new
    ∧ ranks_assigned g ≤ ranks_assigned (check_game_end g)
    ∧ ∀ e, e ∈ new → ranks_assigned g < e.2.
Proof.
  unfold check_game_end. case_bool_decide.
  - unfold run_assign_ranks.
    destruct (assign_ranks_order active_unranked (players g) (ranks_assigned g)
                (finish_order g)) as (new & Hfo & Hra & Hnew).
    destruct (assign_ranks _ _ _ _) as [[qs ra'] fo']. simpl in *. by exists new.
  - exists []. rewrite app_nil_r. split; [done|]. split; [done|].
    intros e He. by apply elem_of_nil in He.
Qed.

Lemma check_game_end_state (g : Game) :
  state (check_game_end g)
  = if bool_decide (count_active_players g ≤ 1) then Finished else state g.
Proof.
  unfold check_game_end. case_bool_decide; [|done].
  unfold run_assign_ranks. by destruct (assign_ranks _ _ _ _) as [[qs ra'] fo'].
Qed.

Lemma count_active_insert (ps : list Player) (i : nat) (p q : Player) :
  ps !! i = Some p →
  length (filter (λ p, is_active p = true) (<[i := q]> ps))
  + (if is_active p then 1 else 0)
  = length (filter (λ p, is_active p = true) ps)
    + (if is_active q then 1 else 0).
Proof.
  revert i. induction ps as [|x ps IH]; intros [|i] H; simplify_eq/=.
  - rewrite !filter_cons.
    destruct (is_active p) eqn:Ep, (is_active q) eqn:Eq;
      repeat case_decide; simpl; try congruence; lia.
  - rewrite !filter_cons. specialize (IH i H).
    case_decide; simpl; lia.
Qed.

Lemma finish_player_order (g : Game) (i : nat) (nm : string) :
  ∃ rest,
    finish_order (finish_player i nm g)
    = finish_order g ++ (nm, ranks_assigned g + 1) :: rest
    ∧ ranks_assigned g + 1 ≤ ranks_assigned (finish_player i nm g)
    ∧ ∀ e, e ∈ rest → ranks_assigned g + 1 < e.2.
Proof.
  unfold finish_player. set (g3 := set_finish_order _ _).
  destruct (check_game_end_order g3) as (rest & Hfo & Hra & Hrest).
  exists rest. rewrite Hfo. subst g3. simpl in *.
  split; [by rewrite <-app_assoc|]. done.
Qed.

Lemma finish_player_state (g : Game) (i : nat) (p : Player) (nm : string) :
  players g !! i = Some p → is_active p = true →
  state (finish_player i nm g)
  = if bool_decide (count_active_players g ≤ 2) then Finished else state g.
Proof.
  intros Hp Ha. unfold finish_player. rewrite check_game_end_state.
  unfold count_active_players. simpl.
  rewrite (alter_as_insert _ _ _ _ Hp).
  pose proof (count_active_insert (players g) i p
                (set_finished p (ranks_assigned g + 1)) Hp) as Hc.
  rewrite Ha in Hc. simpl in Hc.
  repeat case_bool_decide; try done; lia.
Qed.

Lemma update_player_players (i : nat) (f : Player → Player) (g : Game) (p : Player) :
  players g !! i = Some p →
  players (update_player i f g) = <[i := f p]> (players g).
Proof. intros Hp. unfold update_player. simpl. by apply alter_as_insert. Qed.

Lemma count_active_set_hand (g : Game) (i : nat) (h : list Card) :
  count_active_players (update_player i (λ p, set_hand p h) g)
  = count_active_players g.
Proof.
  unfold count_active_players, update_player. simpl.
  destruct (players g !! i) as [p|] eqn:Hp.
  - rewrite (alter_as_insert _ _ _ _ Hp).
    pose proof (count_active_insert (players g) i p (set_hand p h) Hp) as Hc.
    simpl in Hc. lia.
  - by rewrite alter_out_of_range.
Qed.

(** The game after an accepted lead. *)
Lemma play_lead_shape (g : Game) (i : nat) (p : Player) (popped : Card * list Card) :
  players g !! i = Some p → is_active p = true →
  let g' := play_lead g i p popped in
  trick_cards g' = trick_cards g ++ [(i, popped.1)]
  ∧ required_suit g' = Some (suit popped.1)
  ∧ first_move g' = false
  ∧ leader_index g' = leader_index g
  ∧ discard_pile g' = discard_pile g
  ∧ resolve_after_animation g' = resolve_after_animation g
  ∧ Forall2 ranked_from (<[i := clear_pickup (set_hand p popped.2)]> (players g))
      (players g')
  ∧ (popped.2 ≠ [] →
     players g' = <[i := clear_pickup (set_hand p popped.2)]> (players g)
     ∧ ranks_assigned g' = ranks_assigned g
     ∧ finish_order g' = finish_order g
     ∧ state g' = state g)
  ∧ (popped.2 = [] →
     players g' !! i
     = Some (set_finished (clear_pickup (set_hand p [])) (ranks_assigned g + 1))
     ∧ (∃ rest,
          finish_order g' = finish_order g ++ (name p, ranks_assigned g + 1) :: rest
          ∧ ∀ e, e ∈ rest → ranks_assigned g + 1 < e.2)
     ∧ ranks_assigned g + 1 ≤ ranks_assigned g'
     ∧ state g'
       = if bool_decide (count_active_players g ≤ 2) then Finished else state g).
Proof.
  intros Hp Ha g'. subst g'. unfold play_lead.
  set (g1 := update_player i (λ p0, set_hand p0 popped.2) g).
  set (g2 := set_trick_cards _ g1). set (g3 := set_animating true g2).
  set (g4 := if first_move g3 then _ else _).
  set (g5 := set_required_suit _ g4). set (g6 := set_active_index _ g5).
  assert (players g1 = <[i := set_hand p popped.2]> (players g)) as Hps1
    by exact (update_player_players i (λ q, set_hand q popped.2) g p Hp).
  assert (players g4 = players g1 ∧ trick_cards g4 = trick_cards g ++ [(i, popped.1)]
          ∧ first_move g4 = false
          ∧ leader_index g4 = leader_index g ∧ discard_pile g4 = discard_pile g
          ∧ resolve_after_animation g4 = resolve_after_animation g
          ∧ ranks_assigned g4 = ranks_assigned g ∧ finish_order g4 = finish_order g
          ∧ state g4 = state g)
    as (Hps4 & Htc4 & Hfm4 & Hli4 & Hdp4 & Hraa4 & Hra4 & Hfo4 & Hst4).
  { subst g4. destruct (first_move g3) eqn:E; [done|]. by rewrite E. }
  assert (players g6 = players g1 ∧ trick_cards g6 = trick_cards g ++ [(i, popped.1)]
          ∧ required_suit g6 = Some (suit popped.1) ∧ first_move g6 = false
          ∧ leader_index g6 = leader_index g ∧ discard_pile g6 = discard_pile g
          ∧ resolve_after_animation g6 = resolve_after_animation g
          ∧ ranks_assigned g6 = ranks_assigned g ∧ finish_order g6 = finish_order g
          ∧ state g6 = state g)
    as (Hps6 & Htc & Hrs & Hfm & Hli & Hdp & Hraa & Hra & Hfo & Hst).
  { done. }
  assert (count_active_players g6 = count_active_players g) as Hcnt.
  { transitivity (count_active_players g1); [|apply count_active_set_hand].
    unfold count_active_players. by rewrite Hps6. }
  assert (players g6 !! i = Some (set_hand p popped.2)) as Hi6.
  { rewrite Hps6, Hps1. apply list_lookup_insert_eq. by eapply lookup_lt_Some. }
  assert (<[i := clear_pickup (set_hand p popped.2)]> (players g)
          = alter clear_pickup i (players g6)) as Hmid.
  { rewrite (alter_as_insert _ _ _ _ Hi6), Hps6, Hps1.
    by rewrite list_insert_insert_eq. }
  case_bool_decide as Hlen.
  - apply length_zero_iff_nil in Hlen.
    destruct (finish_player_shape g6 i (set_hand p popped.2) (name p) Hi6 Ha)
      as (ps & ra & fo & Hrk & Hpsi & Hfp).
    destruct (finish_player_order g6 i (name p)) as (rest & Hfo' & Hra' & Hrest).
    pose proof (finish_player_state g6 i _ (name p) Hi6 Ha) as Hst'.
    rewrite Hra, Hfo in *. rewrite Hst, Hcnt in Hst'.
    assert (players (finish_player i (name p) g6) = ps) as Hpsf
      by (by destruct Hfp as [-> | ->]).
    assert (players (update_player i clear_pickup (finish_player i (name p) g6))
            = alter clear_pickup i ps) as Hfin.
    { unfold update_player. simpl. by rewrite Hpsf. }
    split; [by destruct Hfp as [-> | ->]|].
    split; [by destruct Hfp as [-> | ->]|].
    split; [by destruct Hfp as [-> | ->]|].
    split; [by destruct Hfp as [-> | ->]|].
    split; [by destruct Hfp as [-> | ->]|].
    split; [by destruct Hfp as [-> | ->]|].
    split; [|split; [done|]].
    + rewrite Hfin, Hmid.
      apply Forall2_ranked_from_alter; [apply ranked_from_clear_pickup|done].
    + intros _. rewrite Hfin. split; [|split; [|split]].
      * rewrite list_lookup_alter_eq, Hpsi. simpl. rewrite Hlen.
        unfold clear_pickup. simpl. by destruct (just_picked_up p).
      * exists rest. split; [exact Hfo'|exact Hrest].
      * exact Hra'.
      * exact Hst'.
  - assert (popped.2 ≠ []) as Hne.
    { intros E. apply Hlen. by rewrite E. }
    assert (players (update_player i clear_pickup g6)
            = <[i := clear_pickup (set_hand p popped.2)]> (players g)) as Hfin.
    { by rewrite Hmid. }
    repeat split; try done.
    rewrite Hfin. apply Forall2_ranked_from_refl.
Qed.

(** The game after an accepted follow: no rank is assigned, and the
    resolution that is queued. *)
Lemma play_follow_shape (g : Game) (i : nat) (p : Player) (s : Suit)
    (had : bool) (popped : Card * list Card) :
  players g !! i = Some p →
  let g' := play_follow g i s had popped in
  let g1 := update_player i (λ p, set_hand p popped.2) g in
  trick_cards g' = trick_cards g ++ [(i, popped.1)]
  ∧ required_suit g' = required_suit g
  ∧ first_move g' = first_move g
  ∧ leader_index g' = leader_index g
  ∧ discard_pile g' = discard_pile g
  ∧ ranks_assigned g' = ranks_assigned g
  ∧ finish_order g' = finish_order g
  ∧ state g' = state g
  ∧ (players g' = <[i := clear_pickup (set_hand p popped.2)]> (players g)
     ∨ (players g' = <[i := set_hand p popped.2]> (players g)
        ∧ resolve_after_animation g' = Some false))
  ∧ resolve_after_animation g'
    = (if bool_decide (suit popped.1 ≠ s) && negb had then Some true
       else if bool_decide (next_active_index g1 i = Some (leader_index g))
               && bool_decide (count_active_players g
                               ≤ length (trick_cards g ++ [(i, popped.1)]))
            then Some false
            else resolve_after_animation g)
  ∧ active_index g'
    = (if bool_decide (suit popped.1 ≠ s) && negb had then active_index g
       else next_active_index g1 i).
Proof.
  intros Hp g' g1. subst g'. unfold play_follow. fold g1.
  assert (players g1 = <[i := set_hand p popped.2]> (players g)) as Hps1
    by exact (update_player_players i (λ q, set_hand q popped.2) g p Hp).
  assert (players g1 !! i = Some (set_hand p popped.2)) as Hi1.
  { rewrite Hps1. apply list_lookup_insert_eq. by eapply lookup_lt_Some. }
  assert (alter clear_pickup i (players g1)
          = <[i := clear_pickup (set_hand p popped.2)]> (players g)) as Hclr.
  { rewrite (alter_as_insert _ _ _ _ Hi1), Hps1. by rewrite list_insert_insert_eq. }
  assert (count_active_players g1 = count_active_players g) as Hcnt
    by apply count_active_set_hand.
  destruct (bool_decide (suit popped.1 ≠ s) && negb had).
  - repeat split; try done. left. exact Hclr.
  - set (g3 := set_animating true _).
    assert (next_active_index g3 i = next_active_index g1 i) as Hnext by done.
    set (g4 := set_active_index (next_active_index g3 i) g3).
    assert (count_active_players g4 = count_active_players g) as Hcnt'
      by (by rewrite <-Hcnt).
    assert (active_index g4 = next_active_index g1 i) as Ha4 by done.
    assert (leader_index g4 = leader_index g) as Hl4 by done.
    assert (trick_cards g4 = trick_cards g ++ [(i, popped.1)]) as Ht4 by done.
    rewrite Hcnt', Ha4, Hl4, Ht4.
    destruct (bool_decide (next_active_index g1 i = Some (leader_index g))
              && bool_decide (count_active_players g
                              ≤ length (trick_cards g ++ [(i, popped.1)]))) eqn:E.
    + repeat split; try done. right. split; [exact Hps1|done].
    + repeat split; try done. left. exact Hclr.
Qed.

Lemma check_game_end_cases (g : Game) :
  check_game_end g = g ∨ state (check_game_end g) = Finished.
Proof.
  rewrite check_game_end_state. unfold check_game_end.
  case_bool_decide; [by right|by left].
Qed.

(** Unless the game ends, an accepted lead changes the seat that played
    and no other. *)
Lemma play_lead_others (g : Game) (i : nat) (p : Player) (popped : Card * list Card) :
  players g !! i = Some p →
  let g' := play_lead g i p popped in
  state g' = Finished
  ∨ ∃ q, players g' = <[i := q]> (players g) ∧ hand q = popped.2
         ∧ (popped.2 ≠ [] → is_active q = is_active p).
Proof.
  intros Hp g'. subst g'. unfold play_lead.
  set (g1 := update_player i (λ p0, set_hand p0 popped.2) g).
  set (g2 := set_trick_cards _ g1). set (g3 := set_animating true g2).
  set (g4 := if first_move g3 then _ else _).
  set (g5 := set_required_suit _ g4). set (g6 := set_active_index _ g5).
  assert (players g1 = <[i := set_hand p popped.2]> (players g)) as Hps1
    by exact (update_player_players i (λ q, set_hand q popped.2) g p Hp).
  assert (players g6 = players g1) as Hps6.
  { subst g6 g5 g4. by destruct (first_move g3). }
  assert (players g6 !! i = Some (set_hand p popped.2)) as Hi6.
  { rewrite Hps6, Hps1. apply list_lookup_insert_eq. by eapply lookup_lt_Some. }
  case_bool_decide as Hlen.
  - unfold finish_player. set (h := set_finish_order _ _).
    destruct (check_game_end_cases h) as [->|Hfin]; [|by left].
    right. subst h.
    change (∃ q, alter clear_pickup i
                   (alter (λ p0, set_finished p0 (ranks_assigned g6 + 1)) i
                      (players g6))
                 = <[i := q]> (players g) ∧ hand q = popped.2
                 ∧ (popped.2 ≠ [] → is_active q = is_active p)).
    set (q := set_finished (set_hand p popped.2) (ranks_assigned g6 + 1)).
    assert (alter (λ p0, set_finished p0 (ranks_assigned g6 + 1)) i (players g6)
            = <[i := q]> (players g6)) as ->
      by exact (alter_as_insert _ _ _ _ Hi6).
    rewrite (alter_as_insert clear_pickup i _ q)
      by (apply list_lookup_insert_eq; by eapply lookup_lt_Some).
    rewrite Hps6, Hps1, !list_insert_insert_eq.
    eexists. split; [done|]. split.
    + unfold clear_pickup. simpl. by destruct (just_picked_up p).
    + intros Hne. destruct Hne. by apply length_zero_iff_nil.
  - right.
    change (∃ q, alter clear_pickup i (players g6)
                 = <[i := q]> (players g) ∧ hand q = popped.2
                 ∧ (popped.2 ≠ [] → is_active q = is_active p)).
    rewrite (alter_as_insert _ _ _ _ Hi6), Hps6, Hps1, list_insert_insert_eq.
    eexists. split; [done|].
    unfold clear_pickup. simpl. by destruct (just_picked_up p).
Qed.

Lemma assign_ranks_ranked_empty (ps : list Player) (ra : nat)
    (fo : list (string * nat)) :
  Forall2 ranked_empty ps (assign_ranks active_empty ps ra fo).1.1.
Proof.
  revert ra fo. induction ps as [|p ps IH]; intros ra fo; simpl.
  - constructor.
  - destruct (active_empty p) eqn:E.
    + specialize (IH (ra + 1) (fo ++ [(name p, ra + 1)])).
      destruct (assign_ranks active_empty ps _ _) as [[qs ra'] fo']. simpl in *.
      constructor; [|done]. right.
      unfold active_empty in E. apply andb_true_iff in E as [Ha He].
      apply bool_decide_eq_true, length_zero_iff_nil in He. eauto.
    + specialize (IH ra fo).
      destruct (assign_ranks active_empty ps _ _) as [[qs ra'] fo']. simpl in *.
      constructor; [by left|done].
Qed.

Lemma ranked_empty_ranked_from (p q : Player) : ranked_empty p q → ranked_from p q.
Proof. intros [->|(Ha & _ & Hr)]; [by left|by right]. Qed.

Section CommitCases.

Variable shuffle : list Card → list Card.

(** Every commit that returns: the winner of the trick leads and moves
    next, the trick and the required suit are cleared, and past the pickup
    the seats only change by rank assignment, of seats with an empty hand
    unless the game ends. *)
Lemma commit_cases (t : option bool) (g g' : Game) :
  actually_resolve_trick shuffle t g = Ok g' →
  leader_index g' = trick_winner g
  ∧ active_index g' = Some (trick_winner g)
  ∧ trick_cards g' = [] ∧ required_suit g' = None
  ∧ first_move g' = first_move g
  ∧ Forall2 ranked_from (after_pickup shuffle t g) (players g')
  ∧ (state g' = Finished
     ∨ (state g' = Play
        ∧ Forall2 ranked_empty (after_pickup shuffle t g) (players g')))
  ∧ (default (pending_tochoo g) t = true →
     is_Some (players g !! trick_winner g)).
Proof.
  unfold actually_resolve_trick, after_pickup.
  set (tochoo := default (pending_tochoo g) t). set (r := trick_winner g).
  set (g1 := if tochoo then _ else _).
  set (mid := if tochoo then _ else players g).
  assert (g1 = Raise IndexError
          ∨ ∃ h, g1 = Ok h ∧ players h = mid ∧ leader_index h = r
                 ∧ active_index h = Some r ∧ first_move h = first_move g
                 ∧ (tochoo = true → is_Some (players g !! r)))
    as [->|(h & -> & Hps & Hl & Ha & Hf & Hsome)]; [|done|].
  { subst g1 mid. destruct tochoo.
    - unfold seat. destruct (players g !! r) as [p|] eqn:Hp; [|by left].
      right. simpl. eexists. split; [done|]. repeat split; try done.
      apply list_eq. intros j. unfold update_player. simpl.
      destruct (decide (j = r)) as [->|Hne].
      + rewrite !list_lookup_alter_eq. by rewrite Hp.
      + by rewrite !list_lookup_alter_ne.
    - right. eexists. split; [done|]. repeat split; try done. }
  simpl.
  set (g2 := set_required_suit None (set_trick_cards [] h)).
  pose proof (assign_ranks_ranked_empty (players g2) (ranks_assigned g2)
                (finish_order g2)) as Hre.
  unfold run_assign_ranks.
  destruct (assign_ranks active_empty (players g2) _ _) as [[ps ra] fo].
  simpl in Hre.
  set (g3 := set_finish_order fo (set_ranks_assigned ra (set_players ps g2))).
  assert (Forall2 ranked_from mid ps) as Hrk.
  { rewrite <-Hps. eapply Forall2_impl; [exact Hre|].
    apply ranked_empty_ranked_from. }
  destruct (check_game_end_shape g3) as [->|(_ & qs & ra' & fo' & -> & Hrk')].
  - intros [= <-].
    assert (state g3 = state h) as Hst by done.
    case_bool_decide as Hfin; simpl; rewrite ?Hl, ?Ha, ?Hf;
      repeat split; try done.
    + right. split; [done|]. by rewrite <-Hps.
    + left. rewrite <-Hst. destruct (decide (state g3 = Finished)); [done|].
      by destruct Hfin.
  - intros [= <-]. simpl. rewrite Hl, Ha, Hf. repeat split; try done.
    + eapply Forall2_trans; [|exact Hrk|exact Hrk']. apply ranked_from_trans.
    + by left.
Qed.

End CommitCases.

(** ** Steps *)

Lemma resolve_trick_table (b : bool) (g : Game) :
  players (resolve_trick b g) = players g
  ∧ trick_cards (resolve_trick b g) = trick_cards g
  ∧ required_suit (resolve_trick b g) = required_suit g
  ∧ leader_index (resolve_trick b g) = leader_index g
  ∧ active_index (resolve_trick b g) = active_index g.
Proof.
  unfold resolve_trick. destruct (trick_cards g) eqn:E; simpl; by rewrite ?E.
Qed.

Lemma finish_animation_table (g : Game) :
  players (finish_animation g) = players g
  ∧ trick_cards (finish_animation g) = trick_cards g
  ∧ required_suit (finish_animation g) = required_suit g
  ∧ leader_index (finish_animation g) = leader_index g
  ∧ active_index (finish_animation g) = active_index g.
Proof.
  unfold finish_animation. destruct (animating g); [|done].
  simpl. destruct (resolve_after_animation g) as [b|]; [|done].
  destruct (resolve_trick_table b
              (set_resolve_after_animation None (set_animating false g)))
    as (-> & -> & -> & -> & ->).
  done.
Qed.

Lemma toggle_pause_table (g : Game) :
  players (toggle_pause g) = players g
  ∧ trick_cards (toggle_pause g) = trick_cards g
  ∧ required_suit (toggle_pause g) = required_suit g
  ∧ leader_index (toggle_pause g) = leader_index g
  ∧ active_index (toggle_pause g) = active_index g.
Proof.
  unfold toggle_pause. destruct (_ || _); [|done].
  simpl. by destruct (negb (paused g)).
Qed.

Lemma table_state_fields (g g' : Game) :
  table_state g' = table_state g →
  players g' = players g
  ∧ trick_cards g' = trick_cards g
  ∧ required_suit g' = required_suit g
  ∧ leader_index g' = leader_index g
  ∧ active_index g' = active_index g.
Proof. unfold table_state. intros [= -> -> -> _ -> ->]. done. Qed.

Lemma trick_winner_no_trick (g : Game) :
  trick_cards g = [] → trick_winner g = leader_index g.
Proof. intros H. unfold trick_winner, suited. by rewrite H. Qed.

Lemma accepted_not_rejected (g g' : Game) (i : nat) :
  accepted g i g' → table_state g' ≠ table_state g.
Proof.
  intros [c Hc] (_ & Ht & _)%table_state_fields.
  rewrite Ht in Hc. apply (f_equal length) in Hc.
  rewrite length_app in Hc. simpl in Hc. lia.
Qed.

Section Steps.

Variable shuffle : list Card → list Card.

(** No step reactivates a seat. *)
Lemma step_keeps_inactive (g g' : Game) (i : nat) (p : Player) :
  step shuffle g g' →
  players g !! i = Some p → is_active p = false →
  ∃ p', players g' !! i = Some p' ∧ is_active p' = false.
Proof.
  intros Hstep Hp Ha.
  assert (∀ mid, Forall2 ranked_from mid (players g') →
                 (∃ q, mid !! i = Some q ∧ is_active q = false) →
                 ∃ p', players g' !! i = Some p' ∧ is_active p' = false) as Hvia.
  { intros mid Hrk (q & Hq & Hqa).
    destruct (Forall2_lookup_l _ _ _ _ _ Hrk Hq) as (p' & Hp' & Hqp').
    exists p'. split; [done|]. by rewrite (ranked_from_inactive _ _ Hqp' Hqa). }
  destruct Hstep as [g pi ci g' Hplay|g|g t g' Hcommit|g|g w].
  - destruct (attempt_play_card_cases _ _ _ _ Hplay)
      as [(Hps & _)%table_state_fields
         |(q & popped & Hq & Hqa & _ & _ & _ & [(_ & _ & ->)|(s & _ & _ & ->)])].
    + rewrite Hps. eauto.
    + destruct (play_lead_shape g pi q popped Hq Hqa)
        as (_ & _ & _ & _ & _ & _ & Hrk & _).
      apply (Hvia _ Hrk). exists p. split; [|done].
      rewrite list_lookup_insert_ne; [done|]. intros ->. congruence.
    + destruct (play_follow_shape g pi q s (has_suit q s) popped Hq)
        as (_ & _ & _ & _ & _ & _ & _ & _ & [-> | [-> _]] & _);
        (exists p; split; [|done]);
        (rewrite list_lookup_insert_ne; [done|]; intros ->; congruence).
  - destruct (finish_animation_table g) as (-> & _). eauto.
  - destruct (commit_cases shuffle _ _ _ Hcommit) as (_ & _ & _ & _ & _ & Hrk & _).
    apply (Hvia _ Hrk). unfold after_pickup.
    destruct (default (pending_tochoo g) t); [|eauto].
    destruct (decide (i = trick_winner g)) as [->|Hne].
    + rewrite list_lookup_alter_eq, Hp. simpl. eauto.
    + rewrite list_lookup_alter_ne by done. eauto.
  - destruct (toggle_pause_table g) as (-> & _). eauto.
  - eauto.
Qed.

(** The pickup memory invariant is kept by every step. *)
Lemma step_pickup_memory_inv (g g' : Game) :
  pickup_memory_inv g → step shuffle g g' → pickup_memory_inv g'.
Proof.
  intros Hinv Hstep.
  assert (∀ h, players h = players g → trick_cards h = trick_cards g →
               required_suit h = required_suit g →
               leader_index h = leader_index g →
               active_index h = active_index g → pickup_memory_inv h) as Hsame.
  { intros h Hps Htc Hrs Hli Hai j q Hq.
    rewrite Hps in Hq. rewrite Htc, Hrs, Hli, Hai. by apply Hinv. }
  assert (∀ mid, Forall2 ranked_from mid (players g') →
                 (∀ j q, mid !! j = Some q →
                         just_picked_up q = false ∧ avoid_suit q = None) →
                 pickup_memory_inv g') as Hclear.
  { intros mid Hrk Hmid j p' Hp'.
    destruct (Forall2_lookup_r _ _ _ _ _ Hrk Hp') as (q & Hq & Hqp').
    destruct (ranked_from_flags _ _ Hqp') as [-> ->].
    destruct (Hmid _ _ Hq) as [-> ->]. done. }
  destruct Hstep as [g pi ci g' Hplay|g|g t g' Hcommit|g|g w].
  - destruct (attempt_play_card_cases _ _ _ _ Hplay)
      as [(? & ? & ? & ? & ?)%table_state_fields
         |(q & popped & Hq & Hqa & Hact & _ & _
           & [(Hreq & _ & ->)|(s & Hreq & _ & ->)])].
    + by apply Hsame.
    + destruct (play_lead_shape g pi q popped Hq Hqa)
        as (_ & _ & _ & _ & _ & _ & Hrk & _).
      apply (Hclear _ Hrk). intros j q' Hq'.
      destruct (decide (j = pi)) as [->|Hne].
      * rewrite list_lookup_insert_eq in Hq' by (by eapply lookup_lt_Some).
        injection Hq' as <-. unfold clear_pickup. simpl.
        destruct (just_picked_up q) eqn:Hj; simpl; [done|].
        split; [done|]. by apply (Hinv _ _ Hq).
      * rewrite list_lookup_insert_ne in Hq' by done.
        destruct (Hinv _ _ Hq') as [Hset Hunset].
        destruct (just_picked_up q') eqn:Hj; [|by split; [|apply Hunset]].
        destruct (Hset eq_refl) as (_ & Hai & _). rewrite Hact in Hai.
        by injection Hai as ->.
    + assert (∀ j q', players g !! j = Some q' →
                just_picked_up q' = false ∧ avoid_suit q' = None) as Hnone.
      { intros j q' Hq'. destruct (Hinv _ _ Hq') as [Hset Hunset].
        destruct (just_picked_up q') eqn:Hj; [|by split; [|apply Hunset]].
        destruct (Hset eq_refl) as (_ & _ & _ & Hrs). congruence. }
      apply (Hclear (players (play_follow g pi s (has_suit q s) popped)));
        [apply Forall2_ranked_from_refl|].
      destruct (Hnone _ _ Hq) as [Hqj Hqs].
      destruct (play_follow_shape g pi q s (has_suit q s) popped Hq)
        as (_ & _ & _ & _ & _ & _ & _ & _ & [-> | [-> _]] & _);
        intros j q' Hq';
        (destruct (decide (j = pi)) as [->|Hne];
         [rewrite list_lookup_insert_eq in Hq' by (by eapply lookup_lt_Some);
          injection Hq' as <-; unfold clear_pickup; simpl; rewrite ?Hqj; by simpl
         |rewrite list_lookup_insert_ne in Hq' by done; by eapply Hnone]).
  - destruct (finish_animation_table g) as (? & ? & ? & ? & ?). by apply Hsame.
  - destruct (commit_cases shuffle _ _ _ Hcommit)
      as (Hli & Hai & Htc & Hrs & _ & Hrk & _ & _).
    intros j p' Hp'.
    destruct (Forall2_lookup_r _ _ _ _ _ Hrk Hp') as (q & Hq & Hqp').
    destruct (ranked_from_flags _ _ Hqp') as [-> ->].
    rewrite Hli, Hai, Htc, Hrs.
    assert (∀ q0, players g !! j = Some q0 → j ≠ trick_winner g →
                  just_picked_up q0 = false ∧ avoid_suit q0 = None) as Hother.
    { intros q0 Hq0 Hne. destruct (Hinv _ _ Hq0) as [Hset Hunset].
      destruct (just_picked_up q0) eqn:Hj; [|by split; [|apply Hunset]].
      destruct (Hset eq_refl) as (Hl & _ & Ht & _).
      destruct Hne. rewrite trick_winner_no_trick by done. done. }
    unfold after_pickup in Hq.
    destruct (decide (j = trick_winner g)) as [->|Hne].
    + split; [done|].
      destruct (default (pending_tochoo g) t).
      * rewrite list_lookup_alter_eq in Hq.
        destruct (players g !! trick_winner g); simplify_eq/=. done.
      * by apply (Hinv _ _ Hq).
    + assert (players g !! j = Some q) as Hq0.
      { destruct (default (pending_tochoo g) t); [|done].
        by rewrite list_lookup_alter_ne in Hq. }
      destruct (Hother _ Hq0 Hne) as [-> ->]. done.
  - destruct (toggle_pause_table g) as (? & ? & ? & ? & ?). by apply Hsame.
  - by apply Hsame.
Qed.

End Steps.

(** ** Deals *)

Lemma deal_fresh (d : list Card) (pc i pos : nat) (ps qs : list Player) :
  deal d pc i pos ps = Ok qs →
  Forall (λ q, is_active q = true ∧ finished_rank q = None
               ∧ just_picked_up q = false ∧ avoid_suit q = None) qs
  ∧ length qs = length ps.
Proof.
  revert i pos qs. induction ps as [|p ps IH]; intros i pos qs; simpl.
  - intros [= <-]. by split.
  - case_bool_decide; [done|]. case_bool_decide; [done|].
    destruct (deal d pc (S i) _ ps) as [qs'|] eqn:E; simpl; [|done].
    intros [= <-]. destruct (IH _ _ _ E) as [Hall Hlen].
    split; [by constructor|]. simpl. by rewrite Hlen.
Qed.

Section Reachable.

Variable shuffle : list Card → list Card.
Variable randrange : nat → nat.

(** What every fresh deal looks like. *)
Lemma start_game_fresh (g0 g : Game) :
  start_game shuffle randrange g0 = Ok g →
  state g = Play ∧ first_move g = true ∧ required_suit g = None
  ∧ trick_cards g = [] ∧ discard_pile g = [] ∧ ranks_assigned g = 0
  ∧ finish_order g = [] ∧ animating g = false ∧ paused g = false
  ∧ active_index g = Some (leader_index g)
  ∧ length (players g) = length (players g0)
  ∧ Forall (λ q, is_active q = true ∧ finished_rank q = None
                 ∧ just_picked_up q = false ∧ avoid_suit q = None) (players g).
Proof.
  unfold start_game. case_bool_decide; [done|].
  destruct (deal _ _ 0 0 (players g0)) as [ps|] eqn:E; simpl; [|done].
  destruct (deal_fresh _ _ _ _ _ _ E) as [Hall Hlen].
  destruct (find_starter ps) as [s|]; simpl.
  - intros [= <-]. simpl. repeat split; done.
  - case_bool_decide; simpl; [done|]. intros [= <-]. simpl. repeat split; done.
Qed.

Lemma reachable_pickup_memory_inv (g : Game) :
  reachable shuffle randrange g → pickup_memory_inv g.
Proof.
  induction 1 as [g0 g Hdeal|g g' _ IH Hstep].
  - destruct (start_game_fresh _ _ Hdeal)
      as (_ & _ & _ & _ & _ & _ & _ & _ & _ & _ & _ & Hall).
    intros i p Hp.
    destruct (proj1 (Forall_lookup _ _) Hall _ _ Hp) as (_ & _ & -> & ->).
    done.
  - by eapply step_pickup_memory_inv.
Qed.

Lemma clear_pickup_flags (p : Player) (h : list Card) :
  just_picked_up (clear_pickup (set_hand p h)) = false
  ∧ avoid_suit (clear_pickup (set_hand p h))
    = if just_picked_up p then None else avoid_suit p.
Proof.
  unfold clear_pickup. simpl.
  destruct (just_picked_up p) eqn:E; simpl; by rewrite ?E.
Qed.

(** The seat that follows, after [play_follow]: its hand has lost the
    card and its pickup memory is cleared, except when the play completes
    the trick, where the function returns before clearing. *)
Lemma play_follow_seat (g : Game) (i : nat) (p : Player) (s : Suit)
    (had : bool) (popped : Card * list Card) :
  players g !! i = Some p →
  let g' := play_follow g i s had popped in
  trick_cards g' = trick_cards g ++ [(i, popped.1)]
  ∧ players g' !! i
    = Some (if negb (bool_decide (suit popped.1 ≠ s) && negb had)
               && bool_decide (active_index g' = Some (leader_index g))
               && bool_decide (count_active_players g ≤ length (trick_cards g'))
            then set_hand p popped.2
            else clear_pickup (set_hand p popped.2)).
Proof.
  intros Hp g'.
  destruct (play_follow_shape g i p s had popped Hp)
    as (Htr & _ & _ & _ & _ & _ & _ & _ & _ & _ & Hai).
  fold g' in Htr, Hai. split; [exact Htr|]. rewrite Htr, Hai.
  subst g'. unfold play_follow.
  set (g1 := update_player i (λ p, set_hand p popped.2) g).
  assert (players g1 = <[i := set_hand p popped.2]> (players g)) as Hps1
    by exact (update_player_players i (λ q, set_hand q popped.2) g p Hp).
  assert (i < length (players g)) as Hi by (by eapply lookup_lt_Some).
  assert (players g1 !! i = Some (set_hand p popped.2)) as Hi1.
  { rewrite Hps1. by apply list_lookup_insert_eq. }
  assert (alter clear_pickup i (players g1) !! i
          = Some (clear_pickup (set_hand p popped.2))) as Hclr.
  { by rewrite list_lookup_alter_eq, Hi1. }
  assert (count_active_players g1 = count_active_players g) as Hcnt
    by apply count_active_set_hand.
  destruct (bool_decide (suit popped.1 ≠ s) && negb had).
  - exact Hclr.
  - set (g3 := set_animating true _).
    assert (next_active_index g3 i = next_active_index g1 i) as Hnext by done.
    set (g4 := set_active_index (next_active_index g3 i) g3).
    assert (count_active_players g4 = count_active_players g) as Hcnt'
      by (by rewrite <-Hcnt).
    assert (active_index g4 = next_active_index g1 i) as Ha4 by done.
    assert (leader_index g4 = leader_index g) as Hl4 by done.
    assert (trick_cards g4 = trick_cards g ++ [(i, popped.1)]) as Ht4 by done.
    rewrite Hcnt', Ha4, Hl4, Ht4. cbn [negb andb].
    destruct (bool_decide (next_active_index g1 i = Some (leader_index g))
              && bool_decide (count_active_players g
                              ≤ length (trick_cards g ++ [(i, popped.1)]))).
    + exact Hi1.
    + exact Hclr.
Qed.

(** C7. After an accepted play the seat that played has its
    [just_picked_up] flag off and remembers no suit to avoid. In any
    state, the code clears the memory on a lead, on a forced off-suit
    play and on a follow that does not complete the trick: the flag is
    turned off and, if it was on, the suit is forgotten. A follow that
    completes the trick returns before the clearing code; in a dealt game
    a follower never carries the flag (the seat that picks up leads
    next), so there the memory is clear after every accepted play. *)
Theorem pickup_memory_cleared (g g' : Game) (player_idx : nat) (ci : Z) :
  attempt_play_card g player_idx ci = Ok g' →
  accepted g player_idx g' →
  ∃ p c p',
    players g !! player_idx = Some p ∧ py_index (hand p) ci = Ok c
    ∧ players g' !! player_idx = Some p'
    ∧ (required_suit g = None
       ∨ (∃ s, required_suit g = Some s ∧ suit c ≠ s)
       ∨ ¬ (active_index g' = Some (leader_index g)
            ∧ count_active_players g ≤ length (trick_cards g')) →
       just_picked_up p' = false
       ∧ avoid_suit p' = if just_picked_up p then None else avoid_suit p)
    ∧ (reachable shuffle randrange g →
       just_picked_up p' = false ∧ avoid_suit p' = None).
Proof.
  intros Hplay Hacc.
  destruct (attempt_play_card_cases _ _ _ _ Hplay)
    as [Hrej|(q & [c rest] & Hq & Hqa & Hact & _ & Hpop
              & [(Hreq & _ & ->)|(s & Hreq & Hsuit & ->)])].
  { by destruct (accepted_not_rejected _ _ _ Hacc). }
  - destruct (play_lead_shape g player_idx q (c, rest) Hq Hqa)
      as (_ & _ & _ & _ & _ & _ & Hrk & _).
    destruct (Forall2_lookup_l _ _ _ player_idx
                (clear_pickup (set_hand q rest)) Hrk) as (p' & Hp' & Hqp').
    { apply list_lookup_insert_eq. by eapply lookup_lt_Some. }
    exists q, c, p'. split; [done|]. split; [by eapply py_pop_index|].
    split; [done|].
    destruct (ranked_from_flags _ _ Hqp') as [-> ->].
    destruct (clear_pickup_flags q rest) as [-> ->]. split; [done|].
    intros Hreach.
    pose proof (reachable_pickup_memory_inv g Hreach) as Hinv.
    split; [done|]. destruct (just_picked_up q) eqn:Hj; [done|].
    by apply (Hinv _ _ Hq).
  - destruct (play_follow_seat g player_idx q s (has_suit q s) (c, rest) Hq)
      as [Htr Hp'].
    cbn [fst snd] in Htr, Hp'.
    eexists q, c, _. split; [done|]. split; [by eapply py_pop_index|].
    split; [exact Hp'|]. split.
    + intros Hclear.
      assert (negb (bool_decide (suit c ≠ s) && negb (has_suit q s))
              && bool_decide (active_index
                                (play_follow g player_idx s (has_suit q s) (c, rest))
                              = Some (leader_index g))
              && bool_decide (count_active_players g
                              ≤ length (trick_cards
                                          (play_follow g player_idx s
                                             (has_suit q s) (c, rest))))
              = false) as ->.
      { destruct Hclear as [Hnone|[(s' & Hs' & Hoff)|Hnot]].
        - congruence.
        - assert (s' = s) as -> by congruence.
          destruct (has_suit q s); [by destruct Hoff; apply Hsuit|].
          by rewrite (bool_decide_eq_true_2 _ Hoff).
        - destruct (negb _); [|done]. cbn [andb].
          apply andb_false_iff.
          destruct (bool_decide (active_index _ = _)) eqn:E1; [|by left].
          right. apply bool_decide_eq_false. intros Hle.
          apply Hnot. split; [|done]. by apply bool_decide_eq_true in E1. }
      apply clear_pickup_flags.
    + intros Hreach.
      pose proof (reachable_pickup_memory_inv g Hreach) as Hinv.
      destruct (Hinv _ _ Hq) as [Hset Hunset].
      assert (just_picked_up q = false) as Hj.
      { destruct (just_picked_up q); [|done].
        destruct (Hset eq_refl) as (_ & _ & _ & Hrs). congruence. }
      specialize (Hunset Hj).
      destruct (_ && _); [by split|].
      destruct (clear_pickup_flags q rest) as [-> ->]. by rewrite Hj.
Qed.

End Reachable.

Lemma opening_table_eq : cpu_game deal_short_game 3 0 = Ok opening_table.
Proof. vm_compute. reflexivity. Qed.

Lemma first_pickup_eq : cpu_game deal_short_game 3 9 = Ok first_pickup.
Proof. vm_compute. reflexivity. Qed.

Lemma pickup_memory_cleared_witness :
  (reachable (shuffle_to deal_short_game) (λ _, 0) first_pickup
   ∧ (just_picked_up <$> players first_pickup !! 1) = Some true
   ∧ (avoid_suit <$> players first_pickup !! 1) = Some (Some Spades)
   ∧ attempt_play_card first_pickup 1 7 = Ok first_pickup_lead
   ∧ accepted first_pickup 1 first_pickup_lead
   ∧ ∃ p', players first_pickup_lead !! 1 = Some p'
           ∧ just_picked_up p' = false ∧ avoid_suit p' = None)
  ∧ (just_picked_up <$> players demo_flagged_table !! 1) = Some true
  ∧ required_suit demo_flagged_table = Some Spades
  ∧ attempt_play_card demo_flagged_table 1 1 = Ok demo_flagged_tochoo
  ∧ accepted demo_flagged_table 1 demo_flagged_tochoo
  ∧ ∃ p', players demo_flagged_tochoo !! 1 = Some p'
          ∧ just_picked_up p' = false ∧ avoid_suit p' = None.
Proof.
  split.
  - assert (reachable (shuffle_to deal_short_game) (λ _, 0) first_pickup) as Hr.
    { apply (cpu_game_reachable _ 3 9), first_pickup_eq. }
    assert (attempt_play_card first_pickup 1 7 = Ok first_pickup_lead) as Hp.
    { vm_compute. reflexivity. }
    assert (accepted first_pickup 1 first_pickup_lead) as Ha.
    { exists (mkCard R6 Hearts). vm_compute. reflexivity. }
    split; [exact Hr|]. split; [vm_compute; reflexivity|].
    split; [vm_compute; reflexivity|]. split; [exact Hp|]. split; [exact Ha|].
    destruct (pickup_memory_cleared (shuffle_to deal_short_game) (λ _, 0)
                _ _ _ 7 Hp Ha) as (p & c & p' & _ & _ & Hp' & _ & Hreach).
    exists p'. split; [exact Hp'|]. exact (Hreach Hr).
  - assert (attempt_play_card demo_flagged_table 1 1 = Ok demo_flagged_tochoo)
      as Hp by reflexivity.
    assert (accepted demo_flagged_table 1 demo_flagged_tochoo) as Ha.
    { exists (mkCard RK Diamonds). reflexivity. }
    split; [reflexivity|]. split; [reflexivity|]. split; [exact Hp|].
    split; [exact Ha|].
    destruct (pickup_memory_cleared (shuffle_to deal_short_game) (λ _, 0)
                _ _ _ 1 Hp Ha) as (p & c & p' & Hp0 & Hc & Hp' & Hfun & _).
    vm_compute in Hp0. injection Hp0 as <-.
    vm_compute in Hc. injection Hc as <-.
    exists p'. split; [exact Hp'|].
    apply Hfun. right. left. exists Spades. split; [reflexivity|discriminate].
Defined.

(** ** Emptying a hand *)

Lemma py_pop_length {A} (l : list A) (i : Z) (popped : A * list A) :
  py_pop l i = Ok popped → length l = S (length popped.2).
Proof.
  unfold py_pop. destruct (py_pos _ _) as [k|]; [|done].
  destruct (l !! k) eqn:E; [|done]. intros [= <-]. simpl.
  rewrite length_delete by eauto. apply lookup_lt_Some in E. lia.
Qed.

(** A play of an inactive seat changes nothing on the table. *)
Lemma inactive_seat_play_rejected (g : Game) (player_idx : nat) (p : Player)
    (ci : Z) :
  players g !! player_idx = Some p → is_active p = false →
  ∃ g', attempt_play_card g player_idx ci = Ok g'
        ∧ table_state g' = table_state g.
Proof.
  intros Hp Ha. unfold attempt_play_card.
  destruct (animating g); [by exists g|].
  rewrite (seat_lookup _ _ _ Hp). simpl.
  case_bool_decide; [by exists g|]. rewrite Ha. simpl. by exists g.
Qed.

Section Emptying.

Variable shuffle : list Card → list Card.

Lemma steps_keep_inactive (g g' : Game) (i : nat) (p : Player) :
  rtc (step shuffle) g g' →
  players g !! i = Some p → is_active p = false →
  ∃ p', players g' !! i = Some p' ∧ is_active p' = false.
Proof.
  intros Hsteps. revert p. induction Hsteps as [g|g h g' Hstep _ IH]; intros p Hp Ha.
  - eauto.
  - destruct (step_keeps_inactive shuffle _ _ _ _ Hstep Hp Ha) as (q & Hq & Hqa).
    eauto.
Qed.

(** C5, amended. An accepted play of the last card of a hand. On a lead
    the seat takes the next rank within the call, once, is deactivated and
    appended to the finish order, the game end is checked (the game is
    finished exactly when at most one other seat was active), and every
    later play of that seat is rejected. On a follow the call assigns no
    rank: the seat stays active and unranked with an empty hand. *)
Theorem rank_on_emptying (g g' : Game) (player_idx : nat) (ci : Z) (p : Player) :
  attempt_play_card g player_idx ci = Ok g' →
  accepted g player_idx g' →
  players g !! player_idx = Some p →
  length (hand p) = 1 →
  (required_suit g = None →
   ∃ p', players g' !! player_idx = Some p'
         ∧ hand p' = [] ∧ is_active p' = false
         ∧ finished_rank p' = Some (ranks_assigned g + 1)
         ∧ (∃ rest,
              finish_order g'
              = finish_order g ++ (name p, ranks_assigned g + 1) :: rest
              ∧ ∀ e, e ∈ rest → ranks_assigned g + 1 < e.2)
         ∧ state g'
           = (if bool_decide (count_active_players g ≤ 2) then Finished
              else state g)
         ∧ ∀ g'', rtc (step shuffle) g' g'' →
             ∀ ci', ∃ g3, attempt_play_card g'' player_idx ci' = Ok g3
                          ∧ table_state g3 = table_state g'')
  ∧ (required_suit g ≠ None →
     ∃ p', players g' !! player_idx = Some p'
           ∧ hand p' = [] ∧ is_active p' = true
           ∧ finished_rank p' = finished_rank p
           ∧ ranks_assigned g' = ranks_assigned g
           ∧ finish_order g' = finish_order g
           ∧ state g' = state g).
Proof.
  intros Hplay Hacc Hp Hlen.
  destruct (attempt_play_card_cases _ _ _ _ Hplay)
    as [Hrej|(q & popped & Hq & Hqa & Hact & _ & Hpop
              & [(Hreq & _ & ->)|(s & Hreq & _ & ->)])].
  { by destruct (accepted_not_rejected _ _ _ Hacc). }
  - assert (q = p) as -> by congruence.
    assert (popped.2 = []) as Hnil.
    { apply py_pop_length in Hpop. rewrite Hlen in Hpop.
      apply length_zero_iff_nil. lia. }
    split; [|congruence]. intros _.
    destruct (play_lead_shape g player_idx p popped Hq Hqa)
      as (_ & _ & _ & _ & _ & _ & _ & _ & Hfin).
    destruct (Hfin Hnil) as (Hp' & Hfo & _ & Hst).
    eexists. split; [exact Hp'|].
    assert (hand (clear_pickup (set_hand p [])) = []) as Hh.
    { unfold clear_pickup. simpl. by destruct (just_picked_up p). }
    repeat split; try done.
    intros g'' Hsteps ci'.
    destruct (steps_keep_inactive _ _ _ _ Hsteps Hp' eq_refl) as (p'' & Hp'' & Ha'').
    by apply (inactive_seat_play_rejected _ _ p'').
  - assert (q = p) as -> by congruence.
    assert (popped.2 = []) as Hnil.
    { apply py_pop_length in Hpop. rewrite Hlen in Hpop.
      apply length_zero_iff_nil. lia. }
    split; [congruence|]. intros _.
    destruct (play_follow_shape g player_idx p s (has_suit p s) popped Hq)
      as (_ & _ & _ & _ & _ & Hra & Hfo & Hst & Hps & _).
    assert (∀ q', players (play_follow g player_idx s (has_suit p s) popped)
                  = <[player_idx := q']> (players g) →
                  players (play_follow g player_idx s (has_suit p s) popped)
                  !! player_idx = Some q') as Hlook.
    { intros q' ->. apply list_lookup_insert_eq. by eapply lookup_lt_Some. }
    destruct Hps as [Hps|[Hps _]]; apply Hlook in Hps;
      (eexists; split; [exact Hps|]); rewrite Hnil;
      unfold clear_pickup; simpl; destruct (just_picked_up p); by simpl.
Qed.

End Emptying.

Lemma stuck_before_follow_reachable :
  reachable (shuffle_to deal_stuck_trick) (λ _, 0) stuck_before_follow.
Proof.
  eapply reach_step; [|apply step_animation].
  apply (cpu_game_reachable _ 4 92). vm_compute. reflexivity.
Qed.

(** C5, as stated, fails on a follow: seat 0 follows the ace of diamonds
    with its last card, the play is accepted, and when the call returns
    the seat is still active and has no rank. *)
Lemma follower_out_of_cards_not_ranked :
  reachable (shuffle_to deal_stuck_trick) (λ _, 0) stuck_before_follow
  ∧ (hand <$> players stuck_before_follow !! 0) = Some [mkCard RK Diamonds]
  ∧ (is_active <$> players stuck_before_follow !! 0) = Some true
  ∧ attempt_play_card stuck_before_follow 0 0 = Ok stuck_after_follow
  ∧ accepted stuck_before_follow 0 stuck_after_follow
  ∧ (hand <$> players stuck_after_follow !! 0) = Some []
  ∧ (is_active <$> players stuck_after_follow !! 0) = Some true
  ∧ (finished_rank <$> players stuck_after_follow !! 0) = Some None
  ∧ ranks_assigned stuck_after_follow = ranks_assigned stuck_before_follow
  ∧ finish_order stuck_after_follow = finish_order stuck_before_follow.
Proof.
  split; [apply stuck_before_follow_reachable|].
  split; [vm_compute; reflexivity|]. split; [vm_compute; reflexivity|].
  split; [vm_compute; reflexivity|].
  split; [exists (mkCard RK Diamonds); vm_compute; reflexivity|].
  by_evaluation.
Qed.

(** ** Hands of inactive seats *)

(** C4, as stated, fails: at the end of a game the last seat is
    deactivated with its cards in hand. *)
Lemma loser_is_inactive_with_cards :
  reachable (shuffle_to deal_short_game) (λ _, 0) short_game_end
  ∧ state short_game_end = Finished
  ∧ (is_active <$> players short_game_end !! 1) = Some false
  ∧ (length ∘ hand <$> players short_game_end !! 1) = Some 12.
Proof.
  split; [apply (cpu_game_reachable _ 3 113), short_game_end_eq|].
  by_evaluation.
Qed.

Section InactiveHands.

Variable shuffle : list Card → list Card.

(** C4, amended. [attempt_play_card] leaves every inactive seat as it is;
    a commit leaves as they are the hands of all seats but the recipient
    of a tochoo, and the inactive ones among them entirely; and a seat
    that either operation deactivates has an empty hand, unless the game
    ends in that operation. *)
Theorem inactive_seat_hands (g g' : Game) :
  (∀ player_idx ci,
     attempt_play_card g player_idx ci = Ok g' →
     (∀ i p, players g !! i = Some p → is_active p = false →
             players g' !! i = Some p)
     ∧ (∀ i p p', players g !! i = Some p → players g' !! i = Some p' →
                  is_active p = true → is_active p' = false →
                  hand p' = [] ∨ state g' = Finished))
  ∧ (∀ t,
       actually_resolve_trick shuffle t g = Ok g' →
       (∀ i p p', players g !! i = Some p → players g' !! i = Some p' →
                  default (pending_tochoo g) t = false ∨ i ≠ trick_winner g →
                  hand p' = hand p ∧ (is_active p = false → p' = p))
       ∧ (∀ i p p', players g !! i = Some p → players g' !! i = Some p' →
                    is_active p = true → is_active p' = false →
                    hand p' = [] ∨ state g' = Finished)).
Proof.
  split.
  - intros pi ci Hplay.
    destruct (attempt_play_card_cases _ _ _ _ Hplay)
      as [(Hps & _)%table_state_fields
         |(q & popped & Hq & Hqa & _ & _ & _ & [(_ & _ & ->)|(s & _ & _ & ->)])].
    + rewrite Hps. split; [done|]. intros i p p' Hp Hp' Ha Ha'. congruence.
    + split.
      * intros i p Hp Ha.
        destruct (play_lead_shape g pi q popped Hq Hqa)
          as (_ & _ & _ & _ & _ & _ & Hrk & _).
        destruct (Forall2_lookup_l _ _ _ i p Hrk) as (p' & Hp' & Hpp').
        { rewrite list_lookup_insert_ne; [done|]. intros ->. congruence. }
        by rewrite Hp', (ranked_from_inactive _ _ Hpp' Ha).
      * intros i p p' Hp Hp' Ha Ha'.
        destruct (play_lead_others g pi q popped Hq)
          as [Hfin|(q' & Hps & Hh & Hact)]; [by right|].
        left. rewrite Hps in Hp'.
        destruct (decide (i = pi)) as [->|Hne].
        -- rewrite list_lookup_insert_eq in Hp' by (by eapply lookup_lt_Some).
           injection Hp' as <-. rewrite Hh.
           destruct (decide (popped.2 = [])) as [|Hne]; [done|].
           rewrite (Hact Hne) in Ha'. congruence.
        -- rewrite list_lookup_insert_ne in Hp' by done. congruence.
    + destruct (play_follow_shape g pi q s (has_suit q s) popped Hq)
        as (_ & _ & _ & _ & _ & _ & _ & _ & Hps & _).
      assert (∃ q', players (play_follow g pi s (has_suit q s) popped)
                    = <[pi := q']> (players g) ∧ is_active q' = true)
        as (q' & -> & Hq'a).
      { destruct Hps as [-> | [-> _]]; eexists; (split; [done|]);
          unfold clear_pickup; simpl; destruct (just_picked_up q); done. }
      split.
      * intros i p Hp Ha. rewrite list_lookup_insert_ne; [done|].
        intros ->. congruence.
      * intros i p p' Hp Hp' Ha Ha'.
        destruct (decide (i = pi)) as [->|Hne].
        -- rewrite list_lookup_insert_eq in Hp' by (by eapply lookup_lt_Some).
           congruence.
        -- rewrite list_lookup_insert_ne in Hp' by done. congruence.
  - intros t Hcommit.
    destruct (commit_cases shuffle _ _ _ Hcommit)
      as (_ & _ & _ & _ & _ & Hrk & Hst & _).
    assert (∀ i p, players g !! i = Some p →
              ∃ q, after_pickup shuffle t g !! i = Some q
                   ∧ is_active q = is_active p
                   ∧ (default (pending_tochoo g) t = false ∨ i ≠ trick_winner g →
                      q = p)) as Hmid.
    { intros i p Hp. unfold after_pickup.
      destruct (default (pending_tochoo g) t).
      - destruct (decide (i = trick_winner g)) as [->|Hne].
        + rewrite list_lookup_alter_eq, Hp. simpl. eexists. split; [done|].
          split; [done|]. by intros [|].
        + rewrite list_lookup_alter_ne by done. eauto.
      - eauto. }
    split.
    + intros i p p' Hp Hp' Hwho.
      destruct (Hmid _ _ Hp) as (q & Hq & _ & Hqp). rewrite (Hqp Hwho) in Hq.
      pose proof (Forall2_lookup_lr _ _ _ _ _ _ Hrk Hq Hp') as Hpp'.
      split; [by apply ranked_from_hand|]. by apply ranked_from_inactive.
    + intros i p p' Hp Hp' Ha Ha'.
      destruct Hst as [Hfin|[_ Hre]]; [by right|]. left.
      destruct (Hmid _ _ Hp) as (q & Hq & Hqa & _).
      destruct (Forall2_lookup_lr _ _ _ _ _ _ Hre Hq Hp')
        as [->|(_ & Hh & r & ->)]; [congruence|done].
Qed.

End InactiveHands.

Lemma pickup_before_lead_eq :
  cpu_game deal_dead_pickup 4 84 = Ok pickup_before_lead.
Proof. vm_compute. reflexivity. Qed.

Lemma pickup_after_commit_eq :
  cpu_game deal_dead_pickup 4 88 = Ok pickup_after_commit.
Proof. vm_compute. reflexivity. Qed.

(** The part of C4 that the amended claim leaves open: in this game seat
    3 leads its last card and is ranked and deactivated at once; seat 0
    cannot follow, and the commit of the tochoo hands both played cards to
    seat 3, inactive, which becomes leader and seat to move. The loop
    leaves the game there for ever. *)
Lemma inactive_leader_picks_up :
  reachable (shuffle_to deal_dead_pickup) (λ _, 0) pickup_after_commit
  ∧ state pickup_after_commit = Play
  ∧ (hand <$> players pickup_before_lead !! 3) = Some [mkCard RJ Spades]
  ∧ (is_active <$> players pickup_after_commit !! 3) = Some false
  ∧ (finished_rank <$> players pickup_after_commit !! 3) = Some (Some 2)
  ∧ (hand <$> players pickup_after_commit !! 3)
    = Some [mkCard RJ Spades; mkCard R10 Hearts]
  ∧ leader_index pickup_after_commit = 3
  ∧ active_index pickup_after_commit = Some 3
  ∧ frame (shuffle_to deal_dead_pickup) pickup_after_commit
    = Ok pickup_after_commit.
Proof.
  split; [apply (cpu_game_reachable _ 4 88), pickup_after_commit_eq|].
  by_evaluation.
Qed.

Lemma inactive_seat_hands_witness :
  attempt_play_card demo_table 1 1 = Ok demo_tochoo
  ∧ players demo_table !! 2 = Some demo_p3
  ∧ is_active demo_p3 = false
  ∧ players demo_tochoo !! 2 = Some demo_p3.
Proof.
  assert (attempt_play_card demo_table 1 1 = Ok demo_tochoo) as Hplay
    by reflexivity.
  split; [exact Hplay|]. split; [reflexivity|]. split; [reflexivity|].
  exact (proj1 (proj1 (inactive_seat_hands reverse demo_table demo_tochoo)
                  1 1%Z Hplay) 2 demo_p3 eq_refl eq_refl).
Defined.

(** ** Completion of a trick *)

(** A state that one iteration of the loop maps to itself is never left. *)
Lemma frames_fixed (shuffle : list Card → list Card) (g : Game) :
  frame shuffle g = Ok g → ∀ k, frames shuffle k g = Ok g.
Proof.
  intros Hg k. induction k as [|k IH]; [done|]. simpl. by rewrite Hg.
Qed.

Lemma stuck_trick_eq : cpu_game deal_stuck_trick 4 95 = Ok stuck_trick.
Proof. vm_compute. reflexivity. Qed.

Lemma stuck_trick_frame :
  frame (shuffle_to deal_stuck_trick) stuck_trick = Ok stuck_trick.
Proof. vm_compute. reflexivity. Qed.

(** C3 on the code. In this game of four CPU seats, seat 3 leads its last
    card and is deactivated at once; the two seats still active, 0 and 1,
    both follow the required suit. Every active seat has now played one
    card and everyone followed, but no resolution is queued: the seat to
    move never equals the leader again, since [next_active_index] skips
    the leader. The trick stays open and the loop leaves the game in this
    state for ever (seat 0, to move, has no card left). *)
Theorem trick_never_completes :
  reachable (shuffle_to deal_stuck_trick) (λ _, 0) stuck_trick
  ∧ state stuck_trick = Play
  ∧ animating stuck_trick = false
  ∧ resolve_after_animation stuck_trick = None
  ∧ required_suit stuck_trick = Some Diamonds
  ∧ trick_cards stuck_trick
    = [(3, mkCard RA Diamonds); (0, mkCard RK Diamonds); (1, mkCard R6 Diamonds)]
  ∧ is_active <$> players stuck_trick = [true; true; false; false]
  ∧ leader_index stuck_trick = 3
  ∧ active_index stuck_trick = Some 0
  ∧ ∀ k, frames (shuffle_to deal_stuck_trick) k stuck_trick = Ok stuck_trick.
Proof.
  split; [apply (cpu_game_reachable _ 4 95), stuck_trick_eq|].
  do 8 (split; [vm_compute; reflexivity|]).
  apply frames_fixed, stuck_trick_frame.
Qed.

Lemma rank_on_emptying_witness :
  attempt_play_card stuck_before_follow 0 0 = Ok stuck_after_follow
  ∧ accepted stuck_before_follow 0 stuck_after_follow
  ∧ (∃ p, players stuck_before_follow !! 0 = Some p ∧ length (hand p) = 1)
  ∧ ∃ p', players stuck_after_follow !! 0 = Some p'
          ∧ hand p' = [] ∧ is_active p' = true
          ∧ ranks_assigned stuck_after_follow = ranks_assigned stuck_before_follow.
Proof.
  assert (attempt_play_card stuck_before_follow 0 0 = Ok stuck_after_follow)
    as Hplay by (vm_compute; reflexivity).
  assert (accepted stuck_before_follow 0 stuck_after_follow) as Hacc
    by (exists (mkCard RK Diamonds); vm_compute; reflexivity).
  destruct (players stuck_before_follow !! 0) as [p|] eqn:Hp;
    [|vm_compute in Hp; discriminate].
  assert (length (hand p) = 1) as Hlen.
  { vm_compute in Hp. injection Hp as <-. reflexivity. }
  split; [exact Hplay|]. split; [exact Hacc|].
  split; [exists p; split; [reflexivity|exact Hlen]|].
  destruct (proj2 (rank_on_emptying reverse _ _ _ _ _ Hplay Hacc Hp Hlen))
    as (p' & Hp' & Hh & Ha & _ & Hra & _).
  { vm_compute. discriminate. }
  exists p'. split; [exact Hp'|]. split; [exact Hh|]. split; [exact Ha|].
  exact Hra.
Defined.

(** * Further properties of the engine *)

(** ** The playable indices *)

Lemma is_card_playable_in_hand (g : Game) (player_idx : nat) (p : Player)
    (i : nat) :
  players g !! player_idx = Some p → i < length (hand p) →
  ∃ b, is_card_playable g player_idx (Z.of_nat i) = Ok b.
Proof.
  intros Hp Hi. destruct (lookup_lt_is_Some_2 _ _ Hi) as [c Hc].
  unfold is_card_playable. rewrite (seat_lookup _ _ _ Hp). simpl.
  rewrite (py_index_nat _ _ _ Hc). simpl.
  destruct (negb (is_active p)); [eauto|].
  destruct (_ && _); [eauto|].
  destruct (required_suit g); [|eauto].
  destruct (has_suit p _); eauto.
Qed.

Lemma playable_among_spec (g : Game) (player_idx : nat) (p : Player)
    (idxs : list nat) :
  players g !! player_idx = Some p →
  (∀ i, i ∈ idxs → i < length (hand p)) →
  ∃ l, playable_among g player_idx idxs = Ok l
       ∧ sublist l idxs
       ∧ ∀ i, i ∈ l ↔ i ∈ idxs
                      ∧ is_card_playable g player_idx (Z.of_nat i) = Ok true.
Proof.
  intros Hp. induction idxs as [|j idxs IH]; intros Hin; simpl.
  - exists []. split; [done|]. split; [done|]. intros i. split.
    + by intros ?%elem_of_nil.
    + by intros [?%elem_of_nil _].
  - destruct (is_card_playable_in_hand g player_idx p j Hp) as [b Hb].
    { apply Hin. apply list_elem_of_here. }
    destruct IH as (l & Hl & Hsub & Hspec).
    { intros i Hi. apply Hin. by apply list_elem_of_further. }
    rewrite Hb, Hl. simpl. destruct b.
    + exists (j :: l). split; [done|]. split; [by constructor|].
      intros i. rewrite !elem_of_cons, Hspec. split.
      * intros [->|[? ?]]; auto.
      * intros [[->|?] ?]; auto.
    + exists l. split; [done|]. split; [by constructor|].
      intros i. rewrite elem_of_cons, Hspec. split.
      * intros [? ?]; auto.
      * intros [[->|?] ?]; [congruence|auto].
Qed.

(** [playable_indices_for_player] never raises for a seat of the table
    and returns, in increasing order, exactly the indices of the hand that
    [is_card_playable] accepts. *)
Theorem playable_indices_exact (g : Game) (player_idx : nat) (p : Player) :
  players g !! player_idx = Some p →
  ∃ l, playable_indices_for_player g player_idx = Ok l
       ∧ sublist l (seq 0 (length (hand p)))
       ∧ ∀ i, i ∈ l ↔ i < length (hand p)
                      ∧ is_card_playable g player_idx (Z.of_nat i) = Ok true.
Proof.
  intros Hp. unfold playable_indices_for_player.
  rewrite (seat_lookup _ _ _ Hp). simpl.
  destruct (playable_among_spec g player_idx p (seq 0 (length (hand p))) Hp)
    as (l & Hl & Hsub & Hspec).
  { intros i Hi. apply elem_of_seq in Hi. lia. }
  exists l. split; [done|]. split; [done|].
  intros i. rewrite Hspec, elem_of_seq. split; intros [? ?]; split; auto; lia.
Qed.

Lemma playable_indices_exact_witness :
  players demo_table !! 0 = Some demo_p1
  ∧ ∃ l, playable_indices_for_player demo_table 0 = Ok l ∧ 1 ∈ l ∧ 2 ∉ l.
Proof.
  split; [reflexivity|].
  destruct (playable_indices_exact demo_table 0 demo_p1 eq_refl)
    as (l & Hl & _ & Hspec).
  exists l. split; [exact Hl|]. split.
  - apply Hspec. split; [simpl; lia|reflexivity].
  - intros [_ H]%Hspec. discriminate H.
Defined.

(** ** Acceptance and legality agree *)

(** For the seat to move, outside the animation hold and with an index
    inside the hand, [attempt_play_card] returns normally and accepts the
    play exactly when [is_card_playable] answers true. *)
Theorem accepted_iff_playable (g : Game) (player_idx : nat) (p : Player)
    (i : nat) :
  animating g = false →
  players g !! player_idx = Some p →
  active_index g = Some player_idx →
  i < length (hand p) →
  ∃ g', attempt_play_card g player_idx (Z.of_nat i) = Ok g'
        ∧ (accepted g player_idx g'
           ↔ is_card_playable g player_idx (Z.of_nat i) = Ok true).
Proof.
  intros Hanim Hp Hact Hi.
  destruct (lookup_lt_is_Some_2 _ _ Hi) as [c Hc].
  pose proof (py_index_nat _ _ _ Hc) as Hidx.
  destruct (py_index_pop _ _ _ Hidx) as (k & Hk & Hpop).
  unfold attempt_play_card, is_card_playable.
  rewrite Hanim, (seat_lookup _ _ _ Hp). simpl.
  rewrite Hact. rewrite bool_decide_eq_false_2 by (by intros []).
  rewrite (bool_decide_eq_true_2 (Some _ = Some _)) by done.
  rewrite Hidx. simpl.
  assert (∀ h, table_state h = table_state g →
               (accepted g player_idx h ↔ Ok false = Ok true)) as Hrej.
  { intros h Hh. split; [|done]. intros Hacc.
    by destruct (accepted_not_rejected _ _ _ Hacc). }
  destruct (is_active p) eqn:Ha; simpl; [|eexists; split; [done|by apply Hrej]].
  destruct (required_suit g) as [s|] eqn:Hreq; simpl.
  - destruct (has_suit p s) eqn:Hhs; simpl.
    + case_bool_decide as Hs; simpl.
      * eexists. split; [done|]. rewrite bool_decide_eq_false_2 by done.
        by apply Hrej.
      * rewrite Hpop. simpl. eexists. split; [done|].
        rewrite bool_decide_eq_true_2 by (by destruct (decide (suit c = s))).
        split; [done|]. intros _. exists c.
        by destruct (play_follow_shape g player_idx p s true
                       (c, delete k (hand p)) Hp) as (-> & _).
    + rewrite Hpop. simpl. eexists. split; [done|]. split; [done|].
      intros _. exists c.
      by destruct (play_follow_shape g player_idx p s false
                     (c, delete k (hand p)) Hp) as (-> & _).
  - destruct (first_move g) eqn:Hfm; simpl.
    + destruct (is_ace_of_spades c) eqn:Hace; simpl.
      * rewrite Hpop. simpl. eexists. split; [done|]. split; [done|].
        intros _. exists c.
        by destruct (play_lead_shape g player_idx p
                       (c, delete k (hand p)) Hp Ha) as (-> & _).
      * eexists. split; [done|]. by apply Hrej.
    + rewrite Hpop. simpl. eexists. split; [done|]. split; [done|].
      intros _. exists c.
      by destruct (play_lead_shape g player_idx p
                     (c, delete k (hand p)) Hp Ha) as (-> & _).
Qed.

Lemma accepted_iff_playable_witness :
  animating demo_table = false
  ∧ players demo_table !! 1 = Some demo_p2
  ∧ active_index demo_table = Some 1
  ∧ 1 < length (hand demo_p2)
  ∧ ∃ g', attempt_play_card demo_table 1 1 = Ok g' ∧ accepted demo_table 1 g'.
Proof.
  split; [reflexivity|]. split; [reflexivity|]. split; [reflexivity|].
  split; [simpl; lia|].
  destruct (accepted_iff_playable demo_table 1 demo_p2 1 eq_refl eq_refl eq_refl)
    as (g' & Hg' & Hiff); [simpl; lia|].
  exists g'. split; [exact Hg'|]. apply Hiff. reflexivity.
Defined.

(** ** The animation hold *)

Lemma play_lead_animating (g : Game) (i : nat) (p : Player)
    (popped : Card * list Card) :
  animating (play_lead g i p popped) = true.
Proof.
  unfold play_lead.
  set (g1 := update_player i (λ p0, set_hand p0 popped.2) g).
  set (g2 := set_trick_cards _ g1). set (g3 := set_animating true g2).
  set (g4 := if first_move g3 then _ else _).
  set (g5 := set_required_suit _ g4). set (g6 := set_active_index _ g5).
  assert (animating g6 = true) as H6.
  { subst g6 g5 g4. by destruct (first_move g3). }
  case_bool_decide; [|done].
  unfold finish_player. set (h := set_finish_order _ _).
  assert (animating h = true) as Hh by done.
  unfold update_player, check_game_end. case_bool_decide; [|done].
  unfold run_assign_ranks. by destruct (assign_ranks _ _ _ _) as [[? ?] ?].
Qed.

Lemma play_follow_animating (g : Game) (i : nat) (s : Suit) (had : bool)
    (popped : Card * list Card) :
  animating (play_follow g i s had popped) = true.
Proof.
  unfold play_follow. destruct (_ && negb had); [done|].
  by destruct (_ && _).
Qed.

(** An accepted play sets the animation hold: until [finish_animation]
    releases it, every further [attempt_play_card], of any seat and index,
    returns the game unchanged. *)
Theorem accepted_play_holds (g g' : Game) (player_idx : nat) (ci : Z) :
  attempt_play_card g player_idx ci = Ok g' →
  accepted g player_idx g' →
  animating g' = true
  ∧ (∀ player_idx' ci', attempt_play_card g' player_idx' ci' = Ok g')
  ∧ animating (finish_animation g') = false.
Proof.
  intros Hplay Hacc.
  assert (animating g' = true) as Hanim.
  { destruct (attempt_play_card_cases _ _ _ _ Hplay)
      as [Hrej|(q & popped & _ & _ & _ & _ & _
                & [(_ & _ & ->)|(s & _ & _ & ->)])].
    - by destruct (accepted_not_rejected _ _ _ Hacc).
    - apply play_lead_animating.
    - apply play_follow_animating. }
  split; [done|]. split.
  - intros pi' ci'. unfold attempt_play_card. by rewrite Hanim.
  - unfold finish_animation. rewrite Hanim. simpl.
    destruct (resolve_after_animation g') as [b|]; [|done].
    unfold resolve_trick. simpl. by destruct (trick_cards g').
Qed.

Lemma accepted_play_holds_witness :
  attempt_play_card demo_table 1 1 = Ok demo_tochoo
  ∧ accepted demo_table 1 demo_tochoo
  ∧ attempt_play_card demo_tochoo 0 0 = Ok demo_tochoo.
Proof.
  assert (attempt_play_card demo_table 1 1 = Ok demo_tochoo) as Hplay
    by reflexivity.
  assert (accepted demo_table 1 demo_tochoo) as Hacc
    by (exists (mkCard RK Diamonds); reflexivity).
  split; [exact Hplay|]. split; [exact Hacc|].
  exact (proj1 (proj2 (accepted_play_holds _ _ _ _ Hplay Hacc)) 0 0%Z).
Defined.

(** ** When a play queues a resolution *)

(** An accepted lead queues no resolution. An accepted follow queues a
    tochoo exactly when the card is off-suit and the seat held no card of
    the required suit; otherwise it queues a clean resolution exactly when
    the next active seat is the leader and the trick has at least as many
    cards as there are active seats; otherwise it queues nothing. *)
Theorem resolution_trigger (g g' : Game) (player_idx : nat) (ci : Z)
    (p : Player) (c : Card) :
  attempt_play_card g player_idx ci = Ok g' →
  accepted g player_idx g' →
  players g !! player_idx = Some p →
  py_index (hand p) ci = Ok c →
  match required_suit g with
  | None => resolve_after_animation g' = resolve_after_animation g
  | Some s =>
      resolve_after_animation g'
      = if bool_decide (suit c ≠ s) && negb (has_suit p s) then Some true
        else if bool_decide (active_index g' = Some (leader_index g))
                && bool_decide (count_active_players g ≤ length (trick_cards g'))
             then Some false
             else resolve_after_animation g
  end.
Proof.
  intros Hplay Hacc Hp Hc.
  destruct (attempt_play_card_cases _ _ _ _ Hplay)
    as [Hrej|(q & popped & Hq & Hqa & _ & _ & Hpop
              & [(Hreq & _ & ->)|(s & Hreq & _ & ->)])].
  { by destruct (accepted_not_rejected _ _ _ Hacc). }
  - rewrite Hreq.
    by destruct (play_lead_shape g player_idx q popped Hq Hqa)
      as (_ & _ & _ & _ & _ & -> & _).
  - rewrite Hreq. assert (q = p) as -> by congruence.
    assert (popped.1 = c) as Hcard.
    { destruct popped as [x l]. apply py_pop_index in Hpop. simpl. congruence. }
    destruct (play_follow_shape g player_idx p s (has_suit p s) popped Hp)
      as (Htc & _ & _ & _ & _ & _ & _ & _ & _ & Hres & Hact).
    rewrite Hres, Htc, Hact, Hcard.
    by destruct (bool_decide (suit c ≠ s) && negb (has_suit p s)).
Qed.

Lemma resolution_trigger_witness :
  attempt_play_card demo_table 1 1 = Ok demo_tochoo
  ∧ accepted demo_table 1 demo_tochoo
  ∧ players demo_table !! 1 = Some demo_p2
  ∧ py_index (hand demo_p2) 1 = Ok (mkCard RK Diamonds)
  ∧ resolve_after_animation demo_tochoo = Some true.
Proof.
  assert (attempt_play_card demo_table 1 1 = Ok demo_tochoo) as Hplay
    by reflexivity.
  assert (accepted demo_table 1 demo_tochoo) as Hacc
    by (exists (mkCard RK Diamonds); reflexivity).
  split; [exact Hplay|]. split; [exact Hacc|]. split; [reflexivity|].
  split; [reflexivity|].
  exact (resolution_trigger _ _ _ _ demo_p2 (mkCard RK Diamonds)
           Hplay Hacc eq_refl eq_refl).
Defined.

(** ** More on the commit *)

Lemma actually_resolve_trick_halves (shuffle : list Card → list Card)
    (t : option bool) (g : Game) :
  actually_resolve_trick shuffle t g
  = (g1 ←! commit_pickup shuffle t g; Ok (commit_finish g1)).
Proof.
  unfold actually_resolve_trick, commit_pickup, commit_finish.
  destruct (default (pending_tochoo g) t).
  - unfold seat. destruct (players g !! trick_winner g); [|reflexivity].
    cbn [rbind]. reflexivity.
  - cbn [rbind]. reflexivity.
Qed.

Lemma assign_ranks_complete (ps : list Player) (ra : nat)
    (fo : list (string * nat)) :
  Forall (λ q, active_empty q = false) (assign_ranks active_empty ps ra fo).1.1.
Proof.
  revert ra fo. induction ps as [|p ps IH]; intros ra fo; simpl.
  - constructor.
  - destruct (active_empty p) eqn:E.
    + specialize (IH (ra + 1) (fo ++ [(name p, ra + 1)])).
      destruct (assign_ranks active_empty ps _ _) as [[qs ra'] fo']. simpl in *.
      by constructor.
    + specialize (IH ra fo).
      destruct (assign_ranks active_empty ps _ _) as [[qs ra'] fo']. simpl in *.
      by constructor.
Qed.

Lemma Forall2_ranked_from_hands (ps qs : list Player) :
  Forall2 ranked_from ps qs → hand <$> qs = hand <$> ps.
Proof.
  induction 1 as [|p q ps qs Hpq _ IH]; [done|].
  by rewrite !fmap_cons, IH, (ranked_from_hand _ _ Hpq).
Qed.

(** The second half of a commit. *)
Lemma commit_finish_shape (h : Game) :
  let g' := commit_finish h in
  trick_cards g' = [] ∧ required_suit g' = None
  ∧ leader_index g' = leader_index h ∧ active_index g' = active_index h
  ∧ discard_pile g' = discard_pile h ∧ first_move g' = first_move h
  ∧ showing_trick g' = false ∧ pending_tochoo g' = false
  ∧ last_trick_suit g' = None ∧ last_played_cards g' = []
  ∧ animating g' = animating h
  ∧ (state g' = Finished ∨ state g' = Play)
  ∧ Forall2 ranked_from (players h) (players g')
  ∧ Forall (λ q, is_active q = true → hand q ≠ []) (players g').
Proof.
  unfold commit_finish.
  set (g2 := set_required_suit None (set_trick_cards [] h)).
  pose proof (assign_ranks_complete (players g2) (ranks_assigned g2)
                (finish_order g2)) as Hcomplete.
  pose proof (assign_ranks_ranked active_empty (players g2) (ranks_assigned g2)
                (finish_order g2) active_empty_active) as Hrk.
  unfold run_assign_ranks.
  destruct (assign_ranks active_empty (players g2) _ _) as [[ps ra] fo].
  simpl in Hcomplete, Hrk.
  set (g3 := set_finish_order fo (set_ranks_assigned ra (set_players ps g2))).
  assert (∀ qs, Forall2 ranked_from ps qs →
                Forall (λ q, is_active q = true → hand q ≠ []) qs) as Hne.
  { intros qs Hqs. apply Forall_lookup. intros i q Hq Ha.
    destruct (Forall2_lookup_r _ _ _ _ _ Hqs Hq) as (p & Hp & Hpq).
    rewrite (ranked_from_active _ _ Hpq Ha).
    pose proof (proj1 (Forall_lookup _ _) Hcomplete _ _ Hp) as He.
    simpl in He. unfold active_empty in He.
    rewrite (ranked_from_active _ _ Hpq Ha) in Ha. rewrite Ha in He.
    simpl in He. apply bool_decide_eq_false in He.
    intros Hnil. apply He. by rewrite Hnil. }
  destruct (check_game_end_shape g3) as [->|(_ & qs & ra' & fo' & -> & Hrk')].
  - assert (state g3 = state h) as Hst by done.
    case_bool_decide as Hfin; simpl.
    + repeat split; try done; [by right|].
      apply Hne, Forall2_ranked_from_refl.
    + repeat split; try done.
      * left. rewrite <-Hst. by destruct (decide (state g3 = Finished)).
      * apply Hne, Forall2_ranked_from_refl.
  - simpl. repeat split; try done; [by left| |by apply Hne].
    eapply Forall2_trans; [|exact Hrk|exact Hrk']. apply ranked_from_trans.
Qed.

Section CommitMore.

Variable shuffle : list Card → list Card.

(** A commit without tochoo never raises: the played cards go to the end
    of the discard pile, no hand changes, the trick and the required suit
    are cleared, and the seat that played the highest card of the required
    suit (the leader when no played card has that suit) becomes the leader
    and the seat to move. *)
Theorem clean_commit_outcome (g : Game) (t : option bool) :
  default (pending_tochoo g) t = false →
  ∃ g', actually_resolve_trick shuffle t g = Ok g'
        ∧ discard_pile g' = discard_pile g ++ (trick_cards g).*2
        ∧ hand <$> players g' = hand <$> players g
        ∧ trick_cards g' = [] ∧ required_suit g' = None
        ∧ leader_index g' = trick_winner g
        ∧ active_index g' = Some (trick_winner g)
        ∧ ((∀ pc, pc ∈ trick_cards g → Some (suit pc.2) ≠ required_suit g)
           ∧ trick_winner g = leader_index g
           ∨ ∃ c, (trick_winner g, c) ∈ trick_cards g
                  ∧ Some (suit c) = required_suit g
                  ∧ ∀ pc, pc ∈ trick_cards g →
                          Some (suit pc.2) = required_suit g →
                          (value pc.2 ≤ value c)%Z).
Proof.
  intros Ht. rewrite actually_resolve_trick_halves.
  unfold commit_pickup. rewrite Ht. simpl.
  set (h := set_active_index _ _).
  destruct (commit_finish_shape h)
    as (Htc & Hrs & Hli & Hai & Hdp & _ & _ & _ & _ & _ & _ & _ & Hrk & _).
  eexists. split; [done|]. rewrite Hdp, Hli, Hai.
  split; [done|]. split; [by apply Forall2_ranked_from_hands|].
  split; [done|]. split; [done|]. split; [done|]. split; [done|].
  destruct (trick_winner_spec g) as [[Hs Hw]|Hmax]; [left|by right].
  split; [|done]. intros pc Hpc Hsuit.
  assert (pc ∈ suited g) as Hin by (by apply suited_elem).
  rewrite Hs in Hin. by apply elem_of_nil in Hin.
Qed.

(** After a commit every seat that is still active holds a card: the
    seats that ran out of cards have been ranked and deactivated. *)
Theorem commit_ranks_empty_hands (g g' : Game) (t : option bool) :
  actually_resolve_trick shuffle t g = Ok g' →
  ∀ i p, players g' !! i = Some p → is_active p = true → hand p ≠ [].
Proof.
  rewrite actually_resolve_trick_halves.
  destruct (commit_pickup shuffle t g) as [h|]; simpl; [|done].
  intros [= <-] i p Hp.
  destruct (commit_finish_shape h)
    as (_ & _ & _ & _ & _ & _ & _ & _ & _ & _ & _ & _ & _ & Hne).
  apply (proj1 (Forall_lookup _ _) Hne _ _ Hp).
Qed.

End CommitMore.

Lemma clean_commit_outcome_witness :
  default (pending_tochoo demo_followed) (Some false) = false
  ∧ ∃ g', actually_resolve_trick reverse (Some false) demo_followed = Ok g'
          ∧ discard_pile g' = [mkCard R3 Spades; mkCard R4 Spades]
          ∧ leader_index g' = 1.
Proof.
  split; [reflexivity|].
  destruct (clean_commit_outcome reverse demo_followed (Some false) eq_refl)
    as (g' & Hok & Hdp & _ & _ & _ & Hli & _).
  exists g'. split; [exact Hok|]. split; [exact Hdp|exact Hli].
Defined.

Lemma commit_ranks_empty_hands_witness :
  ∃ g', actually_resolve_trick reverse None (resolve_trick true demo_tochoo) = Ok g'
        ∧ ∀ i p, players g' !! i = Some p → is_active p = true → hand p ≠ [].
Proof.
  eexists. split; [reflexivity|].
  apply (commit_ranks_empty_hands reverse (resolve_trick true demo_tochoo) _ None).
  reflexivity.
Defined.

(** ** The next active seat *)

Lemma next_active_loop_spec (ps : list Player) (fuel i : nat) :
  i < length ps →
  ∃ d, d ≤ fuel
       ∧ next_active_loop ps fuel i = (i + d) mod length ps
       ∧ (∀ k, k < d → ∃ p, ps !! ((i + k) mod length ps) = Some p
                            ∧ is_active p = false)
       ∧ (d < fuel → ∃ p, ps !! ((i + d) mod length ps) = Some p
                          ∧ is_active p = true).
Proof.
  revert i. induction fuel as [|fuel IH]; intros i Hi.
  - exists 0. split; [lia|]. simpl. rewrite Nat.add_0_r, Nat.mod_small by lia.
    split; [done|]. split; intros; lia.
  - simpl. destruct (lookup_lt_is_Some_2 ps i Hi) as [p Hp]. rewrite Hp.
    destruct (is_active p) eqn:Ha.
    + exists 0. split; [lia|]. rewrite Nat.add_0_r, Nat.mod_small by lia.
      split; [done|]. split; [intros; lia|]. intros _. eauto.
    + destruct (IH ((i + 1) mod length ps)) as (d & Hd & Hres & Hskip & Hact).
      { apply Nat.mod_upper_bound. lia. }
      assert (∀ k, ((i + 1) mod length ps + k) mod length ps
                   = (i + S k) mod length ps) as Hshift.
      { intros k. rewrite Nat.Div0.add_mod_idemp_l. f_equal. lia. }
      exists (S d). split; [lia|]. rewrite Hres, Hshift. split; [done|]. split.
      * intros [|k] Hk.
        -- rewrite Nat.add_0_r, Nat.mod_small by lia. eauto.
        -- rewrite <-Hshift. apply Hskip. lia.
      * intros Hlt. rewrite <-Hshift. apply Hact. lia.
Qed.

(** [next_active_index] returns [None] only for an empty table. Otherwise
    it returns a seat of the table, [d] seats after the seat that follows
    [current], going round: the seats passed on the way are inactive, and
    the seat returned is active unless all [n] seats were passed. So it
    is the first active seat after [current] when a seat is active, and
    the seat after [current] when no seat is active. *)
Theorem next_active_index_spec (g : Game) (current : nat) :
  (players g = [] → next_active_index g current = None)
  ∧ (players g ≠ [] →
     ∃ i d,
       next_active_index g current = Some i
       ∧ i < length (players g)
       ∧ d ≤ length (players g)
       ∧ i = (current + 1 + d) mod length (players g)
       ∧ (∀ k, k < d →
               ∃ p, players g !! ((current + 1 + k) mod length (players g)) = Some p
                    ∧ is_active p = false)
       ∧ (d < length (players g) →
          ∃ p, players g !! i = Some p ∧ is_active p = true)
       ∧ ((∃ p, p ∈ players g ∧ is_active p = true) →
          ∃ p, players g !! i = Some p ∧ is_active p = true)
       ∧ ((∀ p, p ∈ players g → is_active p = false) →
          d = length (players g)
          ∧ i = (current + 1) mod length (players g))).
Proof.
  unfold next_active_index. split.
  - intros ->. done.
  - intros Hne. set (n := length (players g)).
    assert (0 < n) as Hn.
    { subst n. destruct (players g); [done|simpl; lia]. }
    rewrite bool_decide_eq_false_2 by lia.
    destruct (next_active_loop_spec (players g) n ((current + 1) mod n))
      as (d & Hd & Hres & Hskip & Hact).
    { apply Nat.mod_upper_bound. lia. }
    fold n in Hres, Hskip, Hact.
    assert (∀ k, ((current + 1) mod n + k) mod n = (current + 1 + k) mod n)
      as Hshift.
    { intros k. by rewrite Nat.Div0.add_mod_idemp_l. }
    rewrite Hshift in Hres.
    exists ((current + 1 + d) mod n), d. split; [by rewrite Hres|].
    split; [apply Nat.mod_upper_bound; lia|]. split; [done|]. split; [done|].
    split; [|split; [|split]].
    + intros k Hk. rewrite <-Hshift. by apply Hskip.
    + intros Hlt. rewrite <-Hshift. by apply Hact.
    + intros (p & [j Hj]%list_elem_of_lookup & Ha).
      destruct (decide (d < n)) as [Hlt|Hge].
      { rewrite <-Hshift. by apply Hact. }
      exfalso. assert (d = n) as -> by lia.
      pose proof (lookup_lt_Some _ _ _ Hj) as Hjn. fold n in Hjn.
      set (k := (j + n - (current + 1) mod n) mod n).
      assert (k < n) as Hk by (apply Nat.mod_upper_bound; lia).
      destruct (Hskip k Hk) as (q & Hq & Hqa).
      assert (((current + 1) mod n + k) mod n = j) as Hjk.
      { subst k. rewrite Nat.Div0.add_mod_idemp_r.
        pose proof (Nat.mod_upper_bound (current + 1) n ltac:(lia)) as Hb.
        replace ((current + 1) mod n + (j + n - (current + 1) mod n))
          with (j + 1 * n) by lia.
        rewrite Nat.Div0.mod_add. apply Nat.mod_small. lia. }
      rewrite Hjk in Hq. congruence.
    + intros Hnone.
      assert (d = n) as ->.
      { destruct (decide (d < n)) as [Hlt|Hge]; [|lia].
        destruct (Hact Hlt) as (p & Hp & Ha).
        apply list_elem_of_lookup_2 in Hp. specialize (Hnone p Hp). congruence. }
      split; [done|].
      replace (current + 1 + n) with (current + 1 + 1 * n) by lia.
      apply Nat.Div0.mod_add.
Qed.

Lemma next_active_index_spec_witness :
  players (set_players [demo_p3; demo_p3; demo_p3] demo_table) ≠ []
  ∧ (∀ p, p ∈ players (set_players [demo_p3; demo_p3; demo_p3] demo_table) →
          is_active p = false)
  ∧ next_active_index (set_players [demo_p3; demo_p3; demo_p3] demo_table) 0
    = Some 1.
Proof.
  assert (players (set_players [demo_p3; demo_p3; demo_p3] demo_table) ≠ [])
    as Hne by discriminate.
  assert (∀ p, p ∈ players (set_players [demo_p3; demo_p3; demo_p3] demo_table) →
               is_active p = false) as Hall.
  { intros p Hp. apply list_elem_of_In in Hp. simpl in Hp.
    destruct Hp as [<-|[<-|[<-|[]]]]; reflexivity. }
  split; [exact Hne|]. split; [exact Hall|].
  destruct (proj2 (next_active_index_spec
                     (set_players [demo_p3; demo_p3; demo_p3] demo_table) 0) Hne)
    as (i & d & Hi & _ & _ & _ & _ & _ & _ & Hnone).
  destruct (Hnone Hall) as [_ ->]. exact Hi.
Defined.

(** ** The game end check *)

Lemma assign_ranks_none (cond : Player → bool) (ps : list Player) (ra : nat)
    (fo : list (string * nat)) :
  Forall (λ p, cond p = false) ps → assign_ranks cond ps ra fo = (ps, ra, fo).
Proof.
  induction 1 as [|p ps Hp _ IH]; simpl; [done|]. by rewrite Hp, IH.
Qed.

Lemma assign_ranks_settled (cond : Player → bool) (ps : list Player) (ra : nat)
    (fo : list (string * nat)) :
  (∀ p r, cond (set_finished p r) = false) →
  Forall (λ p, cond p = false) (assign_ranks cond ps ra fo).1.1.
Proof.
  intros Hc. revert ra fo. induction ps as [|p ps IH]; intros ra fo; simpl.
  - constructor.
  - destruct (cond p) eqn:E.
    + specialize (IH (ra + 1) (fo ++ [(name p, ra + 1)])).
      destruct (assign_ranks cond ps _ _) as [[qs ra'] fo']. simpl in *.
      by constructor.
    + specialize (IH ra fo).
      destruct (assign_ranks cond ps _ _) as [[qs ra'] fo']. simpl in *.
      by constructor.
Qed.

Lemma count_active_ranked (ps qs : list Player) :
  Forall2 ranked_from ps qs →
  length (filter (λ p, is_active p = true) qs)
  ≤ length (filter (λ p, is_active p = true) ps).
Proof.
  induction 1 as [|p q ps qs Hpq _ IH]; [done|].
  rewrite !filter_cons.
  destruct Hpq as [->|(Ha & r & ->)];
    repeat case_decide; simpl in *; try congruence; lia.
Qed.

Lemma run_assign_ranks_settled (cond : Player → bool) (g : Game) :
  (∀ p r, cond (set_finished p r) = false) →
  Forall (λ p, cond p = false) (players (run_assign_ranks cond g)).
Proof.
  intros Hc. unfold run_assign_ranks.
  pose proof (assign_ranks_settled cond (players g) (ranks_assigned g)
                (finish_order g) Hc) as Hs.
  by destruct (assign_ranks _ _ _ _) as [[ps ra] fo].
Qed.

Lemma run_assign_ranks_none (cond : Player → bool) (g : Game) :
  Forall (λ p, cond p = false) (players g) →
  run_assign_ranks cond g
  = set_finish_order (finish_order g)
      (set_ranks_assigned (ranks_assigned g) (set_players (players g) g)).
Proof. intros H. unfold run_assign_ranks. by rewrite assign_ranks_none. Qed.

Lemma run_assign_ranks_count (cond : Player → bool) (g : Game) :
  (∀ p, cond p = true → is_active p = true) →
  count_active_players (run_assign_ranks cond g) ≤ count_active_players g.
Proof.
  intros Hc. destruct (run_assign_ranks_shape cond g Hc) as (ps & ra & fo & -> & H).
  unfold count_active_players. simpl. by apply count_active_ranked.
Qed.

(** [check_game_end] changes nothing while two or more seats are active.
    With at most one active seat it sets the state to finished and gives
    every seat that is active and unranked the next rank, deactivating it
    and appending it to the finish order; the other seats are untouched.
    Checking again changes nothing more. *)
Theorem check_game_end_spec (g : Game) :
  (1 < count_active_players g → check_game_end g = g)
  ∧ (count_active_players g ≤ 1 →
     state (check_game_end g) = Finished
     ∧ Forall2 (λ p q, if active_unranked p
                       then ∃ r, ranks_assigned g < r ∧ q = set_finished p r
                       else q = p)
         (players g) (players (check_game_end g))
     ∧ (∀ q, q ∈ players (check_game_end g) →
             is_active q = true → finished_rank q ≠ None))
  ∧ check_game_end (check_game_end g) = check_game_end g.
Proof.
  assert (∀ ps ra fo,
            Forall2 (λ p q, if active_unranked p
                            then ∃ r, ra < r ∧ q = set_finished p r
                            else q = p)
              ps (assign_ranks active_unranked ps ra fo).1.1) as Hexact.
  { induction ps as [|p ps IH]; intros ra fo; simpl; [constructor|].
    destruct (active_unranked p) eqn:E.
    - specialize (IH (ra + 1) (fo ++ [(name p, ra + 1)])).
      destruct (assign_ranks active_unranked ps _ _) as [[qs ra'] fo'].
      simpl in *. constructor.
      + rewrite E. exists (ra + 1). split; [lia|done].
      + eapply Forall2_impl; [exact IH|]. intros x y. simpl.
        destruct (active_unranked x); [|done].
        intros (r & Hr & ->). exists r. split; [lia|done].
    - specialize (IH ra fo).
      destruct (assign_ranks active_unranked ps _ _) as [[qs ra'] fo'].
      simpl in *. constructor; [by rewrite E|done]. }
  assert (∀ p r, active_unranked (set_finished p r) = false) as Hfin by done.
  split; [|split].
  - intros Hc. unfold check_game_end. rewrite bool_decide_eq_false_2; [done|lia].
  - intros Hc. unfold check_game_end. rewrite bool_decide_eq_true_2 by done.
    unfold run_assign_ranks.
    pose proof (Hexact (players g) (ranks_assigned g) (finish_order g)) as He.
    pose proof (assign_ranks_settled active_unranked (players g)
                  (ranks_assigned g) (finish_order g) Hfin) as Hs.
    destruct (assign_ranks _ _ _ _) as [[ps ra] fo]. simpl in *.
    split; [done|]. split; [done|].
    intros q Hq Ha Hr.
    pose proof (proj1 (Forall_forall _ _) Hs q Hq) as Hq'. simpl in Hq'.
    unfold active_unranked in Hq'. rewrite Ha, Hr in Hq'. done.
  - unfold check_game_end at 2. case_bool_decide as Hc.
    + set (h := run_assign_ranks active_unranked g).
      pose proof (run_assign_ranks_count active_unranked g
                    active_unranked_active) as Hle.
      pose proof (run_assign_ranks_settled active_unranked g Hfin) as Hs.
      fold h in Hle, Hs.
      unfold check_game_end.
      rewrite bool_decide_eq_true_2
        by (change (count_active_players h ≤ 1); lia).
      rewrite run_assign_ranks_none by exact Hs.
      rewrite (bool_decide_eq_true_2 _ Hc). reflexivity.
    + unfold check_game_end. by rewrite bool_decide_eq_false_2.
Qed.

(** ** The deck and the order of a hand *)

(** [full_deck] holds 52 cards, every card exactly once. *)
Theorem full_deck_complete :
  length full_deck = 52 ∧ NoDup full_deck ∧ ∀ c : Card, c ∈ full_deck.
Proof.
  split; [reflexivity|]. split.
  - apply (bool_decide_unpack _). vm_compute. exact I.
  - intros [[] []]; apply (bool_decide_unpack _); vm_compute; exact I.
Qed.

Lemma suit_index_inj (s t : Suit) : suit_index s = suit_index t → s = t.
Proof. by destruct s, t. Qed.

Lemma RANK_VALUE_inj (r t : Rank) : RANK_VALUE r = RANK_VALUE t → r = t.
Proof. by destruct r, t. Qed.

Lemma key_leb_spec (c d : Card) :
  key_leb c d = true
  ↔ (suit_index (suit c) < suit_index (suit d)
     ∨ suit_index (suit c) = suit_index (suit d) ∧ value c ≤ value d)%Z.
Proof.
  unfold key_leb.
  rewrite orb_true_iff, andb_true_iff, Z.ltb_lt, Z.eqb_eq, Z.leb_le. tauto.
Qed.

Lemma key_le_total (c d : Card) : key_le c d ∨ key_le d c.
Proof. unfold key_le. rewrite !key_leb_spec. lia. Qed.

#[local] Instance key_le_trans : Transitive key_le.
Proof. intros c d e. unfold key_le. rewrite !key_leb_spec. lia. Qed.

#[local] Instance key_le_antisym : AntiSymm (=) key_le.
Proof.
  intros [r s] [r' s']. unfold key_le. rewrite !key_leb_spec.
  unfold value. simpl. intros H1 H2.
  assert (suit_index s = suit_index s') as Hs by lia.
  assert (RANK_VALUE r = RANK_VALUE r') as Hr by lia.
  by rewrite (suit_index_inj _ _ Hs), (RANK_VALUE_inj _ _ Hr).
Qed.

Lemma insert_card_sorted (c : Card) (l : list Card) :
  StronglySorted key_le l → StronglySorted key_le (insert_card c l).
Proof.
  induction 1 as [|d l Hl IH Hd]; simpl.
  - repeat constructor.
  - destruct (key_leb c d) eqn:E.
    + constructor; [by constructor|]. constructor; [done|].
      eapply Forall_impl; [exact Hd|]. intros e He. by etrans.
    + constructor; [done|]. rewrite insert_card_perm. constructor; [|done].
      destruct (key_le_total c d) as [H|H]; [|done].
      unfold key_le in H. congruence.
Qed.

Lemma sort_cards_sorted (l : list Card) : StronglySorted key_le (sort_cards l).
Proof.
  induction l as [|c l IH]; simpl; [constructor|]. by apply insert_card_sorted.
Qed.

Lemma sort_cards_perm_eq (l l' : list Card) :
  l ≡ₚ l' → sort_cards l = sort_cards l'.
Proof.
  intros Hl. apply (StronglySorted_unique key_le); try apply sort_cards_sorted.
  by rewrite !sort_cards_perm.
Qed.

(** [sort_hand] rearranges the hand in the order of the key (suits in the
    order of [SUITS], then by value): the result has the same cards, is
    sorted, and depends only on which cards the hand holds, not on their
    order. [pick_up] yields the sorted union of the hand and the cards
    picked up and touches nothing else of the player. *)
Theorem sort_hand_spec (p : Player) (cs : list Card) :
  hand (sort_hand p) ≡ₚ hand p
  ∧ StronglySorted key_le (hand (sort_hand p))
  ∧ (∀ q, hand q ≡ₚ hand p → hand (sort_hand q) = hand (sort_hand p))
  ∧ hand (pick_up p cs) ≡ₚ hand p ++ cs
  ∧ StronglySorted key_le (hand (pick_up p cs))
  ∧ pick_up p cs = set_hand p (hand (pick_up p cs)).
Proof.
  simpl. split; [apply sort_cards_perm|]. split; [apply sort_cards_sorted|].
  split; [intros q; apply sort_cards_perm_eq|].
  split; [apply sort_cards_perm|]. split; [apply sort_cards_sorted|done].
Qed.

(** The order in which [random.shuffle] leaves the cards of a tochoo has
    no effect on the game: the recipient's hand is sorted right after the
    pickup, so two shuffles give the same commit. *)
Theorem commit_ignores_shuffle_order (sh1 sh2 : list Card → list Card)
    (t : option bool) (g : Game) :
  (∀ l, sh1 l ≡ₚ l) → (∀ l, sh2 l ≡ₚ l) →
  actually_resolve_trick sh1 t g = actually_resolve_trick sh2 t g.
Proof.
  intros H1 H2. unfold actually_resolve_trick.
  destruct (default (pending_tochoo g) t); [|done].
  assert (∀ p, pick_up p (sh1 (trick_cards g).*2)
               = pick_up p (sh2 (trick_cards g).*2)) as Hp.
  { intros p. unfold pick_up, sort_hand. simpl. f_equal.
    apply sort_cards_perm_eq. by rewrite H1, H2. }
  destruct (seat g (trick_winner g)) as [p|]; [|done]. cbn [rbind].
  assert (update_player (trick_winner g)
            (λ p, pick_up p (sh1 (trick_cards g).*2)) g
          = update_player (trick_winner g)
              (λ p, pick_up p (sh2 (trick_cards g).*2)) g) as ->; [|done].
  unfold update_player. f_equal. apply list_alter_ext; [|done]. auto.
Qed.

Lemma commit_ignores_shuffle_order_witness :
  actually_resolve_trick (shuffle_to deal_short_game) None demo_tochoo
  = actually_resolve_trick reverse None demo_tochoo.
Proof.
  apply commit_ignores_shuffle_order.
  - apply shuffle_to_perm. apply (bool_decide_unpack _). vm_compute. exact I.
  - intros l. apply reverse_Permutation.
Defined.

(** ** The deal *)

Lemma deal_count_sum (len pc i k : nat) :
  sum_list (deal_count len pc <$> seq i k)
  = k * (len / pc)
    + (min (i + k) (len - len / pc * pc) - min i (len - len / pc * pc)).
Proof.
  unfold deal_count.
  generalize (len - len / pc * pc) as r. generalize (len / pc) as q.
  intros q r. revert i. induction k as [|k IH]; intros i.
  - simpl. lia.
  - cbn [seq fmap list_fmap sum_list sum_list_with]. 
    change (list_fmap _ _ ?f ?l) with (f <$> l). rewrite IH. unfold id.
    case_bool_decide; lia.
Qed.

Lemma deal_count_prefix (len pc k : nat) :
  pc ≠ 0 → k ≤ pc →
  sum_list (deal_count len pc <$> seq 0 k) ≤ len
  ∧ (k = pc → sum_list (deal_count len pc <$> seq 0 k) = len).
Proof.
  intros Hpc Hk. rewrite deal_count_sum.
  pose proof (Nat.div_mod_eq len pc) as Hd.
  pose proof (Nat.mod_upper_bound len pc Hpc) as Hm.
  revert Hd Hm. generalize (len mod pc) as m. generalize (len / pc) as q.
  intros q m Hd Hm. split; [nia|intros ->; nia].
Qed.

Lemma deal_count_mod (pc i : nat) :
  pc ≠ 0 →
  deal_count 52 pc i = 52 / pc + (if bool_decide (i < 52 mod pc) then 1 else 0).
Proof.
  intros Hpc. unfold deal_count.
  assert (52 - 52 / pc * pc = 52 mod pc) as ->; [|done].
  pose proof (Nat.div_mod_eq 52 pc) as Hd. revert Hd.
  generalize (52 mod pc) as m. generalize (52 / pc) as q. intros q m Hd. lia.
Qed.

Lemma deal_ok (d : list Card) (pc : nat) (ps : list Player) (i pos : nat) :
  i + length ps ≤ pc →
  pos + sum_list (deal_count (length d) pc <$> seq i (length ps)) ≤ length d →
  ∃ qs, deal d pc i pos ps = Ok qs
        ∧ mjoin (hand <$> qs)
          ≡ₚ take (sum_list (deal_count (length d) pc <$> seq i (length ps)))
               (drop pos d)
        ∧ Forall2 (λ p q, name q = name p ∧ is_human q = is_human p) ps qs
        ∧ ∀ j q, qs !! j = Some q →
                 length (hand q) = deal_count (length d) pc (i + j)
                 ∧ StronglySorted key_le (hand q).
Proof.
  revert i pos. induction ps as [|p ps IH]; intros i pos Hi Hpos.
  - exists []. split; [done|]. split; [done|]. split; [constructor|].
    intros j q. by rewrite lookup_nil.
  - cbn [length seq fmap list_fmap sum_list sum_list_with] in Hi, Hpos |- *.
    change (list_fmap _ _ ?f ?l) with (f <$> l) in *. unfold id in *.
    cbn [deal]. rewrite bool_decide_eq_false_2 by lia.
    rewrite bool_decide_eq_false_2 by lia.
    destruct (IH (S i) (pos + deal_count (length d) pc i))
      as (qs & -> & Hperm & Hf & Hlen); [lia|lia|].
    eexists. split; [done|]. split; [|split].
    + cbn [fmap list_fmap mjoin list_join hand].
      change (list_fmap _ _ ?f ?l) with (f <$> l).
      rewrite sort_cards_perm, Hperm, <- take_take_drop. by rewrite drop_drop.
    + by constructor.
    + intros [|j] q.
      * intros [= <-]. cbn [hand]. split; [|apply sort_cards_sorted].
        rewrite sort_cards_perm, length_take, length_drop, Nat.add_0_r. lia.
      * intros Hq. destruct (Hlen _ _ Hq) as [-> Hs]. split; [|done].
        f_equal. lia.
Qed.

(** When it raises, the dealing loop raises [IndexError], and it does so
    whenever there are more seats than entries in [counts]. *)
Lemma deal_raises (d : list Card) (pc : nat) (ps : list Player) (i pos : nat) :
  i ≤ pc →
  (∀ e, deal d pc i pos ps = Raise e → e = IndexError)
  ∧ (pc < i + length ps → deal d pc i pos ps = Raise IndexError).
Proof.
  revert i pos. induction ps as [|p ps IH]; intros i pos Hi; cbn [deal length].
  - split; [done|lia].
  - case_bool_decide; [split; [congruence|done]|].
    case_bool_decide; [split; [congruence|done]|].
    destruct (IH (S i) (pos + deal_count (length d) pc i)) as [H1 H2]; [lia|].
    destruct (deal d pc (S i) _ ps) as [qs|e] eqn:E; cbn [rbind].
    + split; [done|]. intros Hlt.
      assert (Ok qs = Raise IndexError :> result (list Player)) as Habs
        by (apply H2; lia).
      discriminate Habs.
    + split; [intros e' [= <-]; by apply H1|].
      intros _. by rewrite (H1 e).
Qed.

Lemma existsb_ace (h : list Card) :
  existsb is_ace_of_spades h = true ↔ mkCard RA Spades ∈ h.
Proof.
  rewrite existsb_exists. split.
  - intros (c & Hc & E). rewrite is_ace_of_spades_spec in E.
    apply bool_decide_eq_true in E as ->. by apply list_elem_of_In.
  - intros Hc. exists (mkCard RA Spades). by rewrite <- list_elem_of_In.
Qed.

Lemma find_starter_spec (ps : list Player) :
  match find_starter ps with
  | Some i => (∃ p, ps !! i = Some p ∧ mkCard RA Spades ∈ hand p)
              ∧ ∀ j q, ps !! j = Some q → j < i → mkCard RA Spades ∉ hand q
  | None => ∀ q, q ∈ ps → mkCard RA Spades ∉ hand q
  end.
Proof.
  unfold find_starter.
  destruct (list_find _ ps) as [[i p]|] eqn:E; simpl.
  - apply list_find_Some in E as (Hp & Ha & Hbefore). split.
    + exists p. split; [done|]. by apply existsb_ace.
    + intros j q Hq Hj Hin. by apply (Hbefore j q Hq Hj), existsb_ace.
  - apply list_find_None in E. intros q Hq Hin.
    by apply (proj1 (Forall_forall _ _) E q Hq), existsb_ace.
Qed.

Lemma mjoin_NoDup_unique {A} (ls : list (list A)) (i j : nat) (l k : list A)
    (x : A) :
  NoDup (mjoin ls) → ls !! i = Some l → ls !! j = Some k →
  x ∈ l → x ∈ k → i = j.
Proof.
  revert i j. induction ls as [|l0 ls IH]; intros i j Hnd Hi Hj Hl Hk.
  - by rewrite lookup_nil in Hi.
  - simpl in Hnd. apply NoDup_app in Hnd as (_ & Hdis & Hnd).
    assert (∀ n m, ls !! n = Some m → x ∈ m → x ∈ mjoin ls) as Hin.
    { intros n m Hn Hm. apply list_elem_of_join. exists m. split; [done|].
      by eapply list_elem_of_lookup_2. }
    destruct i as [|i], j as [|j]; simpl in Hi, Hj.
    + done.
    + injection Hi as ->. destruct (Hdis x Hl). by eapply Hin.
    + injection Hj as ->. destruct (Hdis x Hk). by eapply Hin.
    + f_equal. by eapply IH.
Qed.

Section Deal.

Variable shuffle : list Card → list Card.
Variable randrange : nat → nat.
Hypothesis shuffle_perm : ∀ l, shuffle l ≡ₚ l.

(** [start_game] on a table with as many seats as [player_count], at
    least one, never raises. The hands are a partition of the 52 cards:
    seat [i] holds [52 // n] cards, one more for the first [52 % n]
    seats, in sorted order; names and seat types are kept. The seat that
    holds the Ace of Spades, and no other, is the leader and the seat to
    move, on the first move of a game in state play with an empty trick
    and an empty discard pile. *)
Theorem start_game_deals (g0 : Game) :
  player_count g0 ≠ 0 → length (players g0) = player_count g0 →
  ∃ g, start_game shuffle randrange g0 = Ok g
       ∧ mjoin (hand <$> players g) ≡ₚ full_deck
       ∧ Forall2 (λ p q, name q = name p ∧ is_human q = is_human p)
           (players g0) (players g)
       ∧ (∀ i p, players g !! i = Some p →
                 length (hand p)
                 = 52 / player_count g0
                   + (if bool_decide (i < 52 mod player_count g0) then 1 else 0)
                 ∧ StronglySorted key_le (hand p)
                 ∧ (mkCard RA Spades ∈ hand p ↔ i = leader_index g))
       ∧ leader_index g < length (players g)
       ∧ active_index g = Some (leader_index g)
       ∧ first_move g = true ∧ state g = Play
       ∧ all_cards g = mjoin (hand <$> players g).
Proof using shuffle_perm.
  intros Hpc Hlen.
  assert (length (shuffle full_deck) = 52) as Hd.
  { by rewrite shuffle_perm. }
  destruct (deal_count_prefix 52 (player_count g0) (length (players g0)))
    as [Hle Heq]; [done|lia|]. specialize (Heq Hlen).
  destruct (deal_ok (shuffle full_deck) (player_count g0) (players g0) 0 0)
    as (ps & Hdeal & Hperm & Hf & Hhands); [lia|rewrite Hd; lia|].
  rewrite Hd, Heq, drop_0 in Hperm.
  rewrite take_ge, shuffle_perm in Hperm by lia.
  assert (NoDup (mjoin (hand <$> ps))) as Hnd.
  { rewrite Hperm. apply (bool_decide_unpack _). vm_compute. exact I. }
  assert (∃ i p, ps !! i = Some p ∧ mkCard RA Spades ∈ hand p)
    as (i0 & p0 & Hp0 & Hin0).
  { assert (mkCard RA Spades ∈ mjoin (hand <$> ps)) as Hin.
    { rewrite Hperm. apply (bool_decide_unpack _). vm_compute. exact I. }
    apply list_elem_of_join in Hin as (h & Hin & Hh).
    apply list_elem_of_fmap in Hh as (p & -> & Hp).
    apply list_elem_of_lookup in Hp as [i Hp]. eauto. }
  pose proof (find_starter_spec ps) as Hfs.
  unfold start_game. rewrite bool_decide_eq_false_2 by done.
  rewrite Hdeal. cbn [rbind].
  destruct (find_starter ps) as [s|].
  - destruct Hfs as [(p & Hp & Hin) _]. cbn [rbind]. eexists. split; [done|].
    cbn [players leader_index active_index first_move state].
    split; [done|]. split; [done|]. split; [|split].
    + intros i q Hq. destruct (Hhands _ _ Hq) as [Hl Hs].
      split; [|split; [done|]].
      * rewrite Hl, Hd. by apply deal_count_mod.
      * split.
        -- intros Hiq.
           apply (mjoin_NoDup_unique (hand <$> ps) i s (hand q) (hand p)
                    (mkCard RA Spades)); try done.
           ++ by rewrite list_lookup_fmap, Hq.
           ++ by rewrite list_lookup_fmap, Hp.
        -- intros ->. by simplify_eq.
    + by eapply lookup_lt_Some.
    + split; [done|]. split; [done|]. split; [done|].
      unfold all_cards. simpl. by rewrite app_nil_r.
  - destruct (Hfs p0); [by eapply list_elem_of_lookup_2|done].
Qed.

(** [start_game] raises [ZeroDivisionError] when [player_count] is zero,
    [IndexError] when there are more seats than [player_count] and
    [ValueError] (from [random.randrange(0)]) when there is no seat; in
    every other case it returns. *)
Theorem start_game_raises (g0 : Game) :
  (player_count g0 = 0 →
   start_game shuffle randrange g0 = Raise ZeroDivisionError)
  ∧ (player_count g0 ≠ 0 → player_count g0 < length (players g0) →
     start_game shuffle randrange g0 = Raise IndexError)
  ∧ (player_count g0 ≠ 0 → players g0 = [] →
     start_game shuffle randrange g0 = Raise ValueError)
  ∧ (player_count g0 ≠ 0 → length (players g0) ≤ player_count g0 →
     players g0 ≠ [] → ∃ g, start_game shuffle randrange g0 = Ok g).
Proof using shuffle_perm.
  assert (length (shuffle full_deck) = 52) as Hd.
  { by rewrite shuffle_perm. }
  split; [|split; [|split]].
  - intros Hpc. unfold start_game. by rewrite bool_decide_eq_true_2.
  - intros Hpc Hlt. unfold start_game. rewrite bool_decide_eq_false_2 by done.
    destruct (deal_raises (shuffle full_deck) (player_count g0) (players g0) 0 0)
      as [_ Hraise]; [lia|].
    by rewrite Hraise by lia.
  - intros Hpc Hnil. unfold start_game. rewrite bool_decide_eq_false_2 by done.
    by rewrite Hnil.
  - intros Hpc Hlen Hnil.
    destruct (deal_count_prefix 52 (player_count g0) (length (players g0)))
      as [Hle _]; [done|lia|].
    destruct (deal_ok (shuffle full_deck) (player_count g0) (players g0) 0 0)
      as (ps & Hdeal & _ & Hf & _); [lia|rewrite Hd; lia|].
    unfold start_game. rewrite bool_decide_eq_false_2 by done.
    rewrite Hdeal. cbn [rbind].
    destruct (find_starter ps); cbn [rbind]; [by eexists|].
    rewrite bool_decide_eq_false_2; [by eexists|].
    apply Forall2_length in Hf. destruct (players g0); [done|].
    simpl in Hf. lia.
Qed.

End Deal.

Lemma start_game_deals_witness :
  player_count (cpu_table 3) ≠ 0
  ∧ length (players (cpu_table 3)) = player_count (cpu_table 3)
  ∧ ∃ g, start_game reverse (λ _, 0) (cpu_table 3) = Ok g
         ∧ mjoin (hand <$> players g) ≡ₚ full_deck
         ∧ leader_index g < length (players g).
Proof.
  assert (player_count (cpu_table 3) ≠ 0) as Hpc by (simpl; lia).
  split; [exact Hpc|]. split; [reflexivity|].
  destruct (start_game_deals reverse (λ _, 0) reverse_Permutation (cpu_table 3)
              Hpc eq_refl)
    as (g & Hg & Hperm & _ & _ & Hl & _).
  exists g. split; [exact Hg|]. split; [exact Hperm|exact Hl].
Defined.

Lemma start_game_raises_witness :
  start_game reverse (λ _, 0) (cpu_table 0) = Raise ZeroDivisionError
  ∧ start_game reverse (λ _, 0) (set_players (players (cpu_table 4)) (cpu_table 3))
    = Raise IndexError
  ∧ start_game reverse (λ _, 0) (set_players [] (cpu_table 3)) = Raise ValueError.
Proof.
  split; [|split].
  - apply (start_game_raises reverse (λ _, 0) reverse_Permutation (cpu_table 0)).
    reflexivity.
  - apply (start_game_raises reverse (λ _, 0) reverse_Permutation
             (set_players (players (cpu_table 4)) (cpu_table 3))); simpl; lia.
  - apply (start_game_raises reverse (λ _, 0) reverse_Permutation
             (set_players [] (cpu_table 3))); [simpl; lia|reflexivity].
Defined.

(** ** Conservation of the cards *)

Lemma py_pop_perm {A} (l : list A) (i : Z) (popped : A * list A) :
  py_pop l i = Ok popped → l ≡ₚ popped.1 :: popped.2.
Proof.
  unfold py_pop. destruct (py_pos (length l) i) as [k|]; [|done].
  destruct (l !! k) as [x|] eqn:E; [|done]. intros [= <-]. simpl.
  by apply delete_Permutation.
Qed.

Lemma hands_take_card (ps : list Player) (i : nat) (p q : Player) (c : Card) :
  ps !! i = Some p → hand p ≡ₚ c :: hand q →
  mjoin (hand <$> ps) ≡ₚ c :: mjoin (hand <$> <[i:=q]> ps).
Proof.
  revert i. induction ps as [|p0 ps IH]; intros [|i] Hp Hh; simplify_eq/=.
  - by rewrite Hh.
  - rewrite (IH _ Hp Hh). by rewrite Permutation_middle.
Qed.

Lemma hands_add_cards (ps : list Player) (i : nat) (p q : Player)
    (cs : list Card) :
  ps !! i = Some p → hand q ≡ₚ hand p ++ cs →
  mjoin (hand <$> <[i:=q]> ps) ≡ₚ mjoin (hand <$> ps) ++ cs.
Proof.
  revert i. induction ps as [|p0 ps IH]; intros [|i] Hp Hh; simplify_eq/=.
  - rewrite Hh, <- !(assoc_L (++)). f_equiv. apply (comm (++)).
  - by rewrite (IH _ Hp Hh), (assoc_L (++)).
Qed.

Lemma hand_clear_pickup (p : Player) : hand (clear_pickup p) = hand p.
Proof. unfold clear_pickup. by destruct (just_picked_up p). Qed.

Lemma table_state_cards (g g' : Game) :
  table_state g' = table_state g → all_cards g' = all_cards g.
Proof.
  unfold table_state, all_cards. intros H. injection H as Hp Ht _ _ _ _ Hd.
  by rewrite Hp, Ht, Hd.
Qed.

Lemma all_cards_after_play (g g' : Game) (i : nat) (p q : Player)
    (popped : Card * list Card) :
  players g !! i = Some p → hand p ≡ₚ popped.1 :: popped.2 →
  hand q = popped.2 →
  hand <$> players g' = hand <$> <[i:=q]> (players g) →
  trick_cards g' = trick_cards g ++ [(i, popped.1)] →
  discard_pile g' = discard_pile g →
  all_cards g' ≡ₚ all_cards g.
Proof.
  intros Hp Hh Hq Hps Ht Hd. unfold all_cards. rewrite Hps, Ht, Hd.
  rewrite <- Hq in Hh. rewrite (hands_take_card _ _ _ _ _ Hp Hh).
  rewrite fmap_app. simpl. rewrite <- !(assoc_L (++)). simpl.
  rewrite !(assoc_L (++)). symmetry. apply Permutation_middle.
Qed.

Lemma attempt_play_card_cards (g g' : Game) (i : nat) (ci : Z) :
  attempt_play_card g i ci = Ok g' → all_cards g' ≡ₚ all_cards g.
Proof.
  intros Hplay.
  destruct (attempt_play_card_cases _ _ _ _ Hplay)
    as [Ht|(p & popped & Hp & Ha & _ & _ & Hpop
            & [(_ & _ & ->)|(s & _ & _ & ->)])].
  - by rewrite (table_state_cards _ _ Ht).
  - destruct (play_lead_shape g i p popped Hp Ha)
      as (Htr & _ & _ & _ & Hdp & _ & Hfor & _).
    apply Forall2_ranked_from_hands in Hfor.
    apply (all_cards_after_play g _ i p (clear_pickup (set_hand p popped.2)) popped);
      [done|by apply (py_pop_perm _ ci)|by rewrite hand_clear_pickup|done..].
  - destruct (play_follow_shape g i p s (has_suit p s) popped Hp)
      as (Htr & _ & _ & _ & Hdp & _ & _ & _ & Hps & _).
    destruct Hps as [Hps|[Hps _]].
    + apply (all_cards_after_play g _ i p (clear_pickup (set_hand p popped.2)) popped);
        [done|by apply (py_pop_perm _ ci)|by rewrite hand_clear_pickup
        |by rewrite Hps|done..].
    + apply (all_cards_after_play g _ i p (set_hand p popped.2) popped);
        [done|by apply (py_pop_perm _ ci)|done|by rewrite Hps|done..].
Qed.

Lemma finish_animation_cards (g : Game) :
  all_cards (finish_animation g) = all_cards g.
Proof.
  unfold finish_animation, resolve_trick, all_cards.
  destruct (animating g); [|done]. simpl.
  destruct (resolve_after_animation g); [|done]. simpl.
  destruct (trick_cards g) eqn:E; simpl; by rewrite ?E.
Qed.

Lemma toggle_pause_cards (g : Game) : all_cards (toggle_pause g) = all_cards g.
Proof.
  unfold toggle_pause, all_cards.
  repeat (case_bool_decide || case_match); done.
Qed.

Section Conservation.

Variable shuffle : list Card → list Card.
Hypothesis shuffle_perm : ∀ l, shuffle l ≡ₚ l.

Lemma commit_pickup_cards (t : option bool) (g h : Game) :
  commit_pickup shuffle t g = Ok h →
  mjoin (hand <$> players h) ++ discard_pile h ≡ₚ all_cards g.
Proof using shuffle_perm.
  unfold commit_pickup, all_cards.
  destruct (default (pending_tochoo g) t).
  - unfold seat. destruct (players g !! trick_winner g) as [p|] eqn:Hp; [|done].
    cbn [rbind]. intros [= <-]. unfold update_player. simpl.
    rewrite list_alter_alter, decide_True by done.
    rewrite (alter_as_insert _ _ _ _ Hp).
    rewrite (hands_add_cards _ _ p _ (trick_cards g).*2 Hp).
    + by rewrite (assoc_L (++)).
    + simpl. by rewrite sort_cards_perm, shuffle_perm.
  - intros [= <-]. simpl. f_equiv. apply (comm (++)).
Qed.

Lemma commit_cards (t : option bool) (g g' : Game) :
  actually_resolve_trick shuffle t g = Ok g' → all_cards g' ≡ₚ all_cards g.
Proof using shuffle_perm.
  rewrite actually_resolve_trick_halves.
  destruct (commit_pickup shuffle t g) as [h|] eqn:E; [|done]. cbn [rbind].
  intros [= <-].
  destruct (commit_finish_shape h)
    as (Ht & _ & _ & _ & Hd & _ & _ & _ & _ & _ & _ & _ & Hfor & _).
  apply Forall2_ranked_from_hands in Hfor.
  unfold all_cards at 1. rewrite Ht, Hd, Hfor. simpl.
  by apply commit_pickup_cards in E.
Qed.

Lemma step_cards (g g' : Game) :
  step shuffle g g' → all_cards g' ≡ₚ all_cards g.
Proof using shuffle_perm.
  destruct 1 as [g i ci g' Hplay|g|g t g' Hcommit|g|g w].
  - by eapply attempt_play_card_cards.
  - by rewrite finish_animation_cards.
  - by eapply commit_cards.
  - by rewrite toggle_pause_cards.
  - done.
Qed.

(** No operation of a game creates, loses or duplicates a card: after
    any sequence of plays, animation ends, commits, pause toggles and
    warnings the hands, the trick and the discard pile together hold the
    same cards as before. *)
Theorem cards_are_conserved (g g' : Game) :
  rtc (step shuffle) g g' → all_cards g' ≡ₚ all_cards g.
Proof using shuffle_perm.
  induction 1 as [g|g g1 g' Hstep _ IH]; [done|].
  by rewrite IH, (step_cards _ _ Hstep).
Qed.

End Conservation.

Lemma cards_are_conserved_witness :
  all_cards opening_lead ≡ₚ all_cards opening_table.
Proof.
  apply (cards_are_conserved reverse reverse_Permutation).
  apply rtc_once. apply (step_play _ _ 1 7). vm_compute. reflexivity.
Defined.

(** ** The seats of a dealt game *)

Lemma find_starter_full (ps : list Player) :
  mjoin (hand <$> ps) ≡ₚ full_deck →
  ∃ s p, find_starter ps = Some s ∧ ps !! s = Some p
         ∧ mkCard RA Spades ∈ hand p.
Proof.
  intros Hperm.
  assert (mkCard RA Spades ∈ mjoin (hand <$> ps)) as Hin.
  { rewrite Hperm. apply (bool_decide_unpack _). vm_compute. exact I. }
  apply list_elem_of_join in Hin as (h & Hin & Hh).
  apply list_elem_of_fmap in Hh as (p0 & -> & Hp0).
  pose proof (find_starter_spec ps) as Hfs.
  destruct (find_starter ps) as [s|].
  - destruct Hfs as [(p & Hp & Hace) _]. by exists s, p.
  - by destruct (Hfs p0 Hp0).
Qed.

Lemma check_game_end_active (g : Game) :
  active_index (check_game_end g) = active_index g
  ∧ leader_index (check_game_end g) = leader_index g
  ∧ trick_cards (check_game_end g) = trick_cards g.
Proof.
  unfold check_game_end. case_bool_decide; [|done].
  unfold run_assign_ranks. by destruct (assign_ranks _ _ _ _) as [[? ?] ?].
Qed.

Lemma next_active_index_lt (g : Game) (current a : nat) :
  next_active_index g current = Some a → a < length (players g).
Proof.
  unfold next_active_index. case_bool_decide as Hn; [done|]. intros [= <-].
  destruct (next_active_loop_spec (players g) (length (players g))
              ((current + 1) mod length (players g)))
    as (d & _ & -> & _); by apply Nat.mod_upper_bound.
Qed.

Lemma play_lead_active (g : Game) (i : nat) (p : Player)
    (popped : Card * list Card) :
  active_index (play_lead g i p popped)
  = next_active_index (update_player i (λ p, set_hand p popped.2) g) i.
Proof.
  unfold play_lead. cbv zeta.
  case_bool_decide.
  - unfold update_player at 1. cbn [active_index set_players].
    unfold finish_player. cbv zeta.
    match goal with
    | |- context [check_game_end ?x] =>
        destruct (check_game_end_active x) as [-> _]
    end.
    simpl. by destruct (first_move g).
  - simpl. by destruct (first_move g).
Qed.

Lemma table_state_seats (g g' : Game) :
  table_state g' = table_state g → seats_valid g → seats_valid g'.
Proof.
  intros H. destruct (table_state_fields _ _ H) as (Hp & Ht & _ & Hl & Ha).
  unfold seats_valid. by rewrite Hp, Ht, Hl, Ha.
Qed.

Lemma attempt_play_card_seats (g g' : Game) (i : nat) (ci : Z) :
  attempt_play_card g i ci = Ok g' → seats_valid g → seats_valid g'.
Proof.
  intros Hplay (Hl & Ha & Ht).
  destruct (attempt_play_card_cases _ _ _ _ Hplay)
    as [Hts|(p & popped & Hp & Hact & _ & _ & Hpop
             & [(_ & _ & ->)|(s & _ & _ & ->)])].
  - by apply (table_state_seats g).
  - destruct (play_lead_shape g i p popped Hp Hact)
      as (Htr & _ & _ & Hld & _ & _ & Hfor & _).
    apply Forall2_length in Hfor. rewrite length_insert in Hfor.
    unfold seats_valid. rewrite <- Hfor, Htr, Hld, play_lead_active.
    split; [done|]. split.
    + intros a Hna. apply next_active_index_lt in Hna.
      by rewrite (update_player_players i (λ q, set_hand q popped.2) g p Hp),
        length_insert in Hna.
    + intros t [Hin|Hin]%elem_of_app; [by apply Ht|].
      apply list_elem_of_singleton in Hin as ->. by eapply lookup_lt_Some.
  - destruct (play_follow_shape g i p s (has_suit p s) popped Hp)
      as (Htr & _ & _ & Hld & _ & _ & _ & _ & Hps & _ & Hai).
    assert (length (players (play_follow g i s (has_suit p s) popped))
            = length (players g)) as Hlen.
    { destruct Hps as [->|[-> _]]; by rewrite length_insert. }
    unfold seats_valid. rewrite Hlen, Htr, Hld, Hai.
    split; [done|]. split.
    + destruct (bool_decide (suit popped.1 ≠ s) && negb (has_suit p s));
        [done|].
      intros a Hna. apply next_active_index_lt in Hna.
      by rewrite (update_player_players i (λ q, set_hand q popped.2) g p Hp),
        length_insert in Hna.
    + intros t [Hin|Hin]%elem_of_app; [by apply Ht|].
      apply list_elem_of_singleton in Hin as ->. by eapply lookup_lt_Some.
Qed.

Lemma finish_animation_seats (g : Game) :
  seats_valid g → seats_valid (finish_animation g).
Proof.
  destruct (finish_animation_table g) as (Hp & Ht & _ & Hl & Ha).
  unfold seats_valid. by rewrite Hp, Ht, Hl, Ha.
Qed.

Lemma toggle_pause_seats (g : Game) :
  seats_valid g → seats_valid (toggle_pause g).
Proof.
  destruct (toggle_pause_table g) as (Hp & Ht & _ & Hl & Ha).
  unfold seats_valid. by rewrite Hp, Ht, Hl, Ha.
Qed.

Section Seats.

Variable shuffle : list Card → list Card.

Lemma after_pickup_length (t : option bool) (g : Game) :
  length (after_pickup shuffle t g) = length (players g).
Proof.
  unfold after_pickup. destruct (default _ _); [|done]. by rewrite length_alter.
Qed.

Lemma commit_seats (t : option bool) (g g' : Game) :
  actually_resolve_trick shuffle t g = Ok g' →
  seats_valid g → seats_valid g'.
Proof.
  intros Hc (Hl & Ha & Ht).
  destruct (commit_cases shuffle _ _ _ Hc)
    as (Hld & Hai & Htr & _ & _ & Hfor & _).
  apply Forall2_length in Hfor. rewrite after_pickup_length in Hfor.
  unfold seats_valid. rewrite <- Hfor, Hld, Hai, Htr.
  pose proof (trick_winner_seat g Ht Hl) as Hw.
  split; [done|]. split; [by intros a [= <-]|].
  intros t' Hin. by apply elem_of_nil in Hin.
Qed.

Lemma step_seats (g g' : Game) :
  step shuffle g g' → seats_valid g → seats_valid g'.
Proof.
  destruct 1 as [g i ci g' Hplay|g|g t g' Hcommit|g|g w].
  - by eapply attempt_play_card_seats.
  - apply finish_animation_seats.
  - by eapply commit_seats.
  - apply toggle_pause_seats.
  - done.
Qed.

Lemma steps_seats (g g' : Game) :
  rtc (step shuffle) g g' → seats_valid g → seats_valid g'.
Proof.
  induction 1 as [g|g g1 g' Hstep _ IH]; [done|].
  intros Hg. apply IH. by eapply step_seats.
Qed.

(** With valid seats the commit returns. *)
Lemma commit_returns (t : option bool) (g : Game) :
  seats_valid g → ∃ g', actually_resolve_trick shuffle t g = Ok g'.
Proof.
  intros (Hl & _ & Ht).
  destruct (lookup_lt_is_Some_2 (players g) (trick_winner g)) as [p Hp].
  { by apply trick_winner_seat. }
  destruct (commit_shape shuffle t g p Hp) as (g' & Hg' & _). by exists g'.
Qed.

End Seats.

(** A play of a seat of the table with an index inside its hand returns. *)
Lemma attempt_play_card_returns (g : Game) (i : nat) (p : Player) (ci : Z) :
  players g !! i = Some p → is_Some (py_pos (length (hand p)) ci) →
  ∃ g', attempt_play_card g i ci = Ok g'.
Proof.
  intros Hp [k Hk]. unfold attempt_play_card.
  destruct (animating g); [by eexists|].
  rewrite (seat_lookup _ _ _ Hp). cbn [rbind].
  case_bool_decide; [by eexists|].
  destruct (negb (is_active p)); [by eexists|].
  destruct (lookup_lt_is_Some_2 (hand p) k) as [c Hc].
  { by eapply py_pos_lt. }
  assert (py_index (hand p) ci = Ok c) as ->.
  { unfold py_index. by rewrite Hk, Hc. }
  assert (py_pop (hand p) ci = Ok (c, delete k (hand p))) as ->.
  { unfold py_pop. by rewrite Hk, Hc. }
  cbn [rbind].
  destruct (required_suit g) as [s|].
  - destruct (_ && _); by eexists.
  - destruct (_ && _); by eexists.
Qed.

(** The index the CPU chooses is an index of the hand. *)
Lemma cpu_choose_in_hand (g : Game) (i : nat) (p : Player) :
  players g !! i = Some p →
  ∃ r, cpu_choose_card_index g i = Ok r
       ∧ ∀ k, r = Some k → k < length (hand p).
Proof.
  intros Hp. unfold cpu_choose_card_index.
  rewrite (seat_lookup _ _ _ Hp). cbn [rbind].
  destruct (hand p) as [|c0 h0] eqn:Hh; [by eexists|].
  rewrite <- Hh. clear Hh c0 h0.
  assert (∀ t : nat * Card, hand p !! t.1 = Some t.2 → t.1 < length (hand p))
    as Hlt by (intros t Ht; by eapply lookup_lt_Some).
  assert (∀ o : option (nat * Card),
            (∀ t, o = Some t → hand p !! t.1 = Some t.2) →
            ∃ r, Ok (fst <$> o) = Ok r ∧ ∀ k, r = Some k → k < length (hand p))
    as Hlast.
  { intros o Ho. eexists. split; [done|].
    intros k Hk. destruct o as [t|]; [|done]. injection Hk as <-.
    by apply Hlt, Ho. }
  assert (∀ t : nat * Card, hand p !! t.1 = Some t.2 →
            ∃ r, Ok (Some t.1) = Ok r ∧ ∀ k, r = Some k → k < length (hand p))
    as Hsome.
  { intros t Ht. eexists. split; [done|]. intros k [= <-]. by apply Hlt. }
  destruct (required_suit g) as [s|].
  - destruct (py_min card_value_at (same_suit_indices s (hand p))) as [t|] eqn:E1.
    { apply Hsome. apply py_min_spec in E1 as [E1 _].
      by apply same_suit_indices_elem in E1 as [E1 _]. }
    destruct (active_avoid_suit p ≫= _) as [t|] eqn:E2.
    { apply Hsome. destruct (active_avoid_suit p) as [a|]; [|done]. simpl in E2.
      apply py_max_spec in E2 as [E2 _].
      by apply non_avoid_elem in E2 as [E2 _]. }
    apply Hlast. intros t Ht. apply py_max_spec in Ht as [Ht _].
    by apply enumerate_elem in Ht.
  - destruct (if first_move g && bool_decide (Some i = active_index g)
              then list_find (λ c, is_ace_of_spades c = true) (hand p)
              else None) as [[k c]|] eqn:E0.
    { destruct (first_move g && bool_decide (Some i = active_index g)); [|done].
      apply list_find_Some in E0 as (E0 & _). by apply (Hsome (k, c)). }
    destruct (active_avoid_suit p ≫= _) as [t|] eqn:E2.
    { apply Hsome. destruct (active_avoid_suit p) as [a|]; [|done]. simpl in E2.
      apply py_min_spec in E2 as [E2 _].
      by apply non_avoid_elem in E2 as [E2 _]. }
    apply Hlast. intros t Ht. apply py_min_spec in Ht as [Ht _].
    by apply enumerate_elem in Ht.
Qed.

(** The CPU driver returns for every seat of the table. *)
Lemma cpu_auto_play_returns (g : Game) :
  seats_valid g → ∃ g', cpu_auto_play_if_needed g = Ok g'.
Proof.
  intros (_ & Ha & _). unfold cpu_auto_play_if_needed.
  destruct (active_index g) as [a|]; [|by eexists].
  destruct (animating g); [by eexists|].
  destruct (lookup_lt_is_Some_2 (players g) a) as [p Hp]; [by apply Ha|].
  rewrite (seat_lookup _ _ _ Hp). cbn [rbind].
  destruct (negb (is_active p) || is_human p); [by eexists|].
  destruct (cpu_choose_in_hand g a p Hp) as (r & -> & Hr). cbn [rbind].
  destruct r as [k|]; [|by eexists].
  destruct (is_card_playable_in_hand g a p k Hp) as [b ->]; [by apply Hr|].
  cbn [rbind]. destruct b.
  - apply (attempt_play_card_returns g a p); [done|].
    rewrite py_pos_nat; [done|by apply Hr].
  - unfold playable_indices_for_player.
    rewrite (seat_lookup _ _ _ Hp). cbn [rbind].
    destruct (playable_among_spec g a p (seq 0 (length (hand p))) Hp)
      as (l & -> & _ & Hl).
    { intros j Hj. apply elem_of_seq in Hj. lia. }
    cbn [rbind]. destruct l as [|j l]; [by eexists|].
    apply (attempt_play_card_returns g a p); [done|].
    rewrite py_pos_nat; [done|].
    assert (j ∈ j :: l) as Hj by apply list_elem_of_here.
    apply Hl in Hj as [Hj _]. apply elem_of_seq in Hj. lia.
Qed.

Lemma update_play_returns (g : Game) :
  seats_valid g → ∃ g', update_play g = Ok g'.
Proof.
  intros Hv. unfold update_play.
  destruct (bool_decide (state g ≠ Play) || paused g); [by eexists|].
  destruct (active_index g) as [a|] eqn:Ea; [|by eexists].
  destruct (animating g); [by eexists|].
  destruct Hv as (Hl & Ha & Ht).
  destruct (lookup_lt_is_Some_2 (players g) a) as [p Hp]; [by apply Ha|].
  rewrite (seat_lookup _ _ _ Hp). cbn [rbind].
  destruct (negb (is_human p)); [|by eexists].
  by apply cpu_auto_play_returns.
Qed.

Section NeverRaises.

Variable shuffle : list Card → list Card.
Variable randrange : nat → nat.
Hypothesis shuffle_perm : ∀ l, shuffle l ≡ₚ l.

Lemma frame_returns (g : Game) :
  seats_valid g →
  ∃ g', frame shuffle g = Ok g' ∧ rtc (step shuffle) g g' ∧ seats_valid g'.
Proof.
  intros Hv. unfold frame.
  pose proof (finish_animation_seats g Hv) as Hfa.
  assert (rtc (step shuffle) g (finish_animation g)) as Hs.
  { apply rtc_once, step_animation. }
  destruct (state g); try (by exists g).
  - destruct (negb (paused (finish_animation g))); [|by eexists].
    destruct (update_play_returns _ Hfa) as [g' Hg']. exists g'.
    split; [done|].
    destruct (update_play_step _ _ Hg') as [->|(i & ci & Hplay)]; [done|].
    split; [|by eapply attempt_play_card_seats].
    eapply rtc_r; [exact Hs|]. by eapply step_play.
  - by eexists.
  - destruct (negb (paused (finish_animation g))); [|by eexists].
    destruct (commit_returns shuffle (Some (pending_tochoo (finish_animation g)))
                _ Hfa) as [g' Hg'].
    exists g'. split; [done|]. split; [|by eapply commit_seats].
    eapply rtc_r; [exact Hs|]. by eapply step_commit.
Qed.

Lemma frames_return (k : nat) (g : Game) :
  seats_valid g →
  ∃ g', frames shuffle k g = Ok g' ∧ rtc (step shuffle) g g'.
Proof.
  revert g. induction k as [|k IH]; intros g Hv; [by exists g|].
  destruct (frame_returns g Hv) as (g1 & Hg1 & Hs1 & Hv1).
  destruct (IH g1 Hv1) as (g' & Hg' & Hs').
  exists g'. cbn [frames]. rewrite Hg1. cbn [rbind].
  split; [done|]. by etrans.
Qed.

Lemma start_game_seats (g0 g : Game) :
  setup_table g0 → start_game shuffle randrange g0 = Ok g →
  seats_valid g ∧ all_cards g ≡ₚ full_deck.
Proof using shuffle_perm.
  intros [Hpc Hlen] Hstart.
  assert (length (shuffle full_deck) = 52) as Hd by (by rewrite shuffle_perm).
  destruct (deal_count_prefix 52 (player_count g0) (length (players g0)))
    as [Hle Heq]; [done|lia|]. specialize (Heq Hlen).
  destruct (deal_ok (shuffle full_deck) (player_count g0) (players g0) 0 0)
    as (ps & Hdeal & Hperm & _); [lia|rewrite Hd; lia|].
  rewrite Hd, Heq, drop_0 in Hperm.
  rewrite take_ge, shuffle_perm in Hperm by lia.
  destruct (find_starter_full ps Hperm) as (s & p & Hs & Hp & _).
  unfold start_game in Hstart. rewrite bool_decide_eq_false_2 in Hstart by done.
  rewrite Hdeal in Hstart. cbn [rbind] in Hstart. rewrite Hs in Hstart.
  cbn [rbind] in Hstart. injection Hstart as <-. split.
  - unfold seats_valid. simpl. split; [by eapply lookup_lt_Some|].
    split; [intros a [= <-]; by eapply lookup_lt_Some|].
    intros t Ht. by apply elem_of_nil in Ht.
  - unfold all_cards. simpl. by rewrite app_nil_r.
Qed.

Lemma dealt_game_seats (g : Game) :
  dealt_game shuffle randrange g → seats_valid g ∧ all_cards g ≡ₚ full_deck.
Proof using shuffle_perm.
  intros (g0 & g1 & Hsetup & Hstart & Hsteps).
  destruct (start_game_seats _ _ Hsetup Hstart) as [Hv Hc]. split.
  - by eapply steps_seats.
  - clear Hv Hstart. revert Hc.
    induction Hsteps as [g|g g2 g' Hstep _ IH]; [done|].
    intros Hc. apply IH. by rewrite (step_cards shuffle shuffle_perm _ _ Hstep).
Qed.

(** A game dealt on a table of the setup screen never raises: in every
    state it can reach, the commit of a resolution returns, a play of any
    seat of the table with any index of its hand (counted from the front
    or, negative, from the back) returns, the CPU driver returns, and any
    number of iterations of the loop return, in a state of the same game. *)
Theorem dealt_game_never_raises (g : Game) :
  dealt_game shuffle randrange g →
  (∀ t, ∃ g', actually_resolve_trick shuffle t g = Ok g')
  ∧ (∀ i p ci, players g !! i = Some p →
               (- Z.of_nat (length (hand p)) ≤ ci < Z.of_nat (length (hand p)))%Z →
               ∃ g', attempt_play_card g i ci = Ok g')
  ∧ (∃ g', update_play g = Ok g')
  ∧ ∀ k, ∃ g', frames shuffle k g = Ok g' ∧ dealt_game shuffle randrange g'.
Proof using shuffle_perm.
  intros Hg. destruct (dealt_game_seats g Hg) as [Hv _].
  split; [intros t; by apply commit_returns|].
  split.
  { intros i p ci Hp Hci. apply (attempt_play_card_returns g i p); [done|].
    unfold py_pos.
    destruct (0 <=? ci)%Z eqn:E0.
    - rewrite (proj2 (Z.ltb_lt _ _)) by lia. done.
    - rewrite (proj2 (Z.leb_le _ _)) by lia. done. }
  split; [by apply update_play_returns|].
  intros k. destruct (frames_return k g Hv) as (g' & Hg' & Hs).
  exists g'. split; [done|].
  destruct Hg as (g0 & g1 & Hsetup & Hstart & Hsteps).
  exists g0, g1. split; [done|]. split; [done|]. by etrans.
Qed.

(** In every state of a game dealt on a table of the setup screen the
    hands, the trick and the discard pile hold the 52 cards, each exactly
    once, and the leader, the seat to move and the seats of the played
    cards are seats of the table. *)
Theorem dealt_game_holds_the_deck (g : Game) :
  dealt_game shuffle randrange g →
  all_cards g ≡ₚ full_deck ∧ NoDup (all_cards g) ∧ length (all_cards g) = 52
  ∧ seats_valid g.
Proof using shuffle_perm.
  intros Hg. destruct (dealt_game_seats g Hg) as [Hv Hc].
  split; [done|]. rewrite Hc. split; [|done].
  apply (bool_decide_unpack _). vm_compute. exact I.
Qed.

End NeverRaises.

Lemma dealt_game_never_raises_witness :
  dealt_game (shuffle_to deal_short_game) (λ _, 0) opening_table
  ∧ ∃ g', frames (shuffle_to deal_short_game) 3 opening_table = Ok g'
          ∧ dealt_game (shuffle_to deal_short_game) (λ _, 0) g'.
Proof.
  assert (deal_short_game ≡ₚ full_deck) as Hd.
  { apply (bool_decide_unpack _). vm_compute. exact I. }
  assert (dealt_game (shuffle_to deal_short_game) (λ _, 0) opening_table) as Hg.
  { exists (cpu_table 3), opening_table.
    split; [split; [simpl; lia|reflexivity]|].
    split; [vm_compute; reflexivity|apply rtc_refl]. }
  split; [exact Hg|].
  exact (proj2 (proj2 (proj2
           (dealt_game_never_raises _ _ (shuffle_to_perm _ Hd) _ Hg))) 3).
Defined.

Lemma dealt_game_holds_the_deck_witness :
  dealt_game reverse (λ _, 0) (game_of (start_game reverse (λ _, 0) (cpu_table 4)))
  ∧ length (all_cards (game_of (start_game reverse (λ _, 0) (cpu_table 4)))) = 52.
Proof.
  assert (dealt_game reverse (λ _, 0)
            (game_of (start_game reverse (λ _, 0) (cpu_table 4)))) as Hg.
  { exists (cpu_table 4), (game_of (start_game reverse (λ _, 0) (cpu_table 4))).
    split; [split; [simpl; lia|reflexivity]|].
    split; [vm_compute; reflexivity|apply rtc_refl]. }
  split; [exact Hg|].
  exact (proj1 (proj2 (proj2
           (dealt_game_holds_the_deck _ _ reverse_Permutation _ Hg)))).
Defined.

(** ** The bookkeeping of the ranks *)

Lemma ranks_ok_bound (ps : list Player) (ra : nat) (fo : list (string * nat))
    (i : nat) (p : Player) (r : nat) :
  ranks_ok ps ra fo → ps !! i = Some p → finished_rank p = Some r →
  1 ≤ r ≤ ra.
Proof.
  intros (Hfo & Hps & _) Hp Hr. specialize (Hps i p Hp). rewrite Hr in Hps.
  destruct Hps as [_ Hin].
  assert (r ∈ fo.*2) as Hin'.
  { apply list_elem_of_fmap. by exists (name p, r). }
  rewrite Hfo in Hin'. apply elem_of_seq in Hin'. lia.
Qed.

(** Ranking one active seat. *)
Lemma ranks_ok_finish (ps : list Player) (ra : nat) (fo : list (string * nat))
    (i : nat) (p : Player) :
  ranks_ok ps ra fo → ps !! i = Some p → is_active p = true →
  ranks_ok (<[i := set_finished p (ra + 1)]> ps) (ra + 1)
    (fo ++ [(name p, ra + 1)]).
Proof.
  intros Hok Hp Ha. pose proof Hok as (Hfo & Hps & Hent & Huniq).
  assert (finished_rank p = None) as Hnone.
  { specialize (Hps i p Hp). destruct (finished_rank p); [|done].
    destruct Hps as [Hps _]. congruence. }
  assert (i < length ps) as Hi by (by eapply lookup_lt_Some).
  split; [|split; [|split]].
  - rewrite fmap_app, Hfo. simpl. rewrite Nat.add_1_r, seq_S. done.
  - intros j q Hq. destruct (decide (j = i)) as [->|Hne].
    + rewrite list_lookup_insert_eq in Hq by done. injection Hq as <-. simpl.
      split; [done|]. apply elem_of_app. right. apply list_elem_of_here.
    + rewrite list_lookup_insert_ne in Hq by done.
      specialize (Hps j q Hq). destruct (finished_rank q); [|done].
      destruct Hps as [? ?]. split; [done|]. apply elem_of_app. by left.
  - intros e [He|He]%elem_of_app.
    + destruct (Hent e He) as (j & q & Hq & Hn & Hr).
      exists j, q. split; [|done].
      rewrite list_lookup_insert_ne; [done|]. intros <-. congruence.
    + apply list_elem_of_singleton in He as ->.
      exists i, (set_finished p (ra + 1)).
      by rewrite list_lookup_insert_eq by done.
  - intros j k q q' r Hq Hq' Hr Hr'.
    destruct (decide (j = i)) as [->|Hj], (decide (k = i)) as [->|Hk]; [done|..].
    + rewrite list_lookup_insert_eq in Hq by done. injection Hq as <-.
      rewrite list_lookup_insert_ne in Hq' by done. simpl in Hr.
      injection Hr as <-.
      pose proof (ranks_ok_bound _ _ _ _ _ _ Hok Hq' Hr'). lia.
    + rewrite list_lookup_insert_eq in Hq' by done. injection Hq' as <-.
      rewrite list_lookup_insert_ne in Hq by done. simpl in Hr'.
      injection Hr' as <-.
      pose proof (ranks_ok_bound _ _ _ _ _ _ Hok Hq Hr). lia.
    + rewrite list_lookup_insert_ne in Hq, Hq' by done. by eapply Huniq.
Qed.

(** A change of a seat that keeps its name, activity and rank. *)
Lemma ranks_ok_alter (f : Player → Player) (i : nat) (ps : list Player)
    (ra : nat) (fo : list (string * nat)) :
  (∀ p, name (f p) = name p ∧ is_active (f p) = is_active p
        ∧ finished_rank (f p) = finished_rank p) →
  ranks_ok ps ra fo → ranks_ok (alter f i ps) ra fo.
Proof.
  intros Hf (Hfo & Hps & Hent & Huniq).
  assert (∀ j q, alter f i ps !! j = Some q →
            ∃ p, ps !! j = Some p ∧ name q = name p
                 ∧ is_active q = is_active p
                 ∧ finished_rank q = finished_rank p) as Hback.
  { intros j q Hq. destruct (decide (j = i)) as [->|Hne].
    - rewrite list_lookup_alter_eq in Hq.
      destruct (ps !! i) as [p|]; [|done]. injection Hq as <-.
      exists p. split; [done|]. apply Hf.
    - rewrite list_lookup_alter_ne in Hq by done. by exists q. }
  split; [done|]. split; [|split].
  - intros j q Hq. destruct (Hback j q Hq) as (p & Hp & -> & -> & ->).
    by apply (Hps j).
  - intros e He. destruct (Hent e He) as (j & p & Hp & Hn & Hr).
    destruct (decide (j = i)) as [->|Hne].
    + exists i, (f p). rewrite list_lookup_alter_eq, Hp. split; [done|].
      destruct (Hf p) as (-> & _ & ->). done.
    + exists j, p. by rewrite list_lookup_alter_ne by done.
  - intros j k q q' r Hq Hq' Hr Hr'.
    destruct (Hback j q Hq) as (p & Hp & _ & _ & Hrp).
    destruct (Hback k q' Hq') as (p' & Hp' & _ & _ & Hrp').
    rewrite Hrp in Hr. rewrite Hrp' in Hr'. by eapply Huniq.
Qed.

Lemma assign_ranks_ok (cond : Player → bool) (ps pre : list Player)
    (ra : nat) (fo : list (string * nat)) :
  (∀ p, cond p = true → is_active p = true) →
  ranks_ok (pre ++ ps) ra fo →
  ranks_ok (pre ++ (assign_ranks cond ps ra fo).1.1)
    (assign_ranks cond ps ra fo).1.2 (assign_ranks cond ps ra fo).2.
Proof.
  intros Hcond. revert pre ra fo.
  induction ps as [|p ps IH]; intros pre ra fo Hok; [done|].
  cbn [assign_ranks]. destruct (cond p) eqn:Hc.
  - assert ((pre ++ [set_finished p (ra + 1)]) ++ ps
            = <[length pre := set_finished p (ra + 1)]> (pre ++ p :: ps)) as Heq.
    { rewrite insert_app_r_alt by done. rewrite Nat.sub_diag. simpl.
      by rewrite <- (assoc_L (++)). }
    specialize (IH (pre ++ [set_finished p (ra + 1)]) (ra + 1)
                  (fo ++ [(name p, ra + 1)])).
    destruct (assign_ranks cond ps (ra + 1) (fo ++ [(name p, ra + 1)]))
      as [[qs ra'] fo'].
    cbn [fst snd] in IH |- *.
    rewrite cons_middle, (assoc_L (++)). apply IH. rewrite Heq.
    apply ranks_ok_finish; [done| |by apply Hcond].
    by rewrite lookup_app_r, Nat.sub_diag.
  - specialize (IH (pre ++ [p]) ra fo).
    destruct (assign_ranks cond ps ra fo) as [[qs ra'] fo'].
    cbn [fst snd] in IH |- *.
    rewrite cons_middle, (assoc_L (++)). apply IH. by rewrite <- (assoc_L (++)).
Qed.

Lemma ranks_consistent_ext (g g' : Game) :
  players g' = players g → ranks_assigned g' = ranks_assigned g →
  finish_order g' = finish_order g →
  ranks_consistent g → ranks_consistent g'.
Proof. unfold ranks_consistent. by intros -> -> ->. Qed.

Lemma ranks_run_assign (cond : Player → bool) (g : Game) :
  (∀ p, cond p = true → is_active p = true) →
  ranks_consistent g → ranks_consistent (run_assign_ranks cond g).
Proof.
  intros Hcond Hok. unfold ranks_consistent, run_assign_ranks.
  pose proof (assign_ranks_ok cond (players g) [] (ranks_assigned g)
                (finish_order g) Hcond Hok) as H.
  by destruct (assign_ranks cond (players g) (ranks_assigned g) (finish_order g))
    as [[qs ra'] fo'].
Qed.

Lemma ranks_check_game_end (g : Game) :
  ranks_consistent g → ranks_consistent (check_game_end g).
Proof.
  intros Hok. unfold check_game_end. case_bool_decide; [|done].
  apply (ranks_consistent_ext (run_assign_ranks active_unranked g)); try done.
  apply ranks_run_assign; [|done]. apply active_unranked_active.
Qed.

Lemma ranks_update_player (f : Player → Player) (i : nat) (g : Game) :
  (∀ p, name (f p) = name p ∧ is_active (f p) = is_active p
        ∧ finished_rank (f p) = finished_rank p) →
  ranks_consistent g → ranks_consistent (update_player i f g).
Proof. intros Hf Hok. by apply ranks_ok_alter. Qed.

Lemma ranks_finish_player (g : Game) (i : nat) (q : Player) :
  players g !! i = Some q → is_active q = true →
  ranks_consistent g → ranks_consistent (finish_player i (name q) g).
Proof.
  intros Hq Ha Hok. unfold finish_player. cbv zeta.
  apply ranks_check_game_end. unfold ranks_consistent. simpl.
  rewrite (alter_as_insert (λ p, set_finished p (ranks_assigned g + 1)) _ _ _ Hq).
  by apply ranks_ok_finish.
Qed.

Lemma clear_pickup_fields (p : Player) :
  name (clear_pickup p) = name p ∧ is_active (clear_pickup p) = is_active p
  ∧ finished_rank (clear_pickup p) = finished_rank p.
Proof. unfold clear_pickup. by destruct (just_picked_up p). Qed.

Lemma ranks_play_lead (g : Game) (i : nat) (p : Player)
    (popped : Card * list Card) :
  players g !! i = Some p → is_active p = true →
  ranks_consistent g → ranks_consistent (play_lead g i p popped).
Proof.
  intros Hp Ha Hok. unfold play_lead. cbv zeta.
  apply ranks_update_player; [apply clear_pickup_fields|].
  assert (ranks_consistent (update_player i (λ q, set_hand q popped.2) g)) as H1.
  { by apply ranks_update_player. }
  match goal with
  | |- ranks_consistent (if _ then finish_player _ _ ?g6 else _) =>
      assert (ranks_consistent g6) as H6;
      [|assert (players g6 !! i = Some (set_hand p popped.2)) as Hq]
  end.
  - eapply ranks_consistent_ext; [..|exact H1]; simpl; by destruct (first_move g).
  - simpl. destruct (first_move g); simpl;
      by rewrite (alter_as_insert (λ q, set_hand q popped.2) _ _ _ Hp),
        list_lookup_insert_eq by (by eapply lookup_lt_Some).
  - case_bool_decide; [|done].
    by apply (ranks_finish_player _ i (set_hand p popped.2)).
Qed.

Lemma ranks_attempt_play_card (g g' : Game) (i : nat) (ci : Z) :
  attempt_play_card g i ci = Ok g' →
  ranks_consistent g → ranks_consistent g'.
Proof.
  intros Hplay Hok.
  destruct (attempt_play_card_cases _ _ _ _ Hplay)
    as [Hts|(p & popped & Hp & Hact & _ & _ & Hpop
             & [(_ & _ & ->)|(s & _ & _ & ->)])].
  - unfold table_state in Hts.
    injection Hts as Hps _ _ _ _ _ _ Hra Hfo.
    by apply (ranks_consistent_ext g).
  - by apply ranks_play_lead.
  - destruct (play_follow_shape g i p s (has_suit p s) popped Hp)
      as (_ & _ & _ & _ & _ & Hra & Hfo & _ & Hps & _).
    assert (ranks_consistent (update_player i (λ q, set_hand q popped.2) g)) as H1.
    { by apply ranks_update_player. }
    destruct Hps as [Hps|[Hps _]].
    + apply (ranks_consistent_ext
               (update_player i clear_pickup
                  (update_player i (λ q, set_hand q popped.2) g))); try done.
      * rewrite Hps. unfold update_player. simpl.
        rewrite (alter_as_insert (λ q, set_hand q popped.2) _ _ _ Hp).
        rewrite (alter_as_insert clear_pickup _ _ (set_hand p popped.2)).
        -- by rewrite list_insert_insert_eq.
        -- apply list_lookup_insert_eq. by eapply lookup_lt_Some.
      * apply ranks_update_player; [apply clear_pickup_fields|done].
    + apply (ranks_consistent_ext
               (update_player i (λ q, set_hand q popped.2) g)); try done.
      rewrite Hps. symmetry.
      exact (update_player_players i (λ q, set_hand q popped.2) g p Hp).
Qed.

Section Ranks.

Variable shuffle : list Card → list Card.
Variable randrange : nat → nat.

Lemma ranks_commit_pickup (t : option bool) (g h : Game) :
  commit_pickup shuffle t g = Ok h →
  ranks_consistent g → ranks_consistent h.
Proof.
  unfold commit_pickup. intros E Hok.
  destruct (default (pending_tochoo g) t).
  - destruct (seat g (trick_winner g)); [|discriminate E]. cbn [rbind] in E.
    injection E as <-. unfold ranks_consistent, update_player.
    cbn [players ranks_assigned finish_order set_active_index
         set_leader_index set_players].
    apply ranks_ok_alter; [intros q; by repeat split|].
    apply ranks_ok_alter; [intros q; by repeat split|]. exact Hok.
  - injection E as <-. exact Hok.
Qed.

Lemma ranks_commit_finish (h : Game) :
  ranks_consistent h → ranks_consistent (commit_finish h).
Proof.
  intros Hh.
  assert (ranks_consistent
            (check_game_end
               (run_assign_ranks active_empty
                  (set_required_suit None (set_trick_cards [] h))))) as H4.
  { apply ranks_check_game_end. apply ranks_run_assign.
    - apply active_empty_active.
    - exact Hh. }
  unfold commit_finish. cbv zeta.
  set (g4 := check_game_end _) in *.
  unfold ranks_consistent in *.
  by destruct (bool_decide _).
Qed.

Lemma ranks_commit (t : option bool) (g g' : Game) :
  actually_resolve_trick shuffle t g = Ok g' →
  ranks_consistent g → ranks_consistent g'.
Proof.
  rewrite actually_resolve_trick_halves.
  destruct (commit_pickup shuffle t g) as [h|] eqn:E; [|done]. cbn [rbind].
  intros [= <-] Hok. apply ranks_commit_finish.
  by eapply ranks_commit_pickup.
Qed.

Lemma ranks_step (g g' : Game) :
  step shuffle g g' → ranks_consistent g → ranks_consistent g'.
Proof.
  destruct 1 as [g i ci g' Hplay|g|g t g' Hcommit|g|g w]; intros Hok.
  - by eapply ranks_attempt_play_card.
  - apply (ranks_consistent_ext g); try done.
    + apply finish_animation_table.
    + unfold finish_animation, resolve_trick.
      destruct (animating g); [|done]. simpl.
      destruct (resolve_after_animation g); [|done]. simpl.
      by destruct (trick_cards g).
    + unfold finish_animation, resolve_trick.
      destruct (animating g); [|done]. simpl.
      destruct (resolve_after_animation g); [|done]. simpl.
      by destruct (trick_cards g).
  - by eapply ranks_commit.
  - apply (ranks_consistent_ext g); try done;
      unfold toggle_pause; repeat (case_bool_decide || case_match); done.
  - done.
Qed.

(** In every state of a dealt game the finish list carries the ranks 1,
    2, ... up to [ranks_assigned], in this order; a seat is inactive
    exactly when it has a rank; the name and the rank of a ranked seat
    are an entry of the finish list and every entry is the rank of a
    seat; no two seats share a rank. *)
Theorem ranks_are_consistent (g : Game) :
  reachable shuffle randrange g →
  (finish_order g).*2 = seq 1 (ranks_assigned g)
  ∧ (∀ i p, players g !! i = Some p →
       (is_active p = true ↔ finished_rank p = None)
       ∧ ∀ r, finished_rank p = Some r →
              1 ≤ r ≤ ranks_assigned g ∧ (name p, r) ∈ finish_order g)
  ∧ (∀ e, e ∈ finish_order g →
       ∃ i p, players g !! i = Some p ∧ name p = e.1
              ∧ finished_rank p = Some e.2)
  ∧ ∀ i j p q r, players g !! i = Some p → players g !! j = Some q →
       finished_rank p = Some r → finished_rank q = Some r → i = j.
Proof.
  intros Hg.
  assert (ranks_consistent g) as Hok.
  { induction Hg as [g0 g Hdeal|g g' _ IH Hstep]; [|by eapply ranks_step].
    destruct (start_game_fresh _ _ _ _ Hdeal)
      as (_ & _ & _ & _ & _ & Hra & Hfo & _ & _ & _ & _ & Hall).
    unfold ranks_consistent, ranks_ok. rewrite Hra, Hfo.
    split; [done|]. split; [|split].
    - intros i p Hp.
      destruct (proj1 (Forall_lookup _ _) Hall i p Hp) as (Ha & -> & _). done.
    - intros e He. by apply elem_of_nil in He.
    - intros i j p q r Hp _ Hr.
      destruct (proj1 (Forall_lookup _ _) Hall i p Hp) as (_ & Hn & _).
      congruence. }
  pose proof Hok as (Hfo & Hps & Hent & Huniq).
  split; [done|]. split; [|split; [done|done]].
  intros i p Hp. specialize (Hps i p Hp). split.
  - destruct (finished_rank p); [|done]. destruct Hps as [Hps _].
    split; [congruence|done].
  - intros r Hr. split; [by eapply ranks_ok_bound|].
    rewrite Hr in Hps. by destruct Hps.
Qed.

End Ranks.

Lemma ranks_are_consistent_witness :
  reachable (shuffle_to deal_short_game) (λ _, 0) short_game_end
  ∧ (finish_order short_game_end).*2 = seq 1 (ranks_assigned short_game_end).
Proof.
  assert (reachable (shuffle_to deal_short_game) (λ _, 0) short_game_end) as Hr.
  { apply (cpu_game_reachable _ 3 113), short_game_end_eq. }
  split; [exact Hr|].
  exact (proj1 (ranks_are_consistent _ _ _ Hr)).
Defined.

(** ** The CPU leading policy and the CPU driver *)

Lemma find_ace_spec (h : list Card) :
  match list_find (λ c, is_ace_of_spades c = true) h with
  | Some (k, c) => h !! k = Some c ∧ c = mkCard RA Spades
  | None => mkCard RA Spades ∉ h
  end.
Proof.
  destruct (list_find _ h) as [[k c]|] eqn:E.
  - apply list_find_Some in E as (Hc & Hace & _). split; [done|].
    rewrite is_ace_of_spades_spec in Hace. by apply bool_decide_eq_true in Hace.
  - apply list_find_None in E. intros Hin.
    by apply (proj1 (Forall_forall _ _) E _ Hin).
Qed.

(** The lowest card outside the suit to avoid, else the lowest card. *)
Lemma lowest_choice (p : Player) :
  hand p ≠ [] →
  ∃ k c,
    match active_avoid_suit p
          ≫= (λ a, py_min card_value_at (non_avoid a (hand p))) with
    | Some t => Ok (Some t.1)
    | None => Ok (fst <$> py_min card_value_at (enumerate (hand p)))
    end = Ok (Some k) :> result (option nat)
    ∧ hand p !! k = Some c
    ∧ (∀ a, active_avoid_suit p = Some a → (∃ d, d ∈ hand p ∧ suit d ≠ a) →
         suit c ≠ a ∧ ∀ d, d ∈ hand p → suit d ≠ a → (value c ≤ value d)%Z)
    ∧ ((active_avoid_suit p = None
        ∨ ∃ a, active_avoid_suit p = Some a ∧ ∀ d, d ∈ hand p → suit d = a) →
       ∀ d, d ∈ hand p → (value c ≤ value d)%Z).
Proof.
  intros Hne.
  assert (∃ t, py_min card_value_at (enumerate (hand p)) = Some t) as [tall Eall].
  { destruct (py_min card_value_at (enumerate (hand p))) eqn:E; [eauto|].
    by apply py_min_None, enumerate_nil in E. }
  assert (hand p !! tall.1 = Some tall.2
          ∧ ∀ d, d ∈ hand p → (value tall.2 ≤ value d)%Z) as [Hc Hmin].
  { apply py_min_spec in Eall as [Hin Hmin]. apply enumerate_elem in Hin.
    split; [done|]. intros d [j Hj]%list_elem_of_lookup.
    apply (Hmin (j, d)). by apply enumerate_elem. }
  destruct (active_avoid_suit p) as [a|] eqn:Eavoid; simpl.
  - destruct (py_min card_value_at (non_avoid a (hand p))) as [[i c]|] eqn:Emin.
    + apply py_min_spec in Emin as [Hin Hmin'].
      apply non_avoid_elem in Hin as [Hc' Hs]. simpl in *.
      exists i, c. split; [done|]. split; [done|]. split.
      * intros a' [= <-] _. split; [done|].
        intros d [j Hj]%list_elem_of_lookup Hds.
        apply (Hmin' (j, d)). by apply non_avoid_elem.
      * intros [?|(a' & [= <-] & Hsame)]; [done|].
        destruct Hs. apply Hsame. apply list_elem_of_lookup. eauto.
    + apply py_min_None in Emin.
      pose proof (non_avoid_nil _ _ Emin) as Hsame.
      rewrite Eall. simpl. exists tall.1, tall.2.
      split; [done|]. split; [done|]. split.
      * intros a' [= <-] (d & Hd & Hds). destruct Hds. by apply Hsame.
      * intros _. apply Hmin.
  - rewrite Eall. simpl. exists tall.1, tall.2.
    split; [done|]. split; [done|]. split; [by intros a'|].
    intros _. apply Hmin.
Qed.


(** The index the policy chooses for a seat in play is playable, unless
    the game is at its first move with a seat to lead that does not hold
    the Ace of Spades. *)
Lemma cpu_choice_playable (g : Game) (i : nat) (p : Player) (k : nat) :
  players g !! i = Some p → is_active p = true →
  cpu_choose_card_index g i = Ok (Some k) →
  (first_move g = true → required_suit g = None → active_index g = Some i →
   mkCard RA Spades ∈ hand p) →
  is_card_playable g i (Z.of_nat k) = Ok true.
Proof.
  intros Hp Ha Hch Hace.
  destruct (cpu_choose_in_hand g i p Hp) as (r & Hr & Hlt).
  rewrite Hch in Hr. injection Hr as <-. specialize (Hlt k eq_refl).
  destruct (lookup_lt_is_Some_2 _ _ Hlt) as [c Hc].
  unfold cpu_choose_card_index in Hch.
  rewrite (seat_lookup _ _ _ Hp) in Hch. cbn [rbind] in Hch.
  destruct (hand p) as [|c0 h0] eqn:Hh; [done|]. rewrite <- Hh in *.
  clear Hh c0 h0.
  unfold is_card_playable. rewrite (seat_lookup _ _ _ Hp). cbn [rbind].
  rewrite Ha. cbn [negb]. rewrite (py_index_nat _ _ _ Hc). cbn [rbind].
  destruct (required_suit g) as [s|] eqn:Hreq.
  - cbn [andb]. rewrite bool_decide_eq_false_2 by done. cbn [andb].
    destruct (has_suit p s) eqn:Hhs; [|done].
    destruct (py_min card_value_at (same_suit_indices s (hand p))) as [t|] eqn:E.
    + injection Hch as <-. apply py_min_spec in E as [E _].
      apply same_suit_indices_elem in E as [E Hs].
      rewrite Hc in E. injection E as ->. by rewrite bool_decide_eq_true_2.
    + apply py_min_None in E. apply has_suit_true in Hhs as (d & Hd & Hds).
      by destruct (same_suit_indices_nil _ _ E d Hd).
  - rewrite bool_decide_eq_true_2 by done. cbn [andb].
    destruct (first_move g && bool_decide (Some i = active_index g)) eqn:Eb;
      [|done].
    apply andb_true_iff in Eb as [Hfm Hai]. apply bool_decide_eq_true in Hai.
    pose proof (find_ace_spec (hand p)) as Hfind.
    destruct (list_find _ (hand p)) as [[k' c']|].
    + injection Hch as <-. destruct Hfind as [Hc' ->].
      rewrite Hc in Hc'. by injection Hc' as ->.
    + by destruct Hfind; apply Hace.
Qed.

(** When it leads, the CPU plays the Ace of Spades on the first move of
    the game if it is the seat to move and holds it. Otherwise it plays a
    card of the lowest value among those that are not of the suit it has
    just picked up, when it has such cards, and else a card of the lowest
    value of its hand. For a seat in play the index is playable, unless
    it is the first move and the seat to move does not hold the Ace. *)
Theorem cpu_lead_policy (g : Game) (player_idx : nat) (p : Player) :
  players g !! player_idx = Some p →
  required_suit g = None →
  hand p ≠ [] →
  ∃ i c,
    cpu_choose_card_index g player_idx = Ok (Some i)
    ∧ hand p !! i = Some c
    ∧ (first_move g = true → active_index g = Some player_idx →
       mkCard RA Spades ∈ hand p → c = mkCard RA Spades)
    ∧ (¬ (first_move g = true ∧ active_index g = Some player_idx
          ∧ mkCard RA Spades ∈ hand p) →
       (∀ a, active_avoid_suit p = Some a → (∃ d, d ∈ hand p ∧ suit d ≠ a) →
          suit c ≠ a ∧ ∀ d, d ∈ hand p → suit d ≠ a → (value c ≤ value d)%Z)
       ∧ ((active_avoid_suit p = None
           ∨ ∃ a, active_avoid_suit p = Some a ∧ ∀ d, d ∈ hand p → suit d = a) →
          ∀ d, d ∈ hand p → (value c ≤ value d)%Z))
    ∧ (is_active p = true →
       (first_move g = true → active_index g = Some player_idx →
        mkCard RA Spades ∈ hand p) →
       is_card_playable g player_idx (Z.of_nat i) = Ok true).
Proof.
  intros Hp Hreq Hne.
  destruct (lowest_choice p Hne) as (k & c & Hk & Hc & Havoid & Hall).
  assert (∃ i c,
            cpu_choose_card_index g player_idx = Ok (Some i)
            ∧ hand p !! i = Some c
            ∧ (first_move g = true → active_index g = Some player_idx →
               mkCard RA Spades ∈ hand p → c = mkCard RA Spades)
            ∧ (¬ (first_move g = true ∧ active_index g = Some player_idx
                  ∧ mkCard RA Spades ∈ hand p) → i = k))
    as (i & c' & Hch & Hc' & Hfirst & Hlow).
  { unfold cpu_choose_card_index. rewrite (seat_lookup _ _ _ Hp). cbn [rbind].
    destruct (hand p) as [|c0 h0] eqn:Hh; [done|]. rewrite <- Hh in *.
    rewrite Hreq.
    destruct (first_move g && bool_decide (Some player_idx = active_index g))
      eqn:Eb.
    - apply andb_true_iff in Eb as [Hfm Hai]. apply bool_decide_eq_true in Hai.
      pose proof (find_ace_spec (hand p)) as Hfind.
      destruct (list_find _ (hand p)) as [[k' a]|].
      + destruct Hfind as [Ha ->]. exists k', (mkCard RA Spades).
        split; [done|]. split; [done|]. split; [done|].
        intros Hnot. destruct Hnot. split; [done|]. split; [done|].
        apply list_elem_of_lookup. eauto.
      + exists k, c. split; [done|]. split; [done|].
        split; [by intros _ _ Hin|done].
    - exists k, c. split; [done|]. split; [done|]. split; [|done].
      intros Hfm Hai. rewrite Hfm, Hai in Eb.
      by rewrite bool_decide_eq_true_2 in Eb. }
  exists i, c'. split; [done|]. split; [done|]. split; [done|]. split.
  - intros Hnot. pose proof (Hlow Hnot) as ->.
    rewrite Hc in Hc'. injection Hc' as <-. by split.
  - intros Ha Hace. apply (cpu_choice_playable g player_idx p); try done.
    intros Hfm _ Hai. by apply Hace.
Qed.

Lemma cpu_lead_policy_witness :
  players demo_lead_table !! 0 = Some demo_lead_p1
  ∧ required_suit demo_lead_table = None
  ∧ hand demo_lead_p1 ≠ []
  ∧ active_avoid_suit demo_lead_p1 = Some Spades
  ∧ ∃ i, cpu_choose_card_index demo_lead_table 0 = Ok (Some i)
         ∧ hand demo_lead_p1 !! i = Some (mkCard R9 Hearts)
         ∧ is_card_playable demo_lead_table 0 (Z.of_nat i) = Ok true.
Proof.
  split; [reflexivity|]. split; [reflexivity|]. split; [discriminate|].
  split; [reflexivity|].
  destruct (cpu_lead_policy demo_lead_table 0 demo_lead_p1 eq_refl eq_refl)
    as (i & c & Hi & Hc & _ & _ & Hplay); [discriminate|].
  exists i. split; [exact Hi|]. split.
  - vm_compute in Hi. injection Hi as <-. reflexivity.
  - apply Hplay; [reflexivity|]. intros Hfm. discriminate Hfm.
Defined.



(** ** The setup screen *)

(** [set_player_count n] leaves [n] seats: the seats that existed keep
    their player (with its seat type), the new ones are human players
    named after their position; with [n] at least one the table is ready
    for [start_game]. Setting the same count again changes nothing. *)
Theorem set_player_count_spec (n : nat) (g : Game) :
  player_count (set_player_count n g) = n
  ∧ length (players (set_player_count n g)) = n
  ∧ (∀ i p, i < n → players g !! i = Some p →
            players (set_player_count n g) !! i = Some p)
  ∧ (∀ i, length (players g) ≤ i < n →
          players (set_player_count n g) !! i
          = Some (new_player (seat_name i) true))
  ∧ (n ≠ 0 → setup_table (set_player_count n g))
  ∧ set_player_count n (set_player_count n g) = set_player_count n g.
Proof.
  assert (∀ i, i < n →
            players (set_player_count n g) !! i
            = Some (default (new_player (seat_name i) true) (players g !! i)))
    as Hlook.
  { intros i Hi. unfold set_player_count. cbn [players].
    rewrite list_lookup_fmap, lookup_seq_lt by done. done. }
  assert (length (players (set_player_count n g)) = n) as Hlen.
  { unfold set_player_count. cbn [players]. by rewrite length_fmap, length_seq. }
  split; [done|]. split; [done|]. split; [|split; [|split]].
  - intros i p Hi Hp. by rewrite Hlook, Hp.
  - intros i [Hge Hi]. rewrite Hlook by done.
    by rewrite lookup_ge_None_2.
  - intros Hn. by split.
  - unfold set_player_count at 1 3. cbn [players player_count state deck
      discard_pile trick_cards leader_index active_index required_suit
      ranks_assigned finish_order showing_trick last_played_cards
      pending_tochoo last_trick_suit warning_text paused first_move animating
      resolve_after_animation pause_button_text].
    f_equal. apply list_eq. intros i.
    rewrite !list_lookup_fmap.
    destruct (decide (i < n)) as [Hi|Hi].
    + rewrite lookup_seq_lt by done. cbn [fmap option_fmap option_map].
      change (0 + i) with i. by rewrite (Hlook i Hi).
    + by rewrite lookup_seq_ge by lia.
Qed.



Section SetupToDeal.

Variable shuffle : list Card → list Card.
Variable randrange : nat → nat.
Hypothesis shuffle_perm : ∀ l, shuffle l ≡ₚ l.

Lemma start_game_returns (g0 : Game) :
  setup_table g0 →
  ∃ g, start_game shuffle randrange g0 = Ok g
       ∧ Forall2 (λ p q, name q = name p ∧ is_human q = is_human p)
           (players g0) (players g).
Proof using shuffle_perm.
  intros [Hpc Hlen].
  assert (length (shuffle full_deck) = 52) as Hd by (by rewrite shuffle_perm).
  destruct (deal_count_prefix 52 (player_count g0) (length (players g0)))
    as [Hle Heq]; [done|lia|]. specialize (Heq Hlen).
  destruct (deal_ok (shuffle full_deck) (player_count g0) (players g0) 0 0)
    as (ps & Hdeal & Hperm & Hf & _); [lia|rewrite Hd; lia|].
  rewrite Hd, Heq, drop_0 in Hperm.
  rewrite take_ge, shuffle_perm in Hperm by lia.
  destruct (find_starter_full ps Hperm) as (s & p & Hs & _).
  unfold start_game. rewrite bool_decide_eq_false_2 by done.
  rewrite Hdeal. cbn [rbind]. rewrite Hs. cbn [rbind].
  eexists. split; [done|]. done.
Qed.

(** Restart always leads back to a table that can be dealt: after
    [restart_to_setup], whatever the state of the game was, the setup
    screen shows four human seats named P1 to P4, and [start_game] deals
    a game to them without raising. *)
Theorem restart_then_start (g : Game) :
  setup_table (populate_seats (restart_to_setup g))
  ∧ ∃ g', start_game shuffle randrange (populate_seats (restart_to_setup g))
          = Ok g'
          ∧ name <$> players g' = ["P1"; "P2"; "P3"; "P4"]
          ∧ is_human <$> players g' = [true; true; true; true]
          ∧ dealt_game shuffle randrange g'.
Proof using shuffle_perm.
  assert (setup_table (populate_seats (restart_to_setup g))) as Hsetup.
  { split; [discriminate|reflexivity]. }
  split; [done|].
  destruct (start_game_returns _ Hsetup) as (g' & Hg' & Hf).
  exists g'. split; [done|].
  assert (players (populate_seats (restart_to_setup g))
          = [new_player "P1" true; new_player "P2" true;
             new_player "P3" true; new_player "P4" true]) as Hps by reflexivity.
  rewrite Hps in Hf.
  split; [|split].
  - apply Forall2_cons_inv_l in Hf as (q1 & r1 & [H1 _] & Hf & ->).
    apply Forall2_cons_inv_l in Hf as (q2 & r2 & [H2 _] & Hf & ->).
    apply Forall2_cons_inv_l in Hf as (q3 & r3 & [H3 _] & Hf & ->).
    apply Forall2_cons_inv_l in Hf as (q4 & r4 & [H4 _] & Hf & ->).
    apply Forall2_nil_inv_l in Hf as ->. simpl in *. congruence.
  - apply Forall2_cons_inv_l in Hf as (q1 & r1 & [_ H1] & Hf & ->).
    apply Forall2_cons_inv_l in Hf as (q2 & r2 & [_ H2] & Hf & ->).
    apply Forall2_cons_inv_l in Hf as (q3 & r3 & [_ H3] & Hf & ->).
    apply Forall2_cons_inv_l in Hf as (q4 & r4 & [_ H4] & Hf & ->).
    apply Forall2_nil_inv_l in Hf as ->. simpl in *. congruence.
  - exists (populate_seats (restart_to_setup g)), g'.
    split; [done|]. split; [done|apply rtc_refl].
Qed.

End SetupToDeal.

Lemma restart_then_start_witness :
  ∃ g', start_game reverse (λ _, 0) (populate_seats (restart_to_setup demo_table))
        = Ok g'
        ∧ name <$> players g' = ["P1"; "P2"; "P3"; "P4"].
Proof.
  destruct (restart_then_start reverse (λ _, 0) reverse_Permutation demo_table)
    as (_ & g' & Hg' & Hn & _).
  exists g'. split; [exact Hg'|exact Hn].
Defined.
